(** * juju: process plugin environment parsing and the service state layer

    A shallow embedding of [process/plugin.go] (ParseEnv, UnparseEnv) and of
    [state/service.go] (the Service entity and its transactions against the
    document store), with the properties the specification states about
    them. *)

From Stdlib Require Import ZArith Lia Ascii String List.
From stdpp Require Import base option list gmap fin_maps strings pretty.

Open Scope Z_scope.

(** ** Go strings

    A Go string is a sequence of bytes; [string] (a list of [ascii]) is that
    sequence. The functions of package [strings] used by the sources work
    on the UTF-8 encoding, so they are written on the bytes. *)

Definition bytes (s : string) : list ascii := list_ascii_of_string s.
Definition of_bytes (l : list ascii) : string := string_of_list_ascii l.
Definition rune (codes : list nat) : list ascii := map ascii_of_nat codes.

(** The UTF-8 encodings of the code points for which [unicode.IsSpace]
    holds: tab, line feed, vertical tab, form feed, carriage return, space,
    U+0085, U+00A0, U+1680, U+2000 to U+200A, U+2028, U+2029, U+202F,
    U+205F and U+3000. *)
Definition spaceRunes : list (list ascii) :=
  map rune
    [ [9]; [10]; [11]; [12]; [13]; [32];
      [194; 133]; [194; 160];
      [225; 154; 128];
      [226; 128; 128]; [226; 128; 129]; [226; 128; 130]; [226; 128; 131];
      [226; 128; 132]; [226; 128; 133]; [226; 128; 134]; [226; 128; 135];
      [226; 128; 136]; [226; 128; 137]; [226; 128; 138];
      [226; 128; 168]; [226; 128; 169]; [226; 128; 175];
      [226; 129; 159];
      [227; 128; 128] ]%nat.

(** [strip_prefix p l] is the rest of [l] after its prefix [p], if [p] is
    one. *)
Fixpoint strip_prefix (p l : list ascii) : option (list ascii) :=
  match p, l with
  | [], _ => Some l
  | c :: p', d :: l' => if decide (c = d) then strip_prefix p' l' else None
  | _ :: _, [] => None
  end.

(** The rest of [l] after the first of the patterns [pats] it starts with. *)
Fixpoint strip_first (pats : list (list ascii)) (l : list ascii)
  : option (list ascii) :=
  match pats with
  | [] => None
  | p :: pats' =>
      match strip_prefix p l with
      | Some rest => Some rest
      | None => strip_first pats' l
      end
  end.

(** Removes leading patterns for as long as there is one; every pattern
    removed is at least one byte, so [length l] rounds are enough. *)
Fixpoint trim_left (pats : list (list ascii)) (fuel : nat) (l : list ascii)
  : list ascii :=
  match fuel with
  | O => l
  | S fuel' =>
      match strip_first pats l with
      | Some rest => trim_left pats fuel' rest
      | None => l
      end
  end.

(** [strings.TrimLeftFunc(s, unicode.IsSpace)] on the bytes. *)
Definition TrimLeftSpace (l : list ascii) : list ascii :=
  trim_left spaceRunes (length l) l.

(** [strings.TrimRightFunc(s, unicode.IsSpace)] on the bytes: the last rune
    is a space exactly when the bytes end with the encoding of one. *)
Definition TrimRightSpace (l : list ascii) : list ascii :=
  reverse (trim_left (map reverse spaceRunes) (length l) (reverse l)).

(** [strings.TrimSpace]. *)
Definition TrimSpace (s : string) : string :=
  of_bytes (TrimRightSpace (TrimLeftSpace (bytes s))).

(** [s] starts (ends) with a white space rune. *)
Definition leading_space (s : string) : bool :=
  bool_decide (is_Some (strip_first spaceRunes (bytes s))).
Definition trailing_space (s : string) : bool :=
  bool_decide (is_Some (strip_first (map reverse spaceRunes) (reverse (bytes s)))).

Definition eq_sign : ascii := "="%char.

(** The parts of [l] before and after its first '=' byte. *)
Fixpoint cut_eq (l : list ascii) : option (list ascii * list ascii) :=
  match l with
  | [] => None
  | c :: l' =>
      if decide (c = eq_sign) then Some ([], l')
      else match cut_eq l' with
           | Some (a, b) => Some (c :: a, b)
           | None => None
           end
  end.

(** [strings.SplitN(s, "=", 2)]: the string itself when it has no '=', the
    parts around the first '=' otherwise. *)
Definition SplitN_eq_2 (s : string) : list string :=
  match cut_eq (bytes s) with
  | None => [s]
  | Some (a, b) => [of_bytes a; of_bytes b]
  end.

(** [s] contains the byte '='. *)
Definition has_eq (s : string) : bool :=
  bool_decide (eq_sign ∈ bytes s).

(** ** process/plugin.go *)

Module process.

(** The body of the loop of ParseEnv, for one entry of [raw]. *)
Definition ParseEnv_body (envVars : gmap string string) (envVarStr : string)
  : gmap string string :=
  let envVarStr := TrimSpace envVarStr in
  if decide (envVarStr = "") then envVars
  else
    let parts := SplitN_eq_2 envVarStr in
    let parts := if decide (length parts = 1%nat) then parts ++ [""] else parts in
    <[ nth 0 parts "" := nth 1 parts "" ]> envVars.

(** ParseEnv: [None] is the nil map. *)
Definition ParseEnv (raw : list string) : option (gmap string string) :=
  let envVars := foldl ParseEnv_body ∅ raw in
  if decide (size envVars = 0%nat) then None else Some envVars.

(** The entry UnparseEnv appends for one variable. *)
Definition unparse (kv : string * string) : string :=
  kv.1 +:+ "=" +:+ kv.2.

(** UnparseEnv, for the order [order] in which the [range] over the map
    visits its entries; Go leaves that order unspecified. *)
Definition UnparseEnv_in (order : list (string * string)) : list string :=
  foldl (fun envVars kv => envVars ++ [unparse kv]) [] order.

(** An order in which [range] can visit [env]. *)
Definition range_order (env : gmap string string) (order : list (string * string)) : Prop :=
  order ≡ₚ map_to_list env.

(** UnparseEnv with the order of [map_to_list]. *)
Definition UnparseEnv (env : gmap string string) : list string :=
  UnparseEnv_in (map_to_list env).

(** The condition on a variable: the name is not empty, has no '=' and no
    space at either end, and the value has no space at its end. *)
Definition plain_var (k v : string) : Prop :=
  k ≠ "" /\ has_eq k = false /\ leading_space k = false /\
  trailing_space k = false /\ trailing_space v = false.

End process.

(** ** state/service.go: data model *)

Module state.

(** Life: the lifecycle of an entity. *)
Inductive Life := Alive | Dying | Dead.

#[export] Instance Life_eq_dec : EqDecision Life.
Proof. solve_decision. Defined.

(** The position of a Life value along Alive, Dying, Dead. *)
Definition Life_rank (l : Life) : nat :=
  match l with Alive => 0 | Dying => 1 | Dead => 2 end%nat.

(** [l1] is [l2] or comes before it. *)
Definition Life_le (l1 l2 : Life) : Prop := (Life_rank l1 <= Life_rank l2)%nat.

(** charm.URL, as its text; a nil [*charm.URL] is [None]. *)
Abbreviation charm_URL := string.

(** serviceDoc: the document of a service in the store. *)
Module serviceDoc.
Record t := mk {
  Name : string;
  CharmURL : option charm_URL;
  ForceCharm : bool;
  Life : Life;
  UnitSeq : Z;
  UnitCount : Z;
  RelationCount : Z;
  Exposed : bool;
  TxnRevno : Z }.
Definition set_Life (l : state.Life) (d : t) : t :=
  mk (Name d) (CharmURL d) (ForceCharm d) l (UnitSeq d) (UnitCount d)
     (RelationCount d) (Exposed d) (TxnRevno d).
Definition set_Exposed (b : bool) (d : t) : t :=
  mk (Name d) (CharmURL d) (ForceCharm d) (Life d) (UnitSeq d) (UnitCount d)
     (RelationCount d) b (TxnRevno d).
Definition set_CharmURL (u : option charm_URL) (d : t) : t :=
  mk (Name d) u (ForceCharm d) (Life d) (UnitSeq d) (UnitCount d)
     (RelationCount d) (Exposed d) (TxnRevno d).
Definition set_ForceCharm (b : bool) (d : t) : t :=
  mk (Name d) (CharmURL d) b (Life d) (UnitSeq d) (UnitCount d)
     (RelationCount d) (Exposed d) (TxnRevno d).
Definition set_UnitSeq (n : Z) (d : t) : t :=
  mk (Name d) (CharmURL d) (ForceCharm d) (Life d) n (UnitCount d)
     (RelationCount d) (Exposed d) (TxnRevno d).
Definition set_UnitCount (n : Z) (d : t) : t :=
  mk (Name d) (CharmURL d) (ForceCharm d) (Life d) (UnitSeq d) n
     (RelationCount d) (Exposed d) (TxnRevno d).
Definition set_RelationCount (n : Z) (d : t) : t :=
  mk (Name d) (CharmURL d) (ForceCharm d) (Life d) (UnitSeq d) (UnitCount d)
     n (Exposed d) (TxnRevno d).
Definition set_TxnRevno (n : Z) (d : t) : t :=
  mk (Name d) (CharmURL d) (ForceCharm d) (Life d) (UnitSeq d) (UnitCount d)
     (RelationCount d) (Exposed d) n.
End serviceDoc.

(** UnitStatus; UnitPending is the status of a unit just added. *)
Inductive UnitStatus := UnitPending | UnitStatusOther (status : string).

(** unitDoc: the document of a unit, with the fields service.go reads and
    writes (the declaration is in unit.go). *)
Module unitDoc.
Record t := mk {
  Name : string;
  Service : string;
  Principal : string;
  Subordinates : list string;
  MachineId : string;
  Life : Life;
  Status : UnitStatus }.
Definition set_Life (l : state.Life) (d : t) : t :=
  mk (Name d) (Service d) (Principal d) (Subordinates d) (MachineId d) l (Status d).
Definition set_Subordinates (l : list string) (d : t) : t :=
  mk (Name d) (Service d) (Principal d) l (MachineId d) (Life d) (Status d).
Definition set_MachineId (m : string) (d : t) : t :=
  mk (Name d) (Service d) (Principal d) (Subordinates d) m (Life d) (Status d).
End unitDoc.

Inductive RelationRole := RolePeer | RoleProvider | RoleRequirer.
Inductive RelationScope := ScopeGlobal | ScopeContainer.

(** Endpoint: one side of a relation. *)
Module Endpoint.
Record t := mk {
  ServiceName : string;
  Interface : string;
  RelationName : string;
  RelationRole : RelationRole;
  RelationScope : RelationScope }.
End Endpoint.

(** relationDoc: the document of a relation, with the fields service.go
    reads (the declaration is in relation.go). *)
Module relationDoc.
Record t := mk {
  Key : string;
  Endpoints : list Endpoint.t;
  Life : Life }.
Definition set_Life (l : state.Life) (d : t) : t := mk (Key d) (Endpoints d) l.
End relationDoc.

(** charm.Relation and charm.Meta, with the fields service.go reads. *)
Module charm.
Record Relation := mkRelation {
  Interface : string;
  Scope : RelationScope }.
Record Meta := mkMeta {
  Peers : gmap string Relation;
  Provides : gmap string Relation;
  Requires : gmap string Relation;
  Subordinate : bool }.
End charm.

(** Charm: a charm known to the state, with its URL and metadata. *)
Module Charm.
Record t := mk {
  URL : charm_URL;
  Meta : charm.Meta }.
End Charm.

(** ** Errors *)

(** An operand of a format string other than the error it ends with. *)
Inductive operand := OStr (s : string) | OBool (b : bool).

(** The error values of the package: the sentinels compared by identity,
    the failures of the store driver, and the errors built with a format. *)
#[warnings="-register-all"]
Inductive error :=
| ErrAborted                                   (* txn.ErrAborted *)
| ErrNotFound                                  (* mgo.ErrNotFound *)
| errNotAlive                                  (* the not-alive error of the package *)
| ErrStore (msg : string)                      (* another failure of the store driver *)
| Errorf (format : string) (args : list operand)
    (* fmt.Errorf(format, args...) and errors.New(format) *)
| Wrapf (format : string) (args : list operand) (cause : option error)
    (* fmt.Errorf(format, args..., cause), the format ending in %v *)
| NotFoundError (format : string) (args : list operand)
    (* notFound(format, args...) *)
| Context (format : string) (args : list operand) (cause : error).
    (* what trivial.ErrorContextf makes of the error [cause] *)

(** Modelled from the spec: trivial.ErrorContextf (package trivial is not
    among the sources at hand). Entity operations wrap the errors they return with the
    identity of the entity; a nil error stays nil. *)
Definition ErrorContextf (err : option error) (format : string) (args : list operand)
  : option error :=
  match err with
  | None => None
  | Some e => Some (Context format args e)
  end.

(** Modelled from the spec: onAbort (a helper of package state, declared
    in a file that is not at hand). An abort reported by the store is never returned as it is:
    it is replaced by [abortErr]; any other outcome is returned unchanged. *)
Definition onAbort (txnErr : option error) (abortErr : option error) : option error :=
  match txnErr with
  | Some ErrAborted => abortErr
  | _ => txnErr
  end.

(** ** The document store

    The store driver (mgo) and its transaction runner (mgo/txn) are
    outside the repository. Their documented behaviour, for the queries and
    updates service.go builds, is written out here. *)

(** The values of the query and update documents ([bson.D], written [D] in
    the package). *)
#[warnings="-register-all"]
Inductive bson :=
| BInt (n : Z)
| BBool (b : bool)
| BStr (s : string)
| BLife (l : Life)
| BURL (u : option charm_URL)
| BStrs (l : list string)
| BRegEx (pattern : string)
| BD (d : list (string * bson)).

Abbreviation D := (list (string * bson)).

(** The collections of the state. *)
Inductive collection := services | units | relations.

#[export] Instance collection_eq_dec : EqDecision collection.
Proof. solve_decision. Defined.

(** A document of one of the collections. *)
Inductive document :=
| ServiceDoc (d : serviceDoc.t)
| UnitDoc (d : unitDoc.t)
| RelationDoc (d : relationDoc.t).

(** What a transaction operation asserts: nothing (a nil Assert),
    txn.DocMissing, txn.DocExists or a query document. *)
Inductive assertion := NoAssert | DocMissing | DocExists | AssertD (q : D).

(** txn.Op. *)
Record Op := mkOp {
  C : collection;
  Id : string;
  Assert : assertion;
  Insert : option document;
  Update : option D;
  Remove : bool }.

(** mgo.Change. *)
Record Change := mkChange {
  ChangeUpdate : D;
  Upsert : bool;
  ChangeRemove : bool;
  ReturnNew : bool }.

(** The contents of the store. *)
Record Store := mkStore {
  st_services : gmap string serviceDoc.t;
  st_units : gmap string unitDoc.t;
  st_relations : gmap string relationDoc.t }.

Definition getDoc (st : Store) (c : collection) (id : string) : option document :=
  match c with
  | services => ServiceDoc <$> st_services st !! id
  | units => UnitDoc <$> st_units st !! id
  | relations => RelationDoc <$> st_relations st !! id
  end.

(** Stores [doc] under [id]; a document of another collection's kind is
    not stored. *)
Definition putDoc (st : Store) (c : collection) (id : string) (doc : document) : Store :=
  match c, doc with
  | services, ServiceDoc d =>
      mkStore (<[id := d]> (st_services st)) (st_units st) (st_relations st)
  | units, UnitDoc d =>
      mkStore (st_services st) (<[id := d]> (st_units st)) (st_relations st)
  | relations, RelationDoc d =>
      mkStore (st_services st) (st_units st) (<[id := d]> (st_relations st))
  | _, _ => st
  end.

Definition deleteDoc (st : Store) (c : collection) (id : string) : Store :=
  match c with
  | services => mkStore (delete id (st_services st)) (st_units st) (st_relations st)
  | units => mkStore (st_services st) (delete id (st_units st)) (st_relations st)
  | relations => mkStore (st_services st) (st_units st) (delete id (st_relations st))
  end.

(** The value of the field with bson name [f]; the names are those of the
    struct fields in lower case, or the one of the bson tag. *)
Definition get_field (doc : document) (f : string) : option bson :=
  match doc with
  | ServiceDoc d =>
      if decide (f = "_id") then Some (BStr (serviceDoc.Name d))
      else if decide (f = "charmurl") then Some (BURL (serviceDoc.CharmURL d))
      else if decide (f = "forcecharm") then Some (BBool (serviceDoc.ForceCharm d))
      else if decide (f = "life") then Some (BLife (serviceDoc.Life d))
      else if decide (f = "unitseq") then Some (BInt (serviceDoc.UnitSeq d))
      else if decide (f = "unitcount") then Some (BInt (serviceDoc.UnitCount d))
      else if decide (f = "relationcount") then Some (BInt (serviceDoc.RelationCount d))
      else if decide (f = "exposed") then Some (BBool (serviceDoc.Exposed d))
      else if decide (f = "txn-revno") then Some (BInt (serviceDoc.TxnRevno d))
      else None
  | UnitDoc d =>
      if decide (f = "_id") then Some (BStr (unitDoc.Name d))
      else if decide (f = "service") then Some (BStr (unitDoc.Service d))
      else if decide (f = "principal") then Some (BStr (unitDoc.Principal d))
      else if decide (f = "subordinates") then Some (BStrs (unitDoc.Subordinates d))
      else if decide (f = "machineid") then Some (BStr (unitDoc.MachineId d))
      else if decide (f = "life") then Some (BLife (unitDoc.Life d))
      else None
  | RelationDoc d =>
      if decide (f = "_id") then Some (BStr (relationDoc.Key d))
      else if decide (f = "life") then Some (BLife (relationDoc.Life d))
      else None
  end.

(** Sets the field [f] to [v], for the fields service.go updates and for
    the machine of a unit; any other pair of field and value leaves the
    document as it is. *)
Definition set_field (doc : document) (f : string) (v : bson) : document :=
  match doc, v with
  | ServiceDoc d, BLife l =>
      if decide (f = "life") then ServiceDoc (serviceDoc.set_Life l d) else doc
  | ServiceDoc d, BBool b =>
      if decide (f = "exposed") then ServiceDoc (serviceDoc.set_Exposed b d)
      else if decide (f = "forcecharm") then ServiceDoc (serviceDoc.set_ForceCharm b d)
      else doc
  | ServiceDoc d, BURL u =>
      if decide (f = "charmurl") then ServiceDoc (serviceDoc.set_CharmURL u d) else doc
  | ServiceDoc d, BInt n =>
      if decide (f = "unitseq") then ServiceDoc (serviceDoc.set_UnitSeq n d)
      else if decide (f = "unitcount") then ServiceDoc (serviceDoc.set_UnitCount n d)
      else if decide (f = "relationcount") then ServiceDoc (serviceDoc.set_RelationCount n d)
      else doc
  | UnitDoc d, BLife l =>
      if decide (f = "life") then UnitDoc (unitDoc.set_Life l d) else doc
  | UnitDoc d, BStrs l =>
      if decide (f = "subordinates") then UnitDoc (unitDoc.set_Subordinates l d) else doc
  | UnitDoc d, BStr m =>
      if decide (f = "machineid") then UnitDoc (unitDoc.set_MachineId m d) else doc
  | RelationDoc d, BLife l =>
      if decide (f = "life") then RelationDoc (relationDoc.set_Life l d) else doc
  | _, _ => doc
  end.

(** Equality of two scalar values. *)
Definition scalar_eqb (v1 v2 : bson) : bool :=
  match v1, v2 with
  | BInt a, BInt b => bool_decide (a = b)
  | BBool a, BBool b => bool_decide (a = b)
  | BStr a, BStr b => bool_decide (a = b)
  | BLife a, BLife b => bool_decide (a = b)
  | BURL a, BURL b => bool_decide (a = b)
  | _, _ => false
  end.

(** A pattern ["^" + p] matches the strings that start with [p] (the
    names put in patterns contain no character special in them); another
    pattern matches nothing. *)
Definition regex_match (pattern : string) (s : string) : bool :=
  match bytes pattern with
  | c :: p =>
      if decide (c = "^"%char) then bool_decide (is_Some (strip_prefix p (bytes s)))
      else false
  | [] => false
  end.

(** One element [(f, cond)] of a query document holds of [doc]: equality
    with a scalar, [$gt] on a number, or [$not] of a pattern on a list of
    strings (no element matches it). *)
Definition holds1 (doc : document) (f : string) (cond : bson) : bool :=
  match cond with
  | BD [(op, BInt n)] =>
      if decide (op = "$gt") then
        match get_field doc f with
        | Some (BInt m) => bool_decide (n < m)
        | _ => false
        end
      else false
  | BD [(op, BRegEx pattern)] =>
      if decide (op = "$not") then
        match get_field doc f with
        | Some (BStrs l) => negb (existsb (regex_match pattern) l)
        | _ => false
        end
      else false
  | BD _ => false
  | v =>
      match get_field doc f with
      | Some w => scalar_eqb w v
      | None => false
      end
  end.

(** The query document [q] holds of [doc]. *)
Definition holds (doc : document) (q : D) : bool :=
  forallb (fun fv => holds1 doc fv.1 fv.2) q.

(** One modifier of an update document: [$set], [$inc], [$addToSet] or
    [$pull]. *)
Definition modify1 (doc : document) (modifier : string) (arg : bson) : document :=
  match arg with
  | BD fields =>
      if decide (modifier = "$set") then
        foldl (fun d fv => set_field d fv.1 fv.2) doc fields
      else if decide (modifier = "$inc") then
        foldl (fun d fv =>
                 match get_field d fv.1, fv.2 with
                 | Some (BInt n), BInt delta => set_field d fv.1 (BInt (n + delta))
                 | _, _ => d
                 end) doc fields
      else if decide (modifier = "$addToSet") then
        foldl (fun d fv =>
                 match get_field d fv.1, fv.2 with
                 | Some (BStrs l), BStr x =>
                     if bool_decide (x ∈ l) then d
                     else set_field d fv.1 (BStrs (l ++ [x]))
                 | _, _ => d
                 end) doc fields
      else if decide (modifier = "$pull") then
        foldl (fun d fv =>
                 match get_field d fv.1, fv.2 with
                 | Some (BStrs l), BStr x =>
                     set_field d fv.1 (BStrs (filter (fun y => y ≠ x) l))
                 | _, _ => d
                 end) doc fields
      else doc
  | _ => doc
  end.

(** The update document [u] applied to [doc]. *)
Definition modify (doc : document) (u : D) : document :=
  foldl (fun d mv => modify1 d mv.1 mv.2) doc u.

(** The transaction runner advances the revision of a document it
    changes. *)
Definition bump_revno (doc : document) : document :=
  match doc with
  | ServiceDoc d => ServiceDoc (serviceDoc.set_TxnRevno (serviceDoc.TxnRevno d + 1) d)
  | _ => doc
  end.

(** The assertion [a] holds of the document the operation is about, or of
    its absence. *)
Definition assert_holds (a : assertion) (doc : option document) : bool :=
  match a, doc with
  | NoAssert, _ => true
  | DocMissing, None => true
  | DocMissing, Some _ => false
  | DocExists, Some _ => true
  | DocExists, None => false
  | AssertD q, Some doc => holds doc q
  | AssertD q, None => false
  end.

(** The assertion of [o] holds in [st]. *)
Definition op_holds (st : Store) (o : Op) : bool :=
  assert_holds (Assert o) (getDoc st (C o) (Id o)).

(** The change of [o] applied to [st]. The transaction goes on when a
    document to insert exists already, and when one to update or remove
    does not. *)
Definition op_apply (st : Store) (o : Op) : Store :=
  if Remove o then deleteDoc st (C o) (Id o)
  else
    match Insert o, Update o with
    | Some doc, _ =>
        match getDoc st (C o) (Id o) with
        | Some _ => st
        | None => putDoc st (C o) (Id o) doc
        end
    | None, Some u =>
        match getDoc st (C o) (Id o) with
        | Some doc => putDoc st (C o) (Id o) (bump_revno (modify doc u))
        | None => st
        end
    | None, None => st
    end.

(** The assertions of all the operations are tested before any change
    takes place. *)
Definition txn_holds (st : Store) (ops : list Op) : bool :=
  forallb (op_holds st) ops.

Definition txn_apply (st : Store) (ops : list Op) : Store :=
  foldl op_apply st ops.

(** ** The world an operation runs in

    Other writers work on the store at the same time, and the driver can
    fail. What happens at the successive accesses an operation makes to the
    store is given by a script: at each access the next entry is consumed,
    the other writers' change is applied first and the access then sees the
    store changed, or the access fails. With the script used up, the
    operation is alone and the store does not fail. *)

Inductive Env :=
| Interfere (change : Store -> Store)
| Fault (msg : string).

(** The accesses made to the store, for the record. *)
Inductive Event :=
| EvRun (ops : list Op) (outcome : option error)
| EvApply (c : collection) (id : string) (change : Change) (outcome : option error)
| EvRead (c : collection) (outcome : option error).

Record World := mkWorld {
  store : Store;
  charms : gmap string Charm.t;
  script : list Env;
  log : list Event }.

Definition set_store (st : Store) (w : World) : World :=
  mkWorld st (charms w) (script w) (log w).

Definition record (ev : Event) (w : World) : World :=
  mkWorld (store w) (charms w) (script w) (log w ++ [ev]).

(** The start of an access to the store: the next entry of the script. *)
Definition arrive (w : World) : option error * World :=
  match script w with
  | [] => (None, w)
  | Interfere change :: rest =>
      (None, mkWorld (change (store w)) (charms w) rest (log w))
  | Fault msg :: rest =>
      (Some (ErrStore msg), mkWorld (store w) (charms w) rest (log w))
  end.

(** runner.Run(ops, "", nil): the operations are applied together, or the
    transaction is aborted when an assertion fails. *)
Definition Run (ops : list Op) (w : World) : option error * World :=
  match arrive w with
  | (Some e, w1) => (Some e, record (EvRun ops (Some e)) w1)
  | (None, w1) =>
      if txn_holds (store w1) ops
      then (None, record (EvRun ops None) (set_store (txn_apply (store w1) ops) w1))
      else (Some ErrAborted, record (EvRun ops (Some ErrAborted)) w1)
  end.

(** Collection.Find(D{{"_id", id}}).Apply(change, &result): the document is
    changed and returned in one step of the store, as it was before the
    change, or as it is after it when ReturnNew is set. With Upsert unset a
    missing document is ErrNotFound; with Remove set the document is
    removed and returned. *)
Definition Apply (c : collection) (id : string) (change : Change) (w : World)
  : (document + error) * World :=
  match arrive w with
  | (Some e, w1) => (inr e, record (EvApply c id change (Some e)) w1)
  | (None, w1) =>
      match getDoc (store w1) c id with
      | None => (inr ErrNotFound, record (EvApply c id change (Some ErrNotFound)) w1)
      | Some old =>
          if ChangeRemove change then
            (inl old, record (EvApply c id change None)
                        (set_store (deleteDoc (store w1) c id) w1))
          else
            let new := modify old (ChangeUpdate change) in
            (inl (if ReturnNew change then new else old),
             record (EvApply c id change None)
               (set_store (putDoc (store w1) c id new) w1))
      end
  end.

(** Collection.FindId(id).One(&doc). *)
Definition FindId_One (c : collection) (id : string) (w : World)
  : (document + error) * World :=
  match arrive w with
  | (Some e, w1) => (inr e, record (EvRead c (Some e)) w1)
  | (None, w1) =>
      match getDoc (store w1) c id with
      | None => (inr ErrNotFound, record (EvRead c (Some ErrNotFound)) w1)
      | Some doc => (inl doc, record (EvRead c None) w1)
      end
  end.

(** Collection.FindId(id).Count(). *)
Definition FindId_Count (c : collection) (id : string) (w : World)
  : (Z + error) * World :=
  match arrive w with
  | (Some e, w1) => (inr e, record (EvRead c (Some e)) w1)
  | (None, w1) =>
      (inl (match getDoc (store w1) c id with Some _ => 1 | None => 0 end),
       record (EvRead c None) w1)
  end.

(** ** The entities

    An entity is its cached document; its [st] field is the world, which
    every operation takes and returns. An operation with a pointer receiver
    returns the entity as the call leaves it. *)

Abbreviation Service := serviceDoc.t.
Abbreviation Unit := unitDoc.t.
Abbreviation Relation := relationDoc.t.

(** Modelled from the spec: isAlive (a variable of package state, declared
    in a file that is not at hand): the assertion that the Life of a document is Alive. *)
Definition isAlive : D := [("life", BLife Alive)].

(** Modelled from the spec: State.Charm (state.go is not at hand):
    resolveCharm(url), the charm with the URL, from the charm subsystem. *)
Definition State_Charm (w : World) (curl : option charm_URL) : Charm.t + error :=
  match curl with
  | None => inr ErrNotFound
  | Some u =>
      match charms w !! u with
      | Some ch => inl ch
      | None => inr ErrNotFound
      end
  end.

(** Modelled from the spec: getAlive (a helper of package state, declared
    in a file that is not at hand): the re-check of the liveness of a document, whether it is
    in the store and Alive. *)
Definition getAlive (c : collection) (id : string) (w : World)
  : (bool * option error) * World :=
  match arrive w with
  | (Some e, w1) => ((false, Some e), record (EvRead c (Some e)) w1)
  | (None, w1) =>
      ((match getDoc (store w1) c id with
        | Some doc => holds doc isAlive
        | None => false
        end, None), record (EvRead c None) w1)
  end.

(** Modelled from the spec: ensureDead (a helper of package state, declared
    in a file that is not at hand), given the collection, the identifier and the
    assertion of no dependents: one transaction of the assertions and the
    change of Life to Dead; an abort is the failure [assertMsg], returned
    and not retried; errors carry the identity of the entity. *)
Definition ensureDead (c : collection) (id : string) (desc : string)
    (assertOps : list Op) (assertMsg : string) (w : World) : option error * World :=
  let ops := assertOps ++
    [mkOp c id NoAssert None (Some [("$set", BD [("life", BLife Dead)])]) false] in
  match Run ops w with
  | (None, w1) => (None, w1)
  | (Some ErrAborted, w1) => (Some (Context desc [OStr id] (Errorf assertMsg [])), w1)
  | (Some e, w1) => (Some (Context desc [OStr id] e), w1)
  end.

(** The operations of a transaction that assert and change nothing. *)
Definition assert_ops (asserts : list (collection * string * assertion)) : list Op :=
  (fun a => mkOp a.1.1 a.1.2 a.2 None None false) <$> asserts.

(** Modelled from the spec: the operation of a transaction by which an
    operation of an entity of any kind advances its Life (the operations
    of units and of relations are in unit.go and relation.go, which are not
    at hand): it asserts the Life the entity has as a precondition and sets
    the new one as the effect. *)
Definition advance_op (c : collection) (id : string) (l l' : Life) : Op :=
  mkOp c id (AssertD [("life", BLife l)]) None (Some [("$set", BD [("life", BLife l')])])
       false.

(** Modelled from the spec: Unit.IsPrincipal (unit.go is not at hand):
    the principal reference of a unit is non-empty exactly when the unit is
    a subordinate. *)
Definition IsPrincipal (u : Unit) : bool :=
  bool_decide (unitDoc.Principal u = "").

(** Modelled from the spec: Unit.UnassignFromMachine (unit.go is not at
    hand): the unassignment of a unit from its machine, which RemoveUnit
    waits for. It clears the assigned-machine reference of the unit, in the
    store by one transaction on the document of the unit, and then in the
    cache; an error carries the identity of the unit. *)
Definition Unit_UnassignFromMachine (u : Unit) (w : World)
  : option error * Unit * World :=
  let ops :=
    [mkOp units (unitDoc.Name u) DocExists None
       (Some [("$set", BD [("machineid", BStr "")])]) false] in
  match Run ops w with
  | (Some err, w1) =>
      (ErrorContextf (Some err) "cannot unassign unit %q from machine"
         [OStr (unitDoc.Name u)], u, w1)
  | (None, w1) => (None, unitDoc.set_MachineId "" u, w1)
  end.

(** strconv.Itoa. *)
Definition Itoa (n : Z) : string := pretty n.

Section Service.

(** IsUnitName, the grammar of unit names, is declared in a file that is
    not at hand. *)
Variable IsUnitName : string -> bool.

(** Unit.UnassignFromMachine, an operation of the unit entity declared in
    unit.go, which is not at hand. *)
Variable UnassignFromMachine : Unit -> World -> option error * Unit * World.

(** The order in which [range] visits the entries of a map of relations of
    a charm. *)
Variable range : gmap string charm.Relation -> list (string * charm.Relation).

Definition Name (s : Service) : string := serviceDoc.Name s.

Definition globalKey (s : Service) : string := "s#" +:+ serviceDoc.Name s.

Definition Service_Life (s : Service) : Life := serviceDoc.Life s.

Definition Relation_Life (r : Relation) : Life := relationDoc.Life r.

(** Refresh. *)
Definition Refresh (s : Service) (w : World) : option error * Service * World :=
  match FindId_One services (serviceDoc.Name s) w with
  | (inl (ServiceDoc d), w1) => (None, d, w1)
  | (inl _, w1) => (None, s, w1)
  | (inr ErrNotFound, w1) =>
      (Some (NotFoundError "service %q" [OStr (Name s)]), s, w1)
  | (inr err, w1) =>
      (Some (Wrapf "cannot refresh service %q: %v" [OStr (Name s)] (Some err)), s, w1)
  end.

(** [s] is the service of one of the endpoints of the relation. *)
Definition in_relation (name : string) (d : relationDoc.t) : bool :=
  existsb (fun ep => bool_decide (Endpoint.ServiceName ep = name))
          (relationDoc.Endpoints d).

(** The documents found by
    relations.Find(D{{"endpoints.servicename", name}}). *)
Definition relations_of (name : string) (st : Store) : list relationDoc.t :=
  filter (fun d => in_relation name d = true)
         (map snd (map_to_list (st_relations st))).

(** Relations. *)
Definition Relations (s : Service) (w : World) : (list Relation + error) * World :=
  match arrive w with
  | (Some e, w1) =>
      (inr (Context "can't get relations for service %q" [OStr (Name s)] e),
       record (EvRead relations (Some e)) w1)
  | (None, w1) =>
      let docs := relations_of (serviceDoc.Name s) (store w1) in
      (inl (foldl (fun relations v => relations ++ [v]) [] docs),
       record (EvRead relations None) w1)
  end.

(** The operations EnsureDying submits for the relations [rels] read. *)
Definition EnsureDying_ops (s : Service) (rels : list Relation) : list Op :=
  let ops :=
    [mkOp services (serviceDoc.Name s)
       (AssertD [("life", BLife Alive); ("txn-revno", BInt (serviceDoc.TxnRevno s))])
       None (Some [("$set", BD [("life", BLife Dying)])]) false] in
  foldl (fun ops rel =>
           if decide (Relation_Life rel = Alive) then
             ops ++ [mkOp relations (relationDoc.Key rel) (AssertD isAlive)
                       None (Some [("$set", BD [("life", BLife Dying)])]) false]
           else ops) ops rels.

(** EnsureDying. The loop has no bound in the source; [fuel] bounds the
    number of rounds here, and [None] is the run that needs more. *)
Fixpoint EnsureDying (fuel : nat) (s : Service) (w : World)
  : option (option error) * Service * World :=
  if decide (serviceDoc.Life s = Alive) then
    match fuel with
    | O => (None, s, w)
    | S fuel' =>
        match Relations s w with
        | (inr err, w1) => (Some (Some err), s, w1)
        | (inl rels, w1) =>
            if decide (Z.of_nat (length rels) ≠ serviceDoc.RelationCount s) then
              match Refresh s w1 with
              | (Some err, s1, w2) => (Some (Some err), s1, w2)
              | (None, s1, w2) => EnsureDying fuel' s1 w2
              end
            else
              match Run (EnsureDying_ops s rels) w1 with
              | (Some ErrAborted, w2) =>
                  match Refresh s w2 with
                  | (Some err, s1, w3) => (Some (Some err), s1, w3)
                  | (None, s1, w3) => EnsureDying fuel' s1 w3
                  end
              | (Some err, w2) => (Some (Some err), s, w2)
              | (None, w2) => EnsureDying fuel' (serviceDoc.set_Life Dying s) w2
              end
        end
    end
  else (Some None, s, w).

(** EnsureDead, for the helper [helper] it hands the transition to. *)
Definition EnsureDead_with
    (helper : collection -> string -> string -> list Op -> string -> World
              -> option error * World)
    (s : Service) (w : World) : option error * Service * World :=
  let assertOps :=
    [mkOp services (serviceDoc.Name s)
       (AssertD [("unitcount", BInt 0); ("relationcount", BInt 0)])
       None None false] in
  match helper services (serviceDoc.Name s) "service" assertOps
          "service still has units and/or relations" w with
  | (Some err, w1) => (Some err, s, w1)
  | (None, w1) => (None, serviceDoc.set_Life Dead s, w1)
  end.

(** EnsureDead. *)
Definition EnsureDead (s : Service) (w : World) : option error * Service * World :=
  EnsureDead_with ensureDead s w.

Definition IsExposed (s : Service) : bool := serviceDoc.Exposed s.

(** setExposed. *)
Definition setExposed (exposed : bool) (s : Service) (w : World)
  : option error * Service * World :=
  let ops :=
    [mkOp services (serviceDoc.Name s) (AssertD isAlive)
       None (Some [("$set", BD [("exposed", BBool exposed)])]) false] in
  match Run ops w with
  | (Some err, w1) =>
      (Some (Wrapf "cannot set exposed flag for service %q to %v: %v"
               [OStr (Name s); OBool exposed] (onAbort (Some err) (Some errNotAlive))),
       s, w1)
  | (None, w1) => (None, serviceDoc.set_Exposed exposed s, w1)
  end.

Definition SetExposed (s : Service) (w : World) := setExposed true s w.

Definition ClearExposed (s : Service) (w : World) := setExposed false s w.

(** Charm. *)
Definition Service_Charm (s : Service) (w : World) : (Charm.t * bool) + error :=
  match State_Charm w (serviceDoc.CharmURL s) with
  | inr err => inr err
  | inl ch => inl (ch, serviceDoc.ForceCharm s)
  end.

Definition CharmURL (s : Service) : option charm_URL * bool :=
  (serviceDoc.CharmURL s, serviceDoc.ForceCharm s).

(** The endpoint Endpoints makes of the entry [nr] of a map of relations
    of the charm, with its name [nr.1] and its relation [nr.2]. *)
Definition endpoint_of (s : Service) (role : RelationRole)
    (nr : string * charm.Relation) : Endpoint.t :=
  Endpoint.mk (serviceDoc.Name s) (charm.Interface nr.2) nr.1 role (charm.Scope nr.2).

(** The function [collect] of Endpoints, appending to [eps]. *)
Definition collect (s : Service) (eps : list Endpoint.t) (role : RelationRole)
    (rels : gmap string charm.Relation) : list Endpoint.t :=
  foldl (fun eps nr => eps ++ [endpoint_of s role nr]) eps (range rels).

(** Endpoints. *)
Definition Endpoints (s : Service) (w : World) : list Endpoint.t + error :=
  match Service_Charm s w with
  | inr err => inr err
  | inl (ch, _) =>
      let meta := Charm.Meta ch in
      let eps := collect s [] RolePeer (charm.Peers meta) in
      let eps := collect s eps RoleProvider (charm.Provides meta) in
      let eps := collect s eps RoleRequirer (charm.Requires meta) in
      let eps := collect s eps RoleProvider
                   {[ "juju-info" := charm.mkRelation "juju-info" ScopeGlobal ]} in
      inl eps
  end.

(** Endpoint. *)
Definition Service_Endpoint (s : Service) (relationName : string) (w : World)
  : Endpoint.t + error :=
  match Endpoints s w with
  | inr err => inr err
  | inl eps =>
      match find (fun ep => bool_decide (Endpoint.RelationName ep = relationName)) eps with
      | Some ep => inl ep
      | None => inr (Errorf "service %q has no %q relation" [OStr (Name s); OStr relationName])
      end
  end.

(** SetCharm. *)
Definition SetCharm (ch : Charm.t) (force : bool) (s : Service) (w : World)
  : option error * Service * World :=
  let ops :=
    [mkOp services (serviceDoc.Name s) (AssertD isAlive) None
       (Some [("$set", BD [("charmurl", BURL (Some (Charm.URL ch)));
                           ("forcecharm", BBool force)])]) false] in
  match Run ops w with
  | (Some err, w1) =>
      (Some (Wrapf "cannot set charm for service %q: %v" [OStr (Name s)]
               (onAbort (Some err) (Some errNotAlive))), s, w1)
  | (None, w1) =>
      (None, serviceDoc.set_ForceCharm force
               (serviceDoc.set_CharmURL (Some (Charm.URL ch)) s), w1)
  end.

(** newUnitName. The Change has its Update only: ReturnNew is the zero
    value of its type. *)
Definition newUnitName (s : Service) (w : World) : (string + error) * World :=
  let change := mkChange [("$inc", BD [("unitseq", BInt 1)])] false false false in
  match Apply services (serviceDoc.Name s) change w with
  | (inr err, w1) =>
      (inr (Wrapf "cannot increment unit sequence: %v" [] (Some err)), w1)
  | (inl (ServiceDoc result), w1) =>
      (inl (serviceDoc.Name s +:+ "/" +:+ Itoa (serviceDoc.UnitSeq result)), w1)
  | (inl _, w1) =>
      (inl (serviceDoc.Name s +:+ "/" +:+ Itoa 0), w1)
  end.

(** addUnitOps. *)
Definition addUnitOps (principalName : string) (strictSubordinates : bool)
    (s : Service) (w : World) : ((string * list Op) + error) * World :=
  match Service_Charm s w with
  | inr err => (inr err, w)
  | inl (ch, _) =>
      let subordinate := charm.Subordinate (Charm.Meta ch) in
      if subordinate && bool_decide (principalName = "") then
        (inr (Errorf "service is subordinate" []), w)
      else if negb subordinate && bool_decide (principalName ≠ "") then
        (inr (Errorf "service is not a subordinate" []), w)
      else
        match newUnitName s w with
        | (inr err, w1) => (inr err, w1)
        | (inl name, w1) =>
            let udoc :=
              unitDoc.mk name (serviceDoc.Name s) principalName [] "" Alive UnitPending in
            let ops :=
              [mkOp units name DocMissing (Some (UnitDoc udoc)) None false;
               mkOp services (serviceDoc.Name s) (AssertD isAlive) None
                 (Some [("$inc", BD [("unitcount", BInt 1)])]) false] in
            let ops :=
              if bool_decide (principalName ≠ "") then
                let assert := isAlive in
                let assert :=
                  if strictSubordinates then
                    assert ++ [("subordinates",
                                BD [("$not", BRegEx ("^" +:+ serviceDoc.Name s +:+ "/"))])]
                  else assert in
                ops ++ [mkOp units principalName (AssertD assert) None
                          (Some [("$addToSet", BD [("subordinates", BStr name)])]) false]
              else ops in
            (inl (name, ops), w1)
        end
  end.

(** Unit. *)
Definition Service_Unit (s : Service) (name : string) (w : World)
  : (Unit + error) * World :=
  if negb (IsUnitName name) then
    (inr (Errorf "%q is not a valid unit name" [OStr name]), w)
  else
    let wrap err :=
      Wrapf "cannot get unit %q from service %q: %v"
        [OStr name; OStr (serviceDoc.Name s)] (Some err) in
    match arrive w with
    | (Some e, w1) => (inr (wrap e), record (EvRead units (Some e)) w1)
    | (None, w1) =>
        match st_units (store w1) !! name with
        | Some udoc =>
            if bool_decide (unitDoc.Service udoc = serviceDoc.Name s)
            then (inl udoc, record (EvRead units None) w1)
            else (inr (wrap ErrNotFound), record (EvRead units (Some ErrNotFound)) w1)
        | None => (inr (wrap ErrNotFound), record (EvRead units (Some ErrNotFound)) w1)
        end
    end.

(** AddUnit. *)
Definition AddUnit (s : Service) (w : World) : (Unit + error) * World :=
  let context err :=
    Context "cannot add unit to service %q" [OStr (Name s)] err in
  match addUnitOps "" false s w with
  | (inr err, w1) => (inr (context err), w1)
  | (inl (name, ops), w1) =>
      match Run ops w1 with
      | (Some ErrAborted, w2) =>
          match getAlive services (serviceDoc.Name s) w2 with
          | ((_, Some err), w3) => (inr (context err), w3)
          | ((alive, None), w3) =>
              if negb alive then (inr (context (Errorf "service is not alive" [])), w3)
              else (inr (context (Errorf "inconsistent state" [])), w3)
          end
      | (Some err, w2) => (inr (context err), w2)
      | (None, w2) =>
          match Service_Unit s name w2 with
          | (inr err, w3) => (inr (context err), w3)
          | (inl unit, w3) => (inl unit, w3)
          end
      end
  end.

(** AddUnitSubordinateTo. *)
Definition AddUnitSubordinateTo (principal : Unit) (s : Service) (w : World)
  : (Unit + error) * World :=
  let context err :=
    Context "cannot add unit to service %q as a subordinate of %q"
      [OStr (Name s); OStr (unitDoc.Name principal)] err in
  match Service_Charm s w with
  | inr err => (inr (context err), w)
  | inl (ch, _) =>
      if negb (charm.Subordinate (Charm.Meta ch)) then
        (inr (context (Errorf "service is not a subordinate" [])), w)
      else if negb (IsPrincipal principal) then
        (inr (context (Errorf "unit is not a principal" [])), w)
      else
        match addUnitOps (unitDoc.Name principal) false s w with
        | (inr err, w1) => (inr (context err), w1)
        | (inl (name, ops), w1) =>
            match Run ops w1 with
            | (None, w2) =>
                match Service_Unit s name w2 with
                | (inr err, w3) => (inr (context err), w3)
                | (inl unit, w3) => (inl unit, w3)
                end
            | (Some ErrAborted, w2) =>
                match getAlive services (serviceDoc.Name s) w2 with
                | ((_, Some err), w3) => (inr (context err), w3)
                | ((alive, None), w3) =>
                    if negb alive then
                      (inr (context (Errorf "service is not alive" [])), w3)
                    else
                      match getAlive units (unitDoc.Name principal) w3 with
                      | ((_, Some err), w4) => (inr (context err), w4)
                      | ((alive, None), w4) =>
                          if negb alive then
                            (inr (context (Errorf "principal unit is not alive" [])), w4)
                          else (inr (context (Errorf "inconsistent state" [])), w4)
                      end
                end
            | (Some err, w2) => (inr (context err), w2)
            end
        end
  end.

(** The operations RemoveUnit submits for the unit [u]. *)
Definition RemoveUnit_ops (u : Unit) (s : Service) : list Op :=
  let ops :=
    [mkOp units (unitDoc.Name u) (AssertD [("life", BLife Dead)]) None None true;
     mkOp services (serviceDoc.Name s) (AssertD [("unitcount", BD [("$gt", BInt 0)])])
       None (Some [("$inc", BD [("unitcount", BInt (-1))])]) false] in
  if bool_decide (unitDoc.Principal u ≠ "") then
    ops ++ [mkOp units (unitDoc.Principal u) DocExists None
              (Some [("$pull", BD [("subordinates", BStr (unitDoc.Name u))])]) false]
  else ops.

(** RemoveUnit, from the submission of the transaction on. *)
Definition RemoveUnit_run (u : Unit) (s : Service) (w : World) : option error * World :=
  match Run (RemoveUnit_ops u s) w with
  | (Some err, w1) =>
      match FindId_Count units (unitDoc.Name u) w1 with
      | (inr err', w2) => (Some err', w2)
      | (inl c, w2) =>
          if bool_decide (0 < c) then
            (Some (Errorf "cannot remove unit; something smells bad" []), w2)
          else (onAbort (Some err) None, w2)
      end
  | (None, w1) => (None, w1)
  end.

(** RemoveUnit. The deferred ErrorContextf formats the unit as it is when
    the call returns. *)
Definition RemoveUnit (u : Unit) (s : Service) (w : World)
  : option error * Unit * World :=
  let context (u : Unit) err :=
    ErrorContextf err "cannot remove unit %q" [OStr (unitDoc.Name u)] in
  if bool_decide (unitDoc.Life u ≠ Dead) then
    (context u (Some (Errorf "unit is not dead" [])), u, w)
  else if bool_decide (unitDoc.Service u ≠ serviceDoc.Name s) then
    (context u (Some (Errorf "unit is not assigned to service %q" [OStr (Name s)])), u, w)
  else
    let '(err, u1, w1) :=
      if bool_decide (unitDoc.MachineId u ≠ "") then UnassignFromMachine u w
      else (None, u, w) in
    match err with
    | Some e => (context u1 (Some e), u1, w1)
    | None =>
        let '(err, w2) := RemoveUnit_run u1 s w1 in
        (context u1 err, u1, w2)
    end.

(** AllUnits. *)
Definition AllUnits (s : Service) (w : World) : (list Unit + error) * World :=
  match arrive w with
  | (Some e, w1) =>
      (inr (Wrapf "cannot get all units from service %q: %v" [OStr (Name s)] (Some e)),
       record (EvRead units (Some e)) w1)
  | (None, w1) =>
      let docs := filter (fun d => unitDoc.Service d = serviceDoc.Name s)
                    (map snd (map_to_list (st_units (store w1)))) in
      (inl (foldl (fun units d => units ++ [d]) [] docs), record (EvRead units None) w1)
  end.

(** The operations of the service that write to the store or to the cached
    document. *)
Inductive operation :=
| OpRefresh
| OpEnsureDying (fuel : nat)
| OpEnsureDead
| OpSetExposed
| OpClearExposed
| OpSetCharm (ch : Charm.t) (force : bool)
| OpAddUnit
| OpAddUnitSubordinateTo (principal : Unit)
| OpRemoveUnit (u : Unit).

(** The service and the world as the operation leaves them. *)
Definition perform (o : operation) (s : Service) (w : World) : Service * World :=
  match o with
  | OpRefresh => let '(_, s', w') := Refresh s w in (s', w')
  | OpEnsureDying fuel => let '(_, s', w') := EnsureDying fuel s w in (s', w')
  | OpEnsureDead => let '(_, s', w') := EnsureDead s w in (s', w')
  | OpSetExposed => let '(_, s', w') := SetExposed s w in (s', w')
  | OpClearExposed => let '(_, s', w') := ClearExposed s w in (s', w')
  | OpSetCharm ch force => let '(_, s', w') := SetCharm ch force s w in (s', w')
  | OpAddUnit => (s, (AddUnit s w).2)
  | OpAddUnitSubordinateTo principal => (s, (AddUnitSubordinateTo principal s w).2)
  | OpRemoveUnit u => (s, (RemoveUnit u s w).2)
  end.

(** The operations [os] performed one after the other on the service. *)
Fixpoint run (os : list operation) (s : Service) (w : World) : Service * World :=
  match os with
  | [] => (s, w)
  | o :: os' => let '(s1, w1) := perform o s w in run os' s1 w1
  end.

End Service.

(** ** Life in the store *)

(** The Life of a document. *)
Definition doc_Life (doc : document) : Life :=
  match doc with
  | ServiceDoc d => serviceDoc.Life d
  | UnitDoc d => unitDoc.Life d
  | RelationDoc d => relationDoc.Life d
  end.

(** From [st] to [st'] no document has gone back along Alive, Dying, Dead:
    a document that is in both has in [st'] the Life it has in [st] or a
    later one. *)
Definition life_forward (st st' : Store) : Prop :=
  forall c id doc doc',
    getDoc st c id = Some doc -> getDoc st' c id = Some doc' ->
    Life_le (doc_Life doc) (doc_Life doc').

(** [life_forward], between stores with the same documents. *)
Definition life_kept (st st' : Store) : Prop :=
  life_forward st st' /\
  forall c id, getDoc st c id = None <-> getDoc st' c id = None.

(** The identifier a document carries. *)
Definition doc_id (doc : document) : string :=
  match doc with
  | ServiceDoc d => serviceDoc.Name d
  | UnitDoc d => unitDoc.Name d
  | RelationDoc d => relationDoc.Key d
  end.

(** From [st] to [st'] no document of a service or of a relation has come
    or gone, and each carries the identifier it carried. *)
Definition ids_kept (st st' : Store) : Prop :=
  forall c id, c <> units ->
    match getDoc st c id, getDoc st' c id with
    | None, None => True
    | Some doc, Some doc' => doc_id doc' = doc_id doc
    | _, _ => False
    end.

(** What a write of this layer does to the store: units come and go, the
    documents of the services and of the relations stay, and no document
    that is there before and after has gone back along Alive, Dying,
    Dead. *)
Definition layer_write (st st' : Store) : Prop :=
  life_forward st st' /\ ids_kept st st'.

(** What any number of such writes do to the services and to the
    relations: their documents have stayed, and the Life of each is the one
    it was or a later one. *)
Definition stays (st st' : Store) : Prop :=
  ids_kept st st' /\
  forall c id doc doc',
    c <> units ->
    getDoc st c id = Some doc -> getDoc st' c id = Some doc' ->
    Life_le (doc_Life doc) (doc_Life doc').

(** The other writers of the script write as this layer does. *)
Definition layer_env (sc : list Env) : Prop :=
  Forall (fun e => match e with
                   | Interfere change => forall st, layer_write st (change st)
                   | Fault _ => True
                   end) sc.

(** The world [w'] is reached from the world [w] by accesses to the store.
    At each access the other writers have their turn first, which is the
    next entry of the script, whatever it is; the access itself then
    leaves the store as it is or makes a write of this layer, adds one
    event to the log, and changes nothing else of the world. *)
Inductive layer_run : World -> World -> Prop :=
| layer_run_refl w : layer_run w w
| layer_run_access w r w1 w2 ev w3 :
    arrive w = (r, w1) ->
    layer_write (store w1) (store w2) ->
    script w2 = script w1 ->
    charms w2 = charms w1 ->
    log w2 = log w1 ++ [ev] ->
    layer_run w2 w3 ->
    layer_run w w3.

(** An operation of a transaction that neither inserts nor removes a
    document of a service or of a relation. *)
Definition op_keeps (o : Op) : Prop :=
  C o = units \/ (Remove o = false /\ Insert o = None).

(** The cached document of the service is not ahead of the stored one: a
    document stored under its name carries that name and the cached Life
    or a later one. *)
Definition cache_ok (s : Service) (st : Store) : Prop :=
  forall d, st_services st !! serviceDoc.Name s = Some d ->
            serviceDoc.Name d = serviceDoc.Name s /\
            Life_le (serviceDoc.Life s) (serviceDoc.Life d).

(** The documents of the store are under their own identifiers. *)
Definition store_ok (st : Store) : Prop :=
  map_Forall (fun id d => serviceDoc.Name d = id) (st_services st) /\
  map_Forall (fun id d => unitDoc.Name d = id) (st_units st) /\
  map_Forall (fun id d => relationDoc.Key d = id) (st_relations st).

(** The operation on the service that asserts that it is Alive with the
    revision [revno], and sets its Life to Dying. *)
Definition service_dying_op (name : string) (revno : Z) : Op :=
  mkOp services name (AssertD [("life", BLife Alive); ("txn-revno", BInt revno)])
       None (Some [("$set", BD [("life", BLife Dying)])]) false.

(** The operation on the relation that asserts that it is Alive, and sets
    its Life to Dying. *)
Definition relation_dying_op (key : string) : Op :=
  mkOp relations key (AssertD [("life", BLife Alive)])
       None (Some [("$set", BD [("life", BLife Dying)])]) false.

(** The relations among [rels] whose cached Life is Alive. *)
Definition alive_relations (rels : list relationDoc.t) : list relationDoc.t :=
  filter (fun r => relationDoc.Life r = Alive) rels.

(** An operation of a transaction that cannot take the document it is
    about back: when its assertion holds of a document [doc0], it inserts
    nothing, and its update of a document that is at [doc0] or further
    leaves it there. *)
Definition op_guarded (o : Op) : Prop :=
  forall doc0,
    assert_holds (Assert o) (Some doc0) = true ->
    Insert o = None /\
    forall u doc,
      Update o = Some u ->
      Life_le (doc_Life doc0) (doc_Life doc) ->
      Life_le (doc_Life doc0) (doc_Life (bump_revno (modify doc u))).

(** An operation that only updates. *)
Definition op_updates (o : Op) : Prop :=
  Remove o = false /\ Insert o = None.

(** The stored units of the service [name]. *)
Definition units_of (name : string) (st : Store) : list unitDoc.t :=
  filter (fun d => unitDoc.Service d = name) (map snd (map_to_list (st_units st))).

(** The unit count of every stored service is the number of stored units
    of the service. *)
Definition unit_count_ok (st : Store) : Prop :=
  forall name d,
    st_services st !! name = Some d ->
    serviceDoc.UnitCount d = Z.of_nat (length (units_of name st)).

End state.

(** ** The scenario of the specification

    The service wordpress, Alive, without units and with one Alive relation
    to mysql. *)

Module scenario.
Import state.

Definition wordpress : Service :=
  serviceDoc.mk "wordpress" (Some "cs:wordpress") false Alive 0 0 1 false 0.

Definition mysql : Service :=
  serviceDoc.mk "mysql" (Some "cs:mysql") false Alive 0 0 1 false 0.

Definition db : Relation :=
  relationDoc.mk "wordpress:db mysql:server"
    [Endpoint.mk "wordpress" "mysql" "db" RoleRequirer ScopeGlobal;
     Endpoint.mk "mysql" "mysql" "server" RoleProvider ScopeGlobal]
    Alive.

Definition wordpress_charm : Charm.t :=
  Charm.mk "cs:wordpress"
    (charm.mkMeta ∅ {[ "url" := charm.mkRelation "http" ScopeGlobal ]}
       {[ "db" := charm.mkRelation "mysql" ScopeGlobal ]} false).

Definition logging_charm : Charm.t :=
  Charm.mk "cs:logging"
    (charm.mkMeta ∅ ∅ {[ "info" := charm.mkRelation "juju-info" ScopeContainer ]} true).

Definition logging : Service :=
  serviceDoc.mk "logging" (Some "cs:logging") false Alive 0 0 0 false 0.

Definition store0 : Store :=
  mkStore {[ "wordpress" := wordpress; "mysql" := mysql; "logging" := logging ]}
          ∅
          {[ "wordpress:db mysql:server" := db ]}.

Definition world0 : World :=
  mkWorld store0
          {[ "cs:wordpress" := wordpress_charm; "cs:logging" := logging_charm ]}
          [] [].

(** A unit of wordpress that is Dead, and one that is not. *)
Definition dead_unit : Unit :=
  unitDoc.mk "wordpress/0" "wordpress" "" [] "" Dead UnitPending.

Definition live_unit : Unit :=
  unitDoc.mk "wordpress/1" "wordpress" "" [] "" Alive UnitPending.

(** A unit operation that leaves the unit and the world as they are, in
    the place of UnassignFromMachine for units without a machine. *)
Definition no_machine (u : Unit) (w : World) : option error * Unit * World :=
  (None, u, w).

(** A grammar of unit names that accepts every name. *)
Definition any_name (name : string) : bool := true.

(** Variables of a process. *)
Definition env1 : gmap string string := {[ "PATH" := "/bin:/usr/bin"; "HOME" := "" ]}.

(** Entries of an environment, with blanks around one and without '=' in
    another, and the variables they give. *)
Definition raw2 : list string := ["  A=1  "; "B"].

Definition env2 : gmap string string := {[ "A" := "1"; "B" := "" ]}.

(** The scenario once wordpress has the unit wordpress/0, which is Dead. *)
Definition wordpress1 : Service :=
  serviceDoc.mk "wordpress" (Some "cs:wordpress") false Alive 1 1 1 false 0.

Definition store1 : Store :=
  mkStore {[ "wordpress" := wordpress1; "mysql" := mysql; "logging" := logging ]}
          {[ "wordpress/0" := dead_unit ]}
          {[ "wordpress:db mysql:server" := db ]}.

Definition world1 : World :=
  mkWorld store1
          {[ "cs:wordpress" := wordpress_charm; "cs:logging" := logging_charm ]}
          [] [].

(** The scenario once wordpress is Dying. *)
Definition wordpress_dying : Service := serviceDoc.set_Life Dying wordpress.

Definition store2 : Store :=
  mkStore {[ "wordpress" := wordpress_dying; "mysql" := mysql; "logging" := logging ]}
          ∅
          {[ "wordpress:db mysql:server" := db ]}.

Definition world2 : World :=
  mkWorld store2
          {[ "cs:wordpress" := wordpress_charm; "cs:logging" := logging_charm ]}
          [] [].

(** A cached document of wordpress that is behind the stored one: no
    charm, no relation counted, another revision. *)
Definition wordpress_stale : Service :=
  serviceDoc.mk "wordpress" None false Alive 0 0 0 false 7.

(** The scenario with wordpress Dead. *)
Definition wordpress_dead : Service :=
  serviceDoc.mk "wordpress" (Some "cs:wordpress") false Dead 0 0 0 false 2.

Definition store3 : Store :=
  mkStore {[ "wordpress" := wordpress_dead; "mysql" := mysql; "logging" := logging ]}
          ∅
          {[ "wordpress:db mysql:server" := db ]}.

(** The write of another writer that adds a unit to logging: the
    transaction of AddUnit for the name logging/0. *)
Definition other_AddUnit (st : Store) : Store :=
  let ops :=
    [mkOp units "logging/0" DocMissing
       (Some (UnitDoc (unitDoc.mk "logging/0" "logging" "" [] "" Alive UnitPending)))
       None false;
     mkOp services "logging" (AssertD isAlive) None
       (Some [("$inc", BD [("unitcount", BInt 1)])]) false] in
  if txn_holds st ops then txn_apply st ops else st.

(** The write of another writer that makes mysql Dying: the transaction of
    EnsureDying for mysql and its relation. *)
Definition other_EnsureDying (st : Store) : Store :=
  let ops := EnsureDying_ops mysql [db] in
  if txn_holds st ops then txn_apply st ops else st.

(** The write of another writer that makes wordpress Dead. *)
Definition other_EnsureDead (st : Store) : Store :=
  let ops :=
    [mkOp services "wordpress" NoAssert None
       (Some [("$set", BD [("life", BLife Dead)])]) false] in
  if txn_holds st ops then txn_apply st ops else st.

(** Worlds in which these writers have their turn at the first accesses. *)
Definition world3 : World :=
  mkWorld store3
          {[ "cs:wordpress" := wordpress_charm; "cs:logging" := logging_charm ]}
          [Interfere other_AddUnit; Interfere other_EnsureDying] [].

Definition world4 : World :=
  mkWorld store2
          {[ "cs:wordpress" := wordpress_charm; "cs:logging" := logging_charm ]}
          [Interfere other_AddUnit; Interfere other_EnsureDead] [].

(** A run of operations of the service. *)
Definition ops3 : list operation :=
  [OpSetExposed; OpRefresh; OpEnsureDying 2; OpAddUnit; OpRemoveUnit dead_unit;
   OpEnsureDead; OpRefresh].


End scenario.

(** * Properties *)

(** ** Strings *)

Section strings_facts.

Lemma bytes_of_bytes l : bytes (of_bytes l) = l.
Proof. apply list_ascii_of_string_of_list_ascii. Qed.

Lemma of_bytes_bytes s : of_bytes (bytes s) = s.
Proof. apply string_of_list_ascii_of_string. Qed.

Lemma bytes_app s1 s2 : bytes (s1 +:+ s2) = bytes s1 ++ bytes s2.
Proof. induction s1 as [|c s1 IH]; simpl; [done|]. by rewrite <- IH. Qed.

Lemma strip_prefix_Some p l r : strip_prefix p l = Some r -> l = p ++ r.
Proof.
  revert l; induction p as [|c p IH]; intros [|d l]; simpl; try congruence.
  case_decide; [|done]. intros Hs; subst. by rewrite (IH _ Hs).
Qed.

Lemma strip_first_Some pats l r :
  strip_first pats l = Some r -> exists p, p ∈ pats /\ l = p ++ r.
Proof.
  induction pats as [|p pats IH]; simpl; [done|].
  destruct (strip_prefix p l) as [r'|] eqn:E.
  - intros [= <-]. exists p. split; [left|]. by apply strip_prefix_Some.
  - intros H. destruct (IH H) as (q & Hq & ->). exists q. split; [by right|done].
Qed.

(** What is left by [trim_left] is the end of the list. *)
Lemma trim_left_suffix pats fuel l : exists pre, l = pre ++ trim_left pats fuel l.
Proof.
  revert l; induction fuel as [|fuel IH]; intros l; simpl; [by exists []|].
  destruct (strip_first pats l) as [r|] eqn:E; [|by exists []].
  destruct (strip_first_Some _ _ _ E) as (p & _ & ->).
  destruct (IH r) as (pre & Hpre). exists (p ++ pre).
  rewrite <- app_assoc. by rewrite <- Hpre.
Qed.

(** A pattern without the byte [c] that starts [a ++ c :: b] starts [a]. *)
Lemma strip_prefix_before c p a b r :
  c ∉ p -> strip_prefix p (a ++ c :: b) = Some r -> is_Some (strip_prefix p a).
Proof.
  revert a; induction p as [|x p IH]; intros a Hc; simpl; [by eauto|].
  destruct a as [|y a]; simpl.
  - case_decide; [|done]. subst. exfalso. apply Hc. left.
  - case_decide; [|done]. apply IH. intros ?. apply Hc. by right.
Qed.

Lemma strip_first_before c pats a b :
  Forall (fun p => c ∉ p) pats ->
  strip_first pats a = None -> strip_first pats (a ++ c :: b) = None.
Proof.
  intros Hall. induction Hall as [|p pats Hp _ IH]; simpl; [done|].
  destruct (strip_prefix p a) eqn:Ea; [done|]. intros H.
  destruct (strip_prefix p (a ++ c :: b)) eqn:E; [|by apply IH].
  destruct (strip_prefix_before _ _ _ _ _ Hp E) as [? ?]. congruence.
Qed.

Lemma trim_left_None pats fuel l : strip_first pats l = None -> trim_left pats fuel l = l.
Proof. destruct fuel; simpl; [done|]. by intros ->. Qed.

Lemma spaceRunes_no_eq : Forall (fun p => eq_sign ∉ p) spaceRunes.
Proof. apply (bool_decide_unpack _). by vm_compute. Qed.

Lemma rev_spaceRunes_no_eq : Forall (fun p => eq_sign ∉ p) (map reverse spaceRunes).
Proof. apply (bool_decide_unpack _). by vm_compute. Qed.

Lemma leading_space_false s :
  leading_space s = false -> strip_first spaceRunes (bytes s) = None.
Proof.
  unfold leading_space. intros H. apply bool_decide_eq_false in H.
  destruct (strip_first _ _); [|done]. exfalso. apply H. eauto.
Qed.

Lemma trailing_space_false s :
  trailing_space s = false ->
  strip_first (map reverse spaceRunes) (reverse (bytes s)) = None.
Proof.
  unfold trailing_space. intros H. apply bool_decide_eq_false in H.
  destruct (strip_first _ _); [|done]. exfalso. apply H. eauto.
Qed.

(** Nothing is trimmed from [k=v] when [k] does not start with a space and
    [v] does not end with one. *)
Lemma TrimSpace_entry k v :
  leading_space k = false -> trailing_space v = false ->
  TrimSpace (k +:+ "=" +:+ v) = k +:+ "=" +:+ v.
Proof.
  intros Hk Hv. unfold TrimSpace.
  assert (Hb : bytes (k +:+ "=" +:+ v) = bytes k ++ eq_sign :: bytes v)
    by (by rewrite !bytes_app).
  rewrite Hb. unfold TrimLeftSpace.
  rewrite trim_left_None
    by (apply strip_first_before; [apply spaceRunes_no_eq|by apply leading_space_false]).
  unfold TrimRightSpace.
  rewrite reverse_app, reverse_cons, <- app_assoc. simpl.
  rewrite trim_left_None
    by (apply strip_first_before; [apply rev_spaceRunes_no_eq|by apply trailing_space_false]).
  rewrite reverse_app, reverse_cons, !reverse_involutive, <- app_assoc. simpl.
  rewrite <- Hb. apply of_bytes_bytes.
Qed.

Lemma cut_eq_first a b : eq_sign ∉ a -> cut_eq (a ++ eq_sign :: b) = Some (a, b).
Proof.
  induction a as [|c a IH]; intros Ha.
  - done.
  - change (cut_eq ((c :: a) ++ eq_sign :: b))
      with (if decide (c = eq_sign) then Some ([], a ++ eq_sign :: b)
            else match cut_eq (a ++ eq_sign :: b) with
                 | Some (a', b') => Some (c :: a', b')
                 | None => None
                 end).
    rewrite decide_False by (intros ->; apply Ha; left).
    rewrite IH; [done|]. intros ?. apply Ha. by right.
Qed.

Lemma cut_eq_None l : eq_sign ∉ l -> cut_eq l = None.
Proof.
  induction l as [|c l IH]; intros Hl; [done|].
  change (cut_eq (c :: l))
    with (if decide (c = eq_sign) then Some ([], l)
          else match cut_eq l with
               | Some (a', b') => Some (c :: a', b')
               | None => None
               end).
  rewrite decide_False by (intros ->; apply Hl; left).
  rewrite IH; [done|]. intros ?. apply Hl. by right.
Qed.

(** The bytes of the trimmed string are bytes of the string. *)
Lemma TrimSpace_bytes s c : c ∈ bytes (TrimSpace s) -> c ∈ bytes s.
Proof.
  unfold TrimSpace, TrimRightSpace, TrimLeftSpace. rewrite bytes_of_bytes.
  set (l1 := trim_left spaceRunes (length (bytes s)) (bytes s)).
  destruct (trim_left_suffix spaceRunes (length (bytes s)) (bytes s)) as (pre & Hpre).
  fold l1 in Hpre.
  destruct (trim_left_suffix (map reverse spaceRunes) (length l1) (reverse l1))
    as (pre' & Hpre').
  intros Hc. rewrite Hpre. apply elem_of_app. right.
  apply elem_of_reverse. rewrite Hpre'. apply elem_of_app. right.
  by apply elem_of_reverse.
Qed.

End strings_facts.

(** ** ParseEnv and UnparseEnv *)

Section process_facts.

Import process.

Lemma ParseEnv_body_blank m e : TrimSpace e = "" -> ParseEnv_body m e = m.
Proof. unfold ParseEnv_body. intros ->. by rewrite decide_True. Qed.

Lemma ParseEnv_body_no_eq m e :
  TrimSpace e ≠ "" -> has_eq e = false -> ParseEnv_body m e = <[TrimSpace e := ""]> m.
Proof.
  intros Hne He. unfold ParseEnv_body. rewrite decide_False by done.
  unfold SplitN_eq_2. rewrite cut_eq_None; [done|].
  intros Hin. apply TrimSpace_bytes in Hin.
  unfold has_eq in He. by apply bool_decide_eq_false in He.
Qed.

Lemma ParseEnv_body_unparse m k v :
  plain_var k v -> ParseEnv_body m (unparse (k, v)) = <[k := v]> m.
Proof.
  intros (_ & Heq & Hl & _ & Hv). unfold ParseEnv_body, unparse. simpl.
  rewrite TrimSpace_entry by done.
  rewrite decide_False by (destruct k; discriminate).
  unfold SplitN_eq_2.
  assert (Hb : bytes (k +:+ "=" +:+ v) = bytes k ++ eq_sign :: bytes v)
    by (by rewrite !bytes_app).
  rewrite Hb, cut_eq_first; [|by apply bool_decide_eq_false in Heq].
  simpl. by rewrite !of_bytes_bytes.
Qed.

Lemma UnparseEnv_in_map order : UnparseEnv_in order = map unparse order.
Proof.
  unfold UnparseEnv_in.
  assert (H : forall acc, foldl (fun envVars kv => envVars ++ [unparse kv]) acc order
                          = acc ++ map unparse order); [|apply (H [])].
  induction order as [|kv order IH]; intros acc; simpl.
  - by rewrite app_nil_r.
  - rewrite IH, <- app_assoc. done.
Qed.

Lemma foldl_ParseEnv_body_unparse order m :
  Forall (fun kv => plain_var kv.1 kv.2) order ->
  foldl ParseEnv_body m (map unparse order)
  = list_to_map (reverse order) ∪ m.
Proof.
  intros H; revert m; induction H as [|[k v] order Hkv _ IH]; intros m; simpl.
  - by rewrite (left_id_L ∅ (∪)).
  - rewrite ParseEnv_body_unparse by done. rewrite IH.
    rewrite reverse_cons, list_to_map_app. simpl.
    rewrite <- (assoc_L (∪)). f_equal.
    rewrite insert_empty. by rewrite <- insert_union_singleton_l.
Qed.

(** C10. For a map of variables whose names are not empty, have no '=' and
    no space at either end, and whose values have no space at their end,
    ParseEnv of UnparseEnv of the map, whatever the order in which the map
    is ranged over, is the map when it is not empty and nil when it is
    empty; and for every slice ParseEnv skips a blank entry, and an entry
    without '=' binds its trimmed text to the empty value. *)
Theorem ParseEnv_UnparseEnv :
  (forall (env : gmap string string) (order : list (string * string)),
      range_order env order ->
      (forall k v, env !! k = Some v -> plain_var k v) ->
      ParseEnv (UnparseEnv_in order) = (if decide (env = ∅) then None else Some env))
  /\ (forall raw1 e raw2,
        TrimSpace e = "" -> ParseEnv (raw1 ++ e :: raw2) = ParseEnv (raw1 ++ raw2))
  /\ (forall raw e,
        TrimSpace e ≠ "" -> has_eq e = false ->
        foldl ParseEnv_body ∅ (raw ++ [e])
        = <[TrimSpace e := ""]> (foldl ParseEnv_body ∅ raw)).
Proof.
  split; [|split].
  - intros env order Hord Hplain. unfold ParseEnv.
    rewrite UnparseEnv_in_map, foldl_ParseEnv_body_unparse.
    + rewrite (right_id_L ∅ (∪)).
      assert (Henv : list_to_map (reverse order) = env).
      { symmetry. apply list_to_map_flip. unfold range_order in Hord.
        by rewrite reverse_Permutation, Hord. }
      rewrite Henv.
      destruct (decide (env = ∅)) as [->|Hne].
      * by rewrite decide_True by apply map_size_empty.
      * rewrite decide_False; [done|]. by rewrite map_size_empty_iff.
    + apply Forall_forall. intros [k v] Hin. simpl. apply Hplain.
      apply elem_of_map_to_list. unfold range_order in Hord. by rewrite <- Hord.
  - intros raw1 e raw2 He. unfold ParseEnv.
    rewrite !foldl_app. simpl. by rewrite ParseEnv_body_blank.
  - intros raw e Hne He. rewrite foldl_app. simpl.
    by apply ParseEnv_body_no_eq.
Qed.

End process_facts.

(** ** The operations of the service *)

Section service_facts.

Import state.

(** C7. At a submission that the driver does not fail, SetExposed and
    ClearExposed (setExposed with true and with false) submit one
    transaction of one operation, which asserts that the Life of the
    service is Alive and sets its exposed flag. When the service is in the
    store and Alive at that time, the transaction is committed: the exposed
    flag of the stored document is the one asked for, its revision is one
    more (the transaction runner advances it), every other field of the
    document, every other service, every unit and every relation is as
    before; the cached flag is the one asked for and the other cached
    fields are as before. Otherwise the call fails with the not-alive
    error, and neither the store nor the cache changes. *)
Theorem setExposed_alive_or_not (exposed : bool) (s : Service) (w w1 : World) :
  arrive w = (None, w1) ->
  let op := mkOp services (serviceDoc.Name s) (AssertD [("life", BLife Alive)])
              None (Some [("$set", BD [("exposed", BBool exposed)])]) false in
  SetExposed s w = setExposed true s w /\
  ClearExposed s w = setExposed false s w /\
  (forall d,
      st_services (store w1) !! serviceDoc.Name s = Some d ->
      serviceDoc.Life d = Alive ->
      exists s' d' w',
        setExposed exposed s w = (None, s', w') /\
        log w' = log w1 ++ [EvRun [op] None] /\
        script w' = script w1 /\ charms w' = charms w1 /\
        IsExposed s' = exposed /\
        (serviceDoc.Name s', serviceDoc.CharmURL s', serviceDoc.ForceCharm s',
         serviceDoc.Life s', serviceDoc.UnitSeq s', serviceDoc.UnitCount s',
         serviceDoc.RelationCount s', serviceDoc.TxnRevno s')
        = (serviceDoc.Name s, serviceDoc.CharmURL s, serviceDoc.ForceCharm s,
           serviceDoc.Life s, serviceDoc.UnitSeq s, serviceDoc.UnitCount s,
           serviceDoc.RelationCount s, serviceDoc.TxnRevno s) /\
        st_services (store w') !! serviceDoc.Name s = Some d' /\
        serviceDoc.Exposed d' = exposed /\
        serviceDoc.TxnRevno d' = serviceDoc.TxnRevno d + 1 /\
        (serviceDoc.Name d', serviceDoc.CharmURL d', serviceDoc.ForceCharm d',
         serviceDoc.Life d', serviceDoc.UnitSeq d', serviceDoc.UnitCount d',
         serviceDoc.RelationCount d')
        = (serviceDoc.Name d, serviceDoc.CharmURL d, serviceDoc.ForceCharm d,
           serviceDoc.Life d, serviceDoc.UnitSeq d, serviceDoc.UnitCount d,
           serviceDoc.RelationCount d) /\
        (forall id, id <> serviceDoc.Name s ->
                    st_services (store w') !! id = st_services (store w1) !! id) /\
        st_units (store w') = st_units (store w1) /\
        st_relations (store w') = st_relations (store w1)) /\
  ((forall d, st_services (store w1) !! serviceDoc.Name s = Some d ->
              serviceDoc.Life d <> Alive) ->
   setExposed exposed s w
   = (Some (Wrapf "cannot set exposed flag for service %q to %v: %v"
              [OStr (serviceDoc.Name s); OBool exposed] (Some errNotAlive)),
      s, record (EvRun [op] (Some ErrAborted)) w1)).
Proof.
  intros Harr op. split; [done|]. split; [done|]. split.
  - intros d Hd Hlife. unfold setExposed, Run. rewrite Harr.
    unfold txn_holds, txn_apply, op_holds, op_apply, getDoc. simpl.
    rewrite Hd. simpl. rewrite bool_decide_eq_true_2 by done. simpl.
    eexists _, _, _. split; [reflexivity|]. simpl.
    split; [done|]. split; [done|]. split; [done|]. split; [done|].
    split; [done|]. split; [apply lookup_insert_eq|]. simpl.
    split; [done|]. split; [done|]. split; [done|]. split; [|done].
    intros id Hid. by rewrite lookup_insert_ne.
  - intros Hnot. unfold setExposed, Run. rewrite Harr.
    unfold txn_holds, op_holds, getDoc. simpl.
    destruct (st_services (store w1) !! serviceDoc.Name s) as [d|] eqn:Hd; simpl.
    + by rewrite bool_decide_eq_false_2 by (by apply Hnot).
    + done.
Qed.

(** C2. At a submission that the driver does not fail, for a service that
    has a unit or a relation at that time, EnsureDead submits one
    transaction, of the assertion that the unit count and the relation
    count are 0 and of the change of Life to Dead; the transaction is
    aborted, and the call returns the error that the service still has
    units and/or relations, without another attempt: the store and the
    cache are as they were. *)
Theorem EnsureDead_has_dependents (s : Service) (w w1 : World) (d : serviceDoc.t) :
  arrive w = (None, w1) ->
  st_services (store w1) !! serviceDoc.Name s = Some d ->
  serviceDoc.UnitCount d <> 0 \/ serviceDoc.RelationCount d <> 0 ->
  EnsureDead s w
  = (Some (Context "service" [OStr (serviceDoc.Name s)]
             (Errorf "service still has units and/or relations" [])),
     s,
     record
       (EvRun
          [mkOp services (serviceDoc.Name s)
             (AssertD [("unitcount", BInt 0); ("relationcount", BInt 0)])
             None None false;
           mkOp services (serviceDoc.Name s) NoAssert None
             (Some [("$set", BD [("life", BLife Dead)])]) false]
          (Some ErrAborted)) w1).
Proof.
  intros Harr Hd Hcount. unfold EnsureDead, EnsureDead_with, ensureDead, Run.
  simpl. rewrite Harr. unfold txn_holds, op_holds, getDoc. simpl.
  rewrite Hd. simpl.
  destruct Hcount as [H|H]; rewrite (bool_decide_eq_false_2 _ H); [done|].
  by rewrite !andb_false_r.
Qed.

(** C9. When the submission of setExposed or of SetCharm returns an
    error, and when the helper of EnsureDead does, the call returns an
    error and the cached document is the one before the call; the cached
    Exposed, CharmURL and ForceCharm, and the cached Life, are set once the
    submission has succeeded. *)
Theorem cache_kept_on_error (s : Service) (w : World) :
  (forall exposed,
      match Run [mkOp services (serviceDoc.Name s) (AssertD isAlive) None
                   (Some [("$set", BD [("exposed", BBool exposed)])]) false] w with
      | (Some _, w1) => exists e, setExposed exposed s w = (Some e, s, w1)
      | (None, w1) =>
          setExposed exposed s w = (None, serviceDoc.set_Exposed exposed s, w1)
      end) /\
  (forall ch force,
      match Run [mkOp services (serviceDoc.Name s) (AssertD isAlive) None
                   (Some [("$set", BD [("charmurl", BURL (Some (Charm.URL ch)));
                                       ("forcecharm", BBool force)])]) false] w with
      | (Some _, w1) => exists e, SetCharm ch force s w = (Some e, s, w1)
      | (None, w1) =>
          SetCharm ch force s w
          = (None, serviceDoc.set_ForceCharm force
                     (serviceDoc.set_CharmURL (Some (Charm.URL ch)) s), w1)
      end) /\
  (forall helper,
      match helper services (serviceDoc.Name s) "service"
              [mkOp services (serviceDoc.Name s)
                 (AssertD [("unitcount", BInt 0); ("relationcount", BInt 0)])
                 None None false]
              "service still has units and/or relations" w with
      | (Some e, w1) => EnsureDead_with helper s w = (Some e, s, w1)
      | (None, w1) =>
          EnsureDead_with helper s w = (None, serviceDoc.set_Life Dead s, w1)
      end).
Proof.
  split; [|split].
  - intros exposed. unfold setExposed.
    destruct (Run _ w) as [[e|] w1]; eauto.
  - intros ch force. unfold SetCharm.
    destruct (Run _ w) as [[e|] w1]; eauto.
  - intros helper. unfold EnsureDead_with.
    destruct (helper _ _ _ _ _ w) as [[e|] w1]; eauto.
Qed.

(** C5. When the charm of the service is a subordinate charm and no
    principal is named, addUnitOps fails with the error that the service is
    subordinate, and so does AddUnit, with the world as it was: nothing of
    the store is read or written, the unit sequence is not incremented and
    no transaction is submitted. When the charm is not a subordinate charm
    and a principal is named, addUnitOps fails in the same way with the
    error that the service is not a subordinate. *)
Theorem addUnitOps_mismatch (IsUnitName : string -> bool) (s : Service) (w : World)
    (ch : Charm.t) (force : bool) (principalName : string) (strict : bool) :
  Service_Charm s w = inl (ch, force) ->
  (charm.Subordinate (Charm.Meta ch) = true -> principalName = "" ->
   addUnitOps principalName strict s w = (inr (Errorf "service is subordinate" []), w) /\
   AddUnit IsUnitName s w
   = (inr (Context "cannot add unit to service %q" [OStr (serviceDoc.Name s)]
             (Errorf "service is subordinate" [])), w)) /\
  (charm.Subordinate (Charm.Meta ch) = false -> principalName <> "" ->
   addUnitOps principalName strict s w
   = (inr (Errorf "service is not a subordinate" []), w)).
Proof.
  intros Hch. split.
  - intros Hsub ->. unfold AddUnit, addUnitOps. rewrite Hch, Hsub. simpl. done.
  - intros Hsub Hp. unfold addUnitOps. rewrite Hch, Hsub. simpl.
    by rewrite bool_decide_eq_true_2.
Qed.

(** C6. RemoveUnit fails with the error that the unit is not dead, or that
    it is not assigned to the service, with the world as it was, so without
    a transaction, when the cached Life of the unit is not Dead, or when
    its service is not the receiver. When the transaction of the removal is
    aborted and the store is read again without failure, the call returns
    success if no unit document with the name is in the store then, and
    the error of the violated invariant if there is one; the transaction is
    submitted once. *)
Theorem RemoveUnit_checks_and_abort
    (UnassignFromMachine : Unit -> World -> option error * Unit * World)
    (u : Unit) (s : Service) (w : World) :
  (unitDoc.Life u <> Dead ->
   RemoveUnit UnassignFromMachine u s w
   = (Some (Context "cannot remove unit %q" [OStr (unitDoc.Name u)]
              (Errorf "unit is not dead" [])), u, w)) /\
  (unitDoc.Life u = Dead -> unitDoc.Service u <> serviceDoc.Name s ->
   RemoveUnit UnassignFromMachine u s w
   = (Some (Context "cannot remove unit %q" [OStr (unitDoc.Name u)]
              (Errorf "unit is not assigned to service %q" [OStr (serviceDoc.Name s)])),
      u, w)) /\
  (forall u1 w0 w1 w2,
      unitDoc.Life u = Dead -> unitDoc.Service u = serviceDoc.Name s ->
      (if bool_decide (unitDoc.MachineId u <> "") then UnassignFromMachine u w
       else (None, u, w)) = (None, u1, w0) ->
      arrive w0 = (None, w1) ->
      txn_holds (store w1) (RemoveUnit_ops u1 s) = false ->
      arrive (record (EvRun (RemoveUnit_ops u1 s) (Some ErrAborted)) w1) = (None, w2) ->
      RemoveUnit UnassignFromMachine u s w
      = (match st_units (store w2) !! unitDoc.Name u1 with
         | None => None
         | Some _ =>
             Some (Context "cannot remove unit %q" [OStr (unitDoc.Name u1)]
                     (Errorf "cannot remove unit; something smells bad" []))
         end, u1, record (EvRead units None) w2)).
Proof.
  split; [|split].
  - intros Hlife. unfold RemoveUnit. by rewrite bool_decide_eq_true_2.
  - intros Hlife Hsvc. unfold RemoveUnit.
    rewrite bool_decide_eq_false_2 by (by intros []).
    by rewrite bool_decide_eq_true_2.
  - intros u1 w0 w1 w2 Hlife Hsvc Hun Harr Habort Harr2. unfold RemoveUnit.
    rewrite bool_decide_eq_false_2 by (by intros []).
    rewrite bool_decide_eq_false_2 by (by intros []).
    rewrite Hun. unfold RemoveUnit_run, Run. rewrite Harr, Habort.
    unfold FindId_Count. rewrite Harr2. unfold getDoc.
    destruct (st_units (store w2) !! unitDoc.Name u1); done.
Qed.

(** C3, as the code has it. At an access that the driver does not fail,
    for a service in the store, newUnitName makes one access to the store,
    an Apply that adds 1 to the unit sequence of the stored document and
    returns the document as it was before that: the name allocated is the
    name of the service, a slash and the value the counter had before the
    increment. *)
Theorem newUnitName_old_sequence (s : Service) (w w1 : World) (d : serviceDoc.t) :
  arrive w = (None, w1) ->
  st_services (store w1) !! serviceDoc.Name s = Some d ->
  newUnitName s w
  = (inl (serviceDoc.Name s +:+ "/" +:+ Itoa (serviceDoc.UnitSeq d)),
     record
       (EvApply services (serviceDoc.Name s)
          (mkChange [("$inc", BD [("unitseq", BInt 1)])] false false false) None)
       (set_store
          (mkStore
             (<[serviceDoc.Name s := serviceDoc.set_UnitSeq (serviceDoc.UnitSeq d + 1) d]>
                (st_services (store w1)))
             (st_units (store w1)) (st_relations (store w1))) w1)).
Proof.
  intros Harr Hd. unfold newUnitName, Apply. rewrite Harr.
  unfold getDoc. rewrite Hd. done.
Qed.

End service_facts.

(** ** EnsureDying *)

Section EnsureDying_facts.

Import state.

Lemma foldl_snoc {A} (l acc : list A) :
  foldl (fun acc x => acc ++ [x]) acc l = acc ++ l.
Proof.
  revert acc; induction l as [|x l IH]; intros acc; simpl.
  - by rewrite app_nil_r.
  - by rewrite IH, <- app_assoc.
Qed.

Lemma EnsureDying_ops_shape s rels :
  EnsureDying_ops s rels
  = service_dying_op (serviceDoc.Name s) (serviceDoc.TxnRevno s)
    :: ((fun r => relation_dying_op (relationDoc.Key r)) <$> alive_relations rels).
Proof.
  unfold EnsureDying_ops.
  assert (H : forall acc,
    foldl (fun ops rel =>
             if decide (Relation_Life rel = Alive) then
               ops ++ [mkOp relations (relationDoc.Key rel) (AssertD isAlive)
                         None (Some [("$set", BD [("life", BLife Dying)])]) false]
             else ops) acc rels
    = acc ++ ((fun r => relation_dying_op (relationDoc.Key r)) <$> alive_relations rels)).
  { unfold alive_relations.
    induction rels as [|r rels IH]; intros acc; simpl.
    - by rewrite app_nil_r.
    - rewrite IH. unfold Relation_Life.
      destruct (decide (relationDoc.Life r = Alive)) as [Hl|Hl].
      + rewrite filter_cons_True by done. simpl. by rewrite <- app_assoc.
      + by rewrite filter_cons_False by done. }
  by rewrite H.
Qed.

Lemma op_apply_relation_dying st key :
  op_apply st (relation_dying_op key)
  = mkStore (st_services st) (st_units st)
            (alter (relationDoc.set_Life Dying) key (st_relations st)).
Proof.
  unfold op_apply, relation_dying_op, getDoc. simpl.
  destruct (st_relations st !! key) as [d|] eqn:Hd; simpl.
  - f_equal. apply map_eq. intros k. rewrite lookup_insert, lookup_alter.
    case_decide; subst; [by rewrite Hd|done].
  - destruct st as [sv un re]. simpl in *. f_equal. apply map_eq. intros k.
    rewrite lookup_alter. case_decide; subst; [by rewrite Hd|done].
Qed.

Lemma op_apply_service_dying st name revno :
  op_apply st (service_dying_op name revno)
  = mkStore (alter (fun d => serviceDoc.set_TxnRevno (serviceDoc.TxnRevno d + 1)
                               (serviceDoc.set_Life Dying d)) name (st_services st))
            (st_units st) (st_relations st).
Proof.
  unfold op_apply, service_dying_op, getDoc. simpl.
  destruct (st_services st !! name) as [d|] eqn:Hd; simpl.
  - f_equal. apply map_eq. intros k. rewrite lookup_insert, lookup_alter.
    case_decide; subst; [by rewrite Hd|done].
  - destruct st as [sv un re]. simpl in *. f_equal. apply map_eq. intros k.
    rewrite lookup_alter. case_decide; subst; [by rewrite Hd|done].
Qed.

Lemma foldl_alter_lookup {A} (f : A -> A) (keys : list string) (m : gmap string A) key :
  (forall x, f (f x) = f x) ->
  foldl (fun m k => alter f k m) m keys !! key
  = if decide (key ∈ keys) then f <$> m !! key else m !! key.
Proof.
  intros Hf. revert m. induction keys as [|k keys IH]; intros m.
  - destruct (decide (key ∈ [])) as [Hin|_]; [|done].
    by apply elem_of_nil in Hin.
  - change (foldl (fun m k => alter f k m) m (k :: keys))
      with (foldl (fun m k => alter f k m) (alter f k m) keys).
    rewrite IH, lookup_alter.
    destruct (decide (k = key)) as [->|Hk].
    + destruct (decide (key ∈ key :: keys)) as [_|Hn]; [|by destruct Hn; left].
      destruct (decide (key ∈ keys)); [|done].
      destruct (m !! key); simpl; [by rewrite Hf|done].
    + destruct (decide (key ∈ keys)) as [Hin|Hin];
        destruct (decide (key ∈ k :: keys)) as [Hin'|Hin']; try done.
      * destruct Hin'. by right.
      * apply elem_of_cons in Hin' as [?|?]; [by subst|done].
Qed.

Lemma foldl_relation_dying st keys :
  foldl op_apply st (relation_dying_op <$> keys)
  = mkStore (st_services st) (st_units st)
            (foldl (fun m k => alter (relationDoc.set_Life Dying) k m)
                   (st_relations st) keys).
Proof.
  revert st. induction keys as [|k keys IH]; intros st; simpl.
  - by destruct st.
  - by rewrite IH, op_apply_relation_dying.
Qed.

(** The store after the transaction of EnsureDying. *)
Lemma txn_apply_EnsureDying_ops st s rels :
  let st' := txn_apply st (EnsureDying_ops s rels) in
  st_services st'
  = alter (fun d => serviceDoc.set_TxnRevno (serviceDoc.TxnRevno d + 1)
                      (serviceDoc.set_Life Dying d)) (serviceDoc.Name s) (st_services st)
  /\ st_units st' = st_units st
  /\ forall key,
       st_relations st' !! key
       = if decide (key ∈ relationDoc.Key <$> alive_relations rels)
         then relationDoc.set_Life Dying <$> st_relations st !! key
         else st_relations st !! key.
Proof.
  unfold txn_apply. rewrite EnsureDying_ops_shape. simpl.
  rewrite op_apply_service_dying.
  rewrite (list_fmap_compose relationDoc.Key relation_dying_op).
  rewrite foldl_relation_dying. simpl. split; [done|]. split; [done|].
  intros key. by apply foldl_alter_lookup.
Qed.

Lemma op_holds_service_dying st name revno :
  op_holds st (service_dying_op name revno) = true ->
  exists d, st_services st !! name = Some d /\ serviceDoc.Life d = Alive
            /\ serviceDoc.TxnRevno d = revno.
Proof.
  unfold op_holds, service_dying_op, getDoc. simpl.
  destruct (st_services st !! name) as [d|]; simpl; [|done].
  rewrite andb_true_r, andb_true_iff, !bool_decide_eq_true.
  intros [H1 H2]. by exists d.
Qed.

Lemma op_holds_relation_dying st key :
  op_holds st (relation_dying_op key) = true <->
  exists d, st_relations st !! key = Some d /\ relationDoc.Life d = Alive.
Proof.
  unfold op_holds, relation_dying_op, getDoc. simpl.
  destruct (st_relations st !! key) as [d|]; simpl.
  - rewrite andb_true_r, bool_decide_eq_true. split.
    + intros ?. by exists d.
    + by intros (? & [= <-] & ?).
  - split; [done|]. by intros (? & ? & ?).
Qed.

Lemma EnsureDying_not_Alive fuel s w :
  serviceDoc.Life s <> Alive -> EnsureDying fuel s w = (Some None, s, w).
Proof. intros H. destruct fuel; simpl; by rewrite decide_False. Qed.

Lemma txn_holds_EnsureDying_ops st s rels :
  txn_holds st (EnsureDying_ops s rels) = true <->
  op_holds st (service_dying_op (serviceDoc.Name s) (serviceDoc.TxnRevno s)) = true /\
  forall r, r ∈ rels -> relationDoc.Life r = Alive ->
            exists d, st_relations st !! relationDoc.Key r = Some d
                      /\ relationDoc.Life d = Alive.
Proof.
  unfold txn_holds. rewrite EnsureDying_ops_shape. simpl.
  rewrite andb_true_iff. apply and_iff_compat_l.
  rewrite forallb_forall. split.
  - intros H r Hr Hl. apply op_holds_relation_dying. apply H.
    apply list_elem_of_In. apply list_elem_of_fmap. exists r. split; [done|].
    unfold alive_relations. by apply list_elem_of_filter.
  - intros H o Ho. apply list_elem_of_In, list_elem_of_fmap in Ho as (r & -> & Hr).
    unfold alive_relations in Hr. apply list_elem_of_filter in Hr as [Hl Hr].
    apply op_holds_relation_dying. by apply H.
Qed.

(** A round of EnsureDying whose transaction is committed. *)
Lemma EnsureDying_round fuel s w rels w1 w2 :
  serviceDoc.Life s = Alive ->
  Relations s w = (inl rels, w1) ->
  Z.of_nat (length rels) = serviceDoc.RelationCount s ->
  arrive w1 = (None, w2) ->
  txn_holds (store w2) (EnsureDying_ops s rels) = true ->
  EnsureDying (S fuel) s w
  = (Some None, serviceDoc.set_Life Dying s,
     record (EvRun (EnsureDying_ops s rels) None)
       (set_store (txn_apply (store w2) (EnsureDying_ops s rels)) w2)).
Proof.
  intros Hl Hrel Hlen Harr Hholds. simpl.
  rewrite decide_True by done. rewrite Hrel.
  rewrite decide_False by (by intros []).
  unfold Run. rewrite Harr, Hholds.
  by apply EnsureDying_not_Alive.
Qed.

(** C1. EnsureDying does nothing and returns success when the cached Life
    of the service is Dying or Dead. The transaction it builds when the
    Life is Alive is the operation that asserts that the service is Alive
    with the cached revision and sets its Life to Dying, followed, for every
    relation read whose Life is Alive, by the operation that asserts that
    the relation is Alive and sets its Life to Dying. In a round where the
    relations read are as many as the cached relation count and that
    transaction is committed, the call returns success with the cached Life
    Dying, and the one transaction has set the Life of the stored service
    and of each of these relations to Dying, and has changed nothing else
    of the units and the relations. Run alone on a store whose documents
    are under their identifiers, with a cache that is the stored document
    and a relation count that is the number of relations of the service,
    the call succeeds after that one transaction, and no relation of the
    service is left Alive. *)
Theorem EnsureDying_transaction :
  (forall fuel s w,
      serviceDoc.Life s <> Alive -> EnsureDying fuel s w = (Some None, s, w)) /\
  (forall s rels,
      EnsureDying_ops s rels
      = service_dying_op (serviceDoc.Name s) (serviceDoc.TxnRevno s)
        :: ((fun r => relation_dying_op (relationDoc.Key r)) <$> alive_relations rels)) /\
  (forall fuel s w rels w1 w2,
      serviceDoc.Life s = Alive ->
      Relations s w = (inl rels, w1) ->
      Z.of_nat (length rels) = serviceDoc.RelationCount s ->
      arrive w1 = (None, w2) ->
      txn_holds (store w2) (EnsureDying_ops s rels) = true ->
      let st' := txn_apply (store w2) (EnsureDying_ops s rels) in
      EnsureDying (S fuel) s w
      = (Some None, serviceDoc.set_Life Dying s,
         record (EvRun (EnsureDying_ops s rels) None) (set_store st' w2)) /\
      (exists d,
          st_services (store w2) !! serviceDoc.Name s = Some d /\
          serviceDoc.Life d = Alive /\
          serviceDoc.TxnRevno d = serviceDoc.TxnRevno s /\
          st_services st'
          = <[serviceDoc.Name s :=
                serviceDoc.set_TxnRevno (serviceDoc.TxnRevno d + 1)
                  (serviceDoc.set_Life Dying d)]> (st_services (store w2))) /\
      st_units st' = st_units (store w2) /\
      (forall r, r ∈ rels -> relationDoc.Life r = Alive ->
                 exists d,
                   st_relations (store w2) !! relationDoc.Key r = Some d /\
                   relationDoc.Life d = Alive /\
                   st_relations st' !! relationDoc.Key r
                   = Some (relationDoc.set_Life Dying d)) /\
      (forall key, key ∉ relationDoc.Key <$> alive_relations rels ->
                   st_relations st' !! key = st_relations (store w2) !! key)) /\
  (forall fuel s w,
      script w = [] ->
      store_ok (store w) ->
      st_services (store w) !! serviceDoc.Name s = Some s ->
      serviceDoc.Life s = Alive ->
      serviceDoc.RelationCount s
      = Z.of_nat (length (relations_of (serviceDoc.Name s) (store w))) ->
      exists w',
        EnsureDying (S fuel) s w = (Some None, serviceDoc.set_Life Dying s, w') /\
        log w' = log w ++ [EvRead relations None;
                           EvRun (EnsureDying_ops s
                                    (relations_of (serviceDoc.Name s) (store w))) None] /\
        serviceDoc.Life <$> st_services (store w') !! serviceDoc.Name s = Some Dying /\
        (forall key d,
            st_relations (store w') !! key = Some d ->
            in_relation (serviceDoc.Name s) d = true ->
            relationDoc.Life d <> Alive)).
Proof.
  split; [apply EnsureDying_not_Alive|]. split; [apply EnsureDying_ops_shape|]. split.
  - intros fuel s w rels w1 w2 Hl Hrel Hlen Harr Hholds st'.
    split; [by eapply EnsureDying_round|].
    destruct (txn_apply_EnsureDying_ops (store w2) s rels) as (Hsv & Hun & Hre).
    fold st' in Hsv, Hun, Hre.
    apply txn_holds_EnsureDying_ops in Hholds as [Hs Hr].
    apply op_holds_service_dying in Hs as (d & Hd & Hdl & Hdr).
    split; [|split; [done|split]].
    + exists d. split; [done|]. split; [done|]. split; [done|].
      rewrite Hsv. apply map_eq. intros k. rewrite lookup_alter, lookup_insert.
      case_decide; subst; [by rewrite Hd|done].
    + intros r Hin Hrl. destruct (Hr r Hin Hrl) as (dr & Hdr1 & Hdr2).
      exists dr. split; [done|]. split; [done|]. rewrite Hre.
      rewrite decide_True; [by rewrite Hdr1|].
      apply list_elem_of_fmap. exists r. split; [done|].
      unfold alive_relations. by apply list_elem_of_filter.
    + intros key Hkey. rewrite Hre. by rewrite decide_False.
  - intros fuel s w Hsc [_ [_ Hok]] Hd Hl Hcount.
    set (rels := relations_of (serviceDoc.Name s) (store w)) in *.
    set (w1 := record (EvRead relations None) w).
    assert (Harr : arrive w = (None, w)) by (unfold arrive; by rewrite Hsc).
    assert (Harr1 : arrive w1 = (None, w1)) by (unfold arrive; simpl; by rewrite Hsc).
    assert (Hrel : Relations s w = (inl rels, w1)).
    { unfold Relations. rewrite Harr. by rewrite foldl_snoc. }
    assert (Hin : forall r, r ∈ rels ->
                    st_relations (store w) !! relationDoc.Key r = Some r
                    /\ in_relation (serviceDoc.Name s) r = true).
    { intros r Hr. unfold rels, relations_of in Hr.
      apply list_elem_of_filter in Hr as [Hrin Hr].
      apply list_elem_of_fmap in Hr as ([k r'] & -> & Hkr). simpl in *.
      apply elem_of_map_to_list in Hkr.
      split; [|done]. by rewrite (Hok _ _ Hkr). }
    assert (Hholds : txn_holds (store w1) (EnsureDying_ops s rels) = true).
    { apply txn_holds_EnsureDying_ops. split.
      - unfold op_holds, service_dying_op, getDoc. simpl. rewrite Hd. simpl.
        rewrite andb_true_r, andb_true_iff, !bool_decide_eq_true. done.
      - intros r Hr Hrl. exists r. split; [|done]. by apply Hin. }
    eexists. split.
    { eapply EnsureDying_round; eauto. }
    split; [by simpl; rewrite <- app_assoc|].
    destruct (txn_apply_EnsureDying_ops (store w1) s rels) as (Hsv & Hun & Hre).
    unfold record, set_store. cbn [store]. split.
    + rewrite Hsv. rewrite lookup_alter_eq. simpl. by rewrite Hd.
    + intros key d' Hkey Hrel' Hl'. rewrite Hre in Hkey. simpl in Hkey.
      destruct (decide (key ∈ relationDoc.Key <$> alive_relations rels)) as [Hk|Hk].
      * destruct (st_relations (store w) !! key) as [d0|]; simpl in Hkey; [|done].
        injection Hkey as <-. done.
      * apply Hk. apply list_elem_of_fmap. exists d'.
        assert (Hd' : d' ∈ rels).
        { unfold rels, relations_of. apply list_elem_of_filter. split; [done|].
          apply list_elem_of_fmap. exists (key, d'). split; [done|].
          by apply elem_of_map_to_list. }
        split; [symmetry; by apply (Hok _ _ Hkey)|].
        unfold alive_relations. by apply list_elem_of_filter.
Qed.

End EnsureDying_facts.

(** ** Life moves forward *)

Section life_facts.

Import state.

Lemma Life_le_refl l : Life_le l l.
Proof. unfold Life_le. lia. Qed.

Lemma Life_le_trans l1 l2 l3 : Life_le l1 l2 -> Life_le l2 l3 -> Life_le l1 l3.
Proof. unfold Life_le. lia. Qed.

Lemma Life_le_Alive l : Life_le Alive l.
Proof. unfold Life_le. simpl. lia. Qed.

Lemma Life_le_Dead l : Life_le l Dead.
Proof. unfold Life_le. destruct l; simpl; lia. Qed.

Lemma Life_le_Dead_inv l : Life_le Dead l -> l = Dead.
Proof. unfold Life_le. destruct l; simpl; [lia|lia|done]. Qed.

Lemma life_kept_refl st : life_kept st st.
Proof.
  split; [|done]. intros c id doc doc' H1 H2.
  rewrite H1 in H2. injection H2 as <-. apply Life_le_refl.
Qed.

Lemma life_kept_trans st1 st2 st3 :
  life_kept st1 st2 -> life_kept st2 st3 -> life_kept st1 st3.
Proof.
  intros [F12 D12] [F23 D23]. split.
  - intros c id d1 d3 H1 H3.
    destruct (getDoc st2 c id) as [d2|] eqn:H2.
    + eapply Life_le_trans; [by eapply F12|by eapply F23].
    + apply D12 in H2. congruence.
  - intros c id. by rewrite D12, D23.
Qed.

Lemma life_kept_forward st1 st2 st3 :
  life_kept st1 st2 -> life_forward st2 st3 -> life_forward st1 st3.
Proof.
  intros [F12 D12] F23 c id d1 d3 H1 H3.
  destruct (getDoc st2 c id) as [d2|] eqn:H2.
  - eapply Life_le_trans; [by eapply F12|by eapply F23].
  - apply D12 in H2. congruence.
Qed.

Lemma life_forward_kept st1 st2 st3 :
  life_forward st1 st2 -> life_kept st2 st3 -> life_forward st1 st3.
Proof.
  intros F12 [F23 D23] c id d1 d3 H1 H3.
  destruct (getDoc st2 c id) as [d2|] eqn:H2.
  - eapply Life_le_trans; [by eapply F12|by eapply F23].
  - apply D23 in H2. congruence.
Qed.

(** *** Documents under a key *)

Lemma getDoc_putDoc_other st c id doc c' id' :
  (c, id) <> (c', id') -> getDoc (putDoc st c id doc) c' id' = getDoc st c' id'.
Proof.
  intros Hne. destruct c, doc, c'; simpl; try done;
    rewrite lookup_insert_ne; congruence.
Qed.

Lemma getDoc_putDoc_same st c id doc :
  getDoc (putDoc st c id doc) c id = Some doc \/
  getDoc (putDoc st c id doc) c id = getDoc st c id.
Proof.
  destruct c, doc; simpl; try (by right); left; by rewrite lookup_insert_eq.
Qed.

Lemma getDoc_deleteDoc_other st c id c' id' :
  (c, id) <> (c', id') -> getDoc (deleteDoc st c id) c' id' = getDoc st c' id'.
Proof.
  intros Hne. destruct c, c'; simpl; try done;
    rewrite lookup_delete_ne; congruence.
Qed.

Lemma getDoc_deleteDoc_same st c id : getDoc (deleteDoc st c id) c id = None.
Proof. destruct c; simpl; by rewrite lookup_delete_eq. Qed.

Lemma getDoc_op_apply_other st o c id :
  (C o, Id o) <> (c, id) -> getDoc (op_apply st o) c id = getDoc st c id.
Proof.
  intros Hne. unfold op_apply. destruct (Remove o).
  - by apply getDoc_deleteDoc_other.
  - destruct (Insert o) as [doc|], (Update o) as [u|],
      (getDoc st (C o) (Id o)) as [d|]; try done;
      by apply getDoc_putDoc_other.
Qed.

(** The document under the key of a guarded operation, after it. *)
Lemma getDoc_op_apply_guarded st o doc0 :
  op_guarded o ->
  assert_holds (Assert o) (Some doc0) = true ->
  match getDoc st (C o) (Id o) with
  | None => True
  | Some d => Life_le (doc_Life doc0) (doc_Life d)
  end ->
  match getDoc (op_apply st o) (C o) (Id o) with
  | None => True
  | Some d => Life_le (doc_Life doc0) (doc_Life d)
  end.
Proof.
  intros Hg Ha Hinv. destruct (Hg doc0 Ha) as [Hins Hupd].
  unfold op_apply. destruct (Remove o).
  - by rewrite getDoc_deleteDoc_same.
  - rewrite Hins. destruct (Update o) as [u|]; [|done].
    destruct (getDoc st (C o) (Id o)) as [d|] eqn:Hd; [|by rewrite Hd].
    destruct (getDoc_putDoc_same st (C o) (Id o) (bump_revno (modify d u))) as [->| ->].
    + by apply Hupd.
    + by rewrite Hd.
Qed.

(** A transaction of guarded operations that is committed moves Life
    forward only. *)
Lemma txn_apply_forward st ops :
  txn_holds st ops = true -> Forall op_guarded ops ->
  life_forward st (txn_apply st ops).
Proof.
  intros Hholds Hg c id doc0 doc' H0. unfold txn_apply.
  assert (Hinv : match getDoc st c id with
                 | None => True
                 | Some d => Life_le (doc_Life doc0) (doc_Life d)
                 end) by (rewrite H0; apply Life_le_refl).
  assert (Hall : Forall (fun o => op_holds st o = true /\ op_guarded o) ops).
  { apply Forall_forall. intros o Ho. split.
    - unfold txn_holds in Hholds. rewrite forallb_forall in Hholds.
      apply Hholds. by apply list_elem_of_In.
    - rewrite Forall_forall in Hg. by apply Hg. }
  clear Hholds Hg. revert Hinv. generalize st at 1 2 as sti.
  induction Hall as [|o ops [Ho Hgo] _ IH]; intros sti Hinv; simpl.
  - intros H'. rewrite H' in Hinv. done.
  - apply IH. destruct (decide ((C o, Id o) = (c, id))) as [Heq|Hne].
    + injection Heq as <- <-. unfold op_holds in Ho. rewrite H0 in Ho.
      by apply getDoc_op_apply_guarded.
    + by rewrite getDoc_op_apply_other.
Qed.

(** A transaction of updates keeps the documents of the store. *)
Lemma txn_apply_same_docs st ops :
  Forall op_updates ops ->
  forall c id, getDoc st c id = None <-> getDoc (txn_apply st ops) c id = None.
Proof.
  intros Hu c id. unfold txn_apply. revert st.
  induction Hu as [|o ops [Hrem Hins] _ IH]; intros st; simpl; [done|].
  rewrite <- IH. destruct (decide ((C o, Id o) = (c, id))) as [Heq|Hne].
  - injection Heq as <- <-. unfold op_apply. rewrite Hrem, Hins.
    destruct (Update o) as [u|]; [|done].
    destruct (getDoc st (C o) (Id o)) as [d|] eqn:Hd; [|by rewrite Hd].
    destruct (getDoc_putDoc_same st (C o) (Id o) (bump_revno (modify d u))) as [->| ->];
      [done|by rewrite Hd].
  - by rewrite getDoc_op_apply_other.
Qed.

Lemma txn_apply_kept st ops :
  txn_holds st ops = true -> Forall op_guarded ops -> Forall op_updates ops ->
  life_kept st (txn_apply st ops).
Proof.
  intros. split; [by apply txn_apply_forward|by apply txn_apply_same_docs].
Qed.

(** *** The operations of the transactions of the service *)

Lemma guarded_neutral o :
  Insert o = None ->
  (forall u doc, Update o = Some u ->
                 doc_Life (bump_revno (modify doc u)) = doc_Life doc) ->
  op_guarded o.
Proof.
  intros Hins Hupd doc0 _. split; [done|].
  intros u doc Hu Hle. by rewrite (Hupd u doc Hu).
Qed.

Lemma set_life_result doc l :
  doc_Life (bump_revno (modify doc [("$set", BD [("life", BLife l)])])) = l.
Proof. by destruct doc. Qed.

Lemma holds_life doc q l :
  holds doc (("life", BLife l) :: q) = true -> doc_Life doc = l.
Proof.
  unfold holds. simpl. intros [H _]%andb_true_iff.
  destruct doc; simpl in H; by apply bool_decide_eq_true in H.
Qed.

Lemma service_dying_op_guarded name revno : op_guarded (service_dying_op name revno).
Proof.
  intros doc0 Ha. split; [done|]. intros u doc [= <-] _.
  rewrite set_life_result.
  change (holds doc0 [("life", BLife Alive); ("txn-revno", BInt revno)] = true) in Ha.
  rewrite (holds_life doc0 _ Alive Ha). apply Life_le_Alive.
Qed.

Lemma relation_dying_op_guarded key : op_guarded (relation_dying_op key).
Proof.
  intros doc0 Ha. split; [done|]. intros u doc [= <-] _.
  rewrite set_life_result.
  change (holds doc0 [("life", BLife Alive)] = true) in Ha.
  rewrite (holds_life doc0 _ Alive Ha). apply Life_le_Alive.
Qed.

Lemma EnsureDying_ops_guarded s rels :
  Forall op_guarded (EnsureDying_ops s rels) /\ Forall op_updates (EnsureDying_ops s rels).
Proof.
  rewrite EnsureDying_ops_shape. split.
  - constructor; [apply service_dying_op_guarded|].
    apply Forall_fmap, Forall_forall. intros r _. apply relation_dying_op_guarded.
  - constructor; [done|]. by apply Forall_fmap, Forall_forall.
Qed.

Lemma set_dead_op_guarded c id :
  op_guarded (mkOp c id NoAssert None (Some [("$set", BD [("life", BLife Dead)])]) false).
Proof.
  intros doc0 _. split; [done|]. intros u doc [= <-] _.
  rewrite set_life_result. apply Life_le_Dead.
Qed.

Lemma assert_only_guarded c id a : op_guarded (mkOp c id a None None false).
Proof. by apply guarded_neutral. Qed.

Lemma remove_op_guarded c id a : op_guarded (mkOp c id a None None true).
Proof. by apply guarded_neutral. Qed.

Lemma insert_op_guarded c id doc : op_guarded (mkOp c id DocMissing (Some doc) None false).
Proof. intros doc0 Ha. done. Qed.

Lemma set_exposed_op_guarded id a b :
  op_guarded (mkOp services id a None (Some [("$set", BD [("exposed", BBool b)])]) false).
Proof. apply guarded_neutral; [done|]. intros u doc [= <-]. by destruct doc. Qed.

Lemma set_charm_op_guarded id a url force :
  op_guarded (mkOp services id a None
                (Some [("$set", BD [("charmurl", BURL url); ("forcecharm", BBool force)])])
                false).
Proof. apply guarded_neutral; [done|]. intros u doc [= <-]. by destruct doc. Qed.

Lemma inc_unitcount_op_guarded c id a n :
  op_guarded (mkOp c id a None (Some [("$inc", BD [("unitcount", BInt n)])]) false).
Proof. apply guarded_neutral; [done|]. intros u doc [= <-]. by destruct doc. Qed.

Lemma addToSet_op_guarded c id a name :
  op_guarded (mkOp c id a None
                (Some [("$addToSet", BD [("subordinates", BStr name)])]) false).
Proof.
  apply guarded_neutral; [done|]. intros u doc [= <-].
  destruct doc as [d|d|d]; try done. simpl.
  by destruct (bool_decide (name ∈ unitDoc.Subordinates d)).
Qed.

Lemma pull_op_guarded c id a name :
  op_guarded (mkOp c id a None (Some [("$pull", BD [("subordinates", BStr name)])]) false).
Proof. apply guarded_neutral; [done|]. intros u doc [= <-]. by destruct doc. Qed.

Lemma RemoveUnit_ops_guarded u s : Forall op_guarded (RemoveUnit_ops u s).
Proof.
  unfold RemoveUnit_ops. destruct (bool_decide _); simpl;
    repeat (apply List.Forall_cons;
            [first [apply remove_op_guarded | apply inc_unitcount_op_guarded
                   | apply pull_op_guarded]|]);
    apply List.Forall_nil.
Qed.

(** *** The writes of this layer *)

Lemma life_kept_putDoc st c id old new :
  getDoc st c id = Some old ->
  Life_le (doc_Life old) (doc_Life new) ->
  life_kept st (putDoc st c id new).
Proof.
  intros Hold Hle. split.
  - intros c' id' d d' Hd Hd'.
    destruct (decide ((c, id) = (c', id'))) as [Heq|Hne].
    + injection Heq as <- <-.
      destruct (getDoc_putDoc_same st c id new) as [H|H]; rewrite H in Hd'.
      * injection Hd' as <-. rewrite Hold in Hd. by injection Hd as <-.
      * rewrite Hd in Hd'. injection Hd' as <-. apply Life_le_refl.
    + rewrite getDoc_putDoc_other in Hd' by done. rewrite Hd in Hd'.
      injection Hd' as <-. apply Life_le_refl.
  - intros c' id'. destruct (decide ((c, id) = (c', id'))) as [Heq|Hne].
    + injection Heq as <- <-.
      destruct (getDoc_putDoc_same st c id new) as [H|H]; rewrite H;
        [by rewrite Hold|done].
    + by rewrite getDoc_putDoc_other.
Qed.

Lemma ids_kept_refl st : ids_kept st st.
Proof. intros c id _. by destruct (getDoc st c id). Qed.

Lemma ids_kept_trans st1 st2 st3 :
  ids_kept st1 st2 -> ids_kept st2 st3 -> ids_kept st1 st3.
Proof.
  intros H12 H23 c id Hc. specialize (H12 c id Hc). specialize (H23 c id Hc).
  destruct (getDoc st1 c id), (getDoc st2 c id), (getDoc st3 c id); try done.
  congruence.
Qed.

Lemma life_forward_refl st : life_forward st st.
Proof. apply life_kept_refl. Qed.

Lemma layer_write_refl st : layer_write st st.
Proof. split; [apply life_forward_refl|apply ids_kept_refl]. Qed.

Lemma stays_refl st : stays st st.
Proof.
  split; [apply ids_kept_refl|]. intros c id doc doc' _ H1 H2.
  rewrite H1 in H2. injection H2 as <-. apply Life_le_refl.
Qed.

Lemma stays_trans st1 st2 st3 : stays st1 st2 -> stays st2 st3 -> stays st1 st3.
Proof.
  intros [I12 F12] [I23 F23]. split; [by eapply ids_kept_trans|].
  intros c id d1 d3 Hc H1 H3. specialize (I12 c id Hc). rewrite H1 in I12.
  destruct (getDoc st2 c id) as [d2|] eqn:H2; [|done].
  eapply Life_le_trans; [by eapply F12|by eapply F23].
Qed.

Lemma layer_write_stays st st' : layer_write st st' -> stays st st'.
Proof. intros [F I]. split; [done|]. intros c id doc doc' _. apply F. Qed.

Lemma foldl_inv {A B} (P : A -> Prop) (f : A -> B -> A) (l : list B) (a : A) :
  P a -> (forall a b, P a -> P (f a b)) -> P (foldl f a l).
Proof. intros Ha Hf. revert a Ha. induction l as [|b l IH]; simpl; auto. Qed.

Lemma doc_id_set_field doc f v : doc_id (set_field doc f v) = doc_id doc.
Proof. destruct doc, v; simpl; repeat case_decide; done. Qed.

Lemma doc_id_modify1 doc m arg : doc_id (modify1 doc m arg) = doc_id doc.
Proof.
  unfold modify1. destruct arg as [| | | | | | |fields]; try done.
  repeat case_decide; try done;
    apply (foldl_inv (fun d => doc_id d = doc_id doc)); try done;
    intros d [f v] Hd; simpl; repeat case_match; by rewrite ?doc_id_set_field.
Qed.

Lemma doc_id_modify doc u : doc_id (modify doc u) = doc_id doc.
Proof.
  unfold modify. apply (foldl_inv (fun d => doc_id d = doc_id doc)); [done|].
  intros d [m arg] Hd. simpl. by rewrite doc_id_modify1.
Qed.

Lemma doc_id_bump_revno doc : doc_id (bump_revno doc) = doc_id doc.
Proof. by destruct doc. Qed.

Lemma op_apply_ids_kept st o : op_keeps o -> ids_kept st (op_apply st o).
Proof.
  intros Ho c id Hc. destruct (decide ((C o, Id o) = (c, id))) as [Heq|Hne].
  - injection Heq as <- <-. destruct Ho as [Hu|[Hrem Hins]]; [done|].
    unfold op_apply. rewrite Hrem, Hins.
    destruct (getDoc st (C o) (Id o)) as [d|] eqn:Hd.
    + destruct (Update o) as [u|]; [|by rewrite Hd].
      destruct (getDoc_putDoc_same st (C o) (Id o) (bump_revno (modify d u)))
        as [-> | ->].
      * by rewrite doc_id_bump_revno, doc_id_modify.
      * by rewrite Hd.
    + destruct (Update o) as [u|]; by rewrite Hd.
  - rewrite getDoc_op_apply_other by done. by destruct (getDoc st c id).
Qed.

Lemma txn_apply_ids_kept st ops :
  Forall op_keeps ops -> ids_kept st (txn_apply st ops).
Proof.
  intros Hk. unfold txn_apply. revert st.
  induction Hk as [|o ops Ho _ IH]; intros st; simpl; [apply ids_kept_refl|].
  eapply ids_kept_trans; [by apply op_apply_ids_kept|apply IH].
Qed.

(** A transaction of this layer that is committed makes a write of this
    layer. *)
Lemma txn_layer_write st ops :
  txn_holds st ops = true -> Forall op_guarded ops -> Forall op_keeps ops ->
  layer_write st (txn_apply st ops).
Proof.
  intros Hh Hg Hk. split; [by apply txn_apply_forward|by apply txn_apply_ids_kept].
Qed.

(** The write of a transaction by another writer: it is committed when its
    assertions hold, and leaves the store as it is otherwise. *)
Lemma txn_layer_env st ops :
  Forall op_guarded ops -> Forall op_keeps ops ->
  layer_write st (if txn_holds st ops then txn_apply st ops else st).
Proof.
  intros Hg Hk. destruct (txn_holds st ops) eqn:Hh;
    [by apply txn_layer_write|apply layer_write_refl].
Qed.

Lemma putDoc_layer_write st id d d' :
  st_services st !! id = Some d ->
  serviceDoc.Name d' = serviceDoc.Name d ->
  serviceDoc.Life d' = serviceDoc.Life d ->
  layer_write st (putDoc st services id (ServiceDoc d')).
Proof.
  intros Hd Hn Hl. split.
  - apply (life_kept_putDoc st services id (ServiceDoc d) (ServiceDoc d')).
    + unfold getDoc. by rewrite Hd.
    + simpl. rewrite Hl. apply Life_le_refl.
  - intros c id' Hc. destruct (decide ((services, id) = (c, id'))) as [Heq|Hne].
    + injection Heq as <- <-. simpl. rewrite lookup_insert_eq, Hd. done.
    + rewrite getDoc_putDoc_other by done. by destruct (getDoc st c id').
Qed.

(** *** The accesses to the store *)

Lemma layer_run_trans w1 w2 w3 : layer_run w1 w2 -> layer_run w2 w3 -> layer_run w1 w3.
Proof.
  intros H12. revert w3.
  induction H12 as [|w r wa wb ev wc Ha Hw Hs Hch Hlog _ IH]; [done|].
  intros w3 H23.
  eapply layer_run_access; [exact Ha|exact Hw|exact Hs|exact Hch|exact Hlog|by apply IH].
Qed.

(** An access that writes [st'] and logs [ev]. *)
Lemma layer_run_step w r w1 ev st' :
  arrive w = (r, w1) -> layer_write (store w1) st' ->
  layer_run w (record ev (set_store st' w1)).
Proof.
  intros Ha Hw.
  apply (layer_run_access w r w1 (record ev (set_store st' w1)) ev); try done.
  apply layer_run_refl.
Qed.

(** An access that leaves the store as it is. *)
Lemma layer_run_read w r w1 ev : arrive w = (r, w1) -> layer_run w (record ev w1).
Proof.
  intros Ha.
  apply (layer_run_access w r w1 (record ev w1) ev); try done;
    [apply layer_write_refl|apply layer_run_refl].
Qed.

Lemma Run_layer ops w :
  Forall op_guarded ops -> Forall op_keeps ops -> layer_run w (Run ops w).2.
Proof.
  intros Hg Hk. unfold Run. destruct (arrive w) as [[e|] w1] eqn:Ha; simpl.
  - by eapply layer_run_read.
  - destruct (txn_holds (store w1) ops) eqn:Hh; simpl.
    + eapply layer_run_step; [exact Ha|]. by apply txn_layer_write.
    + by eapply layer_run_read.
Qed.

(** What a committed Run has done. *)
Lemma Run_commit ops w w2 :
  Run ops w = (None, w2) ->
  exists w1,
    arrive w = (None, w1) /\ txn_holds (store w1) ops = true /\
    store w2 = txn_apply (store w1) ops /\ script w2 = script w1.
Proof.
  unfold Run. destruct (arrive w) as [[e|] w1] eqn:Ha; [done|].
  destruct (txn_holds (store w1) ops) eqn:Hh; [|done].
  intros [= <-]. by exists w1.
Qed.

Lemma FindId_One_layer c id w : layer_run w (FindId_One c id w).2.
Proof.
  unfold FindId_One. destruct (arrive w) as [[e|] w1] eqn:Ha; simpl.
  - by eapply layer_run_read.
  - destruct (getDoc (store w1) c id); simpl; by eapply layer_run_read.
Qed.

Lemma FindId_Count_layer c id w : layer_run w (FindId_Count c id w).2.
Proof.
  unfold FindId_Count. destruct (arrive w) as [[e|] w1] eqn:Ha; simpl;
    by eapply layer_run_read.
Qed.

Lemma getAlive_layer c id w : layer_run w (getAlive c id w).2.
Proof.
  unfold getAlive. destruct (arrive w) as [[e|] w1] eqn:Ha; simpl;
    by eapply layer_run_read.
Qed.

Lemma Relations_layer s w : layer_run w (Relations s w).2.
Proof.
  unfold Relations. destruct (arrive w) as [[e|] w1] eqn:Ha; simpl;
    by eapply layer_run_read.
Qed.

Lemma Service_Unit_layer IsUnitName s name w :
  layer_run w (Service_Unit IsUnitName s name w).2.
Proof.
  unfold Service_Unit. destruct (negb (IsUnitName name)); [apply layer_run_refl|].
  destruct (arrive w) as [[e|] w1] eqn:Ha; simpl; [by eapply layer_run_read|].
  destruct (st_units (store w1) !! name) as [ud|]; [|by eapply layer_run_read].
  destruct (bool_decide _); by eapply layer_run_read.
Qed.

Lemma newUnitName_layer s w : layer_run w (newUnitName s w).2.
Proof.
  unfold newUnitName, Apply. destruct (arrive w) as [[e|] w1] eqn:Ha; simpl.
  - by eapply layer_run_read.
  - destruct (st_services (store w1) !! serviceDoc.Name s) as [d|] eqn:Hd; simpl.
    + eapply layer_run_step; [exact Ha|].
      by apply (putDoc_layer_write (store w1) (serviceDoc.Name s) d).
    + by eapply layer_run_read.
Qed.

End life_facts.

(** ** Life moves forward in every operation *)

Section operations_forward.

Import state.

Variable IsUnitName : string -> bool.

(** *** Every write of every operation is a write of this layer *)

Lemma Refresh_layer s w : layer_run w (Refresh s w).2.
Proof.
  pose proof (FindId_One_layer services (serviceDoc.Name s) w) as H.
  unfold Refresh. destruct (FindId_One services (serviceDoc.Name s) w) as [[doc|e] w1].
  - by destruct doc.
  - by destruct e.
Qed.

Lemma EnsureDying_ops_keeps s rels : Forall op_keeps (EnsureDying_ops s rels).
Proof.
  rewrite EnsureDying_ops_shape. constructor; [by right|].
  apply Forall_fmap, Forall_forall. intros r _. by right.
Qed.

Lemma EnsureDying_layer fuel s w : layer_run w (EnsureDying fuel s w).2.
Proof.
  revert s w. induction fuel as [|fuel IH]; intros s w; simpl.
  - destruct (decide _) as [Hlife|Hlife]; apply layer_run_refl.
  - destruct (decide (serviceDoc.Life s = Alive)) as [Hlife|Hlife];
      [|apply layer_run_refl].
    pose proof (Relations_layer s w) as Hr.
    destruct (Relations s w) as [[rels|err] w1]; simpl in *; [|done].
    destruct (decide _) as [Hcnt|Hcnt].
    + pose proof (Refresh_layer s w1) as Hf.
      destruct (Refresh s w1) as [[[err|] s1] w2]; simpl in *.
      * by eapply layer_run_trans.
      * eapply layer_run_trans; [exact Hr|].
        eapply layer_run_trans; [exact Hf|]. apply IH.
    + destruct (EnsureDying_ops_guarded s rels) as [Hg _].
      pose proof (Run_layer (EnsureDying_ops s rels) w1 Hg (EnsureDying_ops_keeps s rels))
        as Hrun.
      destruct (Run (EnsureDying_ops s rels) w1) as [[err|] w2]; simpl in *.
      * assert (Hw2 : layer_run w w2) by (by eapply layer_run_trans).
        destruct err; try done.
        pose proof (Refresh_layer s w2) as Hf.
        destruct (Refresh s w2) as [[[err|] s1] w3]; simpl in *.
        -- by eapply layer_run_trans.
        -- eapply layer_run_trans; [exact Hw2|].
           eapply layer_run_trans; [exact Hf|]. apply IH.
      * eapply layer_run_trans; [exact Hr|].
        eapply layer_run_trans; [exact Hrun|]. apply IH.
Qed.

Lemma ensureDead_layer c id desc c' id' a msg w :
  layer_run w (ensureDead c id desc [mkOp c' id' a None None false] msg w).2.
Proof.
  unfold ensureDead. simpl.
  match goal with |- context [Run ?ops w] =>
    assert (Hk : layer_run w (Run ops w).2);
    [|destruct (Run ops w) as [[e|] w1]; [by destruct e|done]]
  end.
  apply Run_layer.
  - apply List.Forall_cons; [apply assert_only_guarded|].
    apply List.Forall_cons; [apply set_dead_op_guarded|apply List.Forall_nil].
  - apply List.Forall_cons; [by right|].
    apply List.Forall_cons; [by right|apply List.Forall_nil].
Qed.

Lemma advance_op_guarded c id l l' : Life_le l l' -> op_guarded (advance_op c id l l').
Proof.
  intros Hle doc0 Ha. split; [done|]. intros u doc [= <-] _.
  rewrite set_life_result.
  change (holds doc0 [("life", BLife l)] = true) in Ha.
  by rewrite (holds_life doc0 _ l Ha).
Qed.

(** The shared helper and the operation that advances a Life, for an
    entity of any kind. *)
Lemma ensureDead_any_layer c id desc asserts msg w :
  layer_run w (ensureDead c id desc (assert_ops asserts) msg w).2.
Proof.
  unfold ensureDead.
  match goal with |- context [Run ?ops w] =>
    assert (Hk : layer_run w (Run ops w).2);
    [|destruct (Run ops w) as [[e|] w1]; [by destruct e|done]]
  end.
  apply Run_layer.
  - apply Forall_app. split.
    + apply Forall_fmap, Forall_forall. intros a _. apply assert_only_guarded.
    + apply List.Forall_cons; [apply set_dead_op_guarded|apply List.Forall_nil].
  - apply Forall_app. split.
    + apply Forall_fmap, Forall_forall. intros a _. by right.
    + apply List.Forall_cons; [by right|apply List.Forall_nil].
Qed.

Lemma advance_layer c id l l' w :
  Life_le l l' -> layer_run w (Run [advance_op c id l l'] w).2.
Proof.
  intros Hle. apply Run_layer.
  - apply List.Forall_cons; [by apply advance_op_guarded|apply List.Forall_nil].
  - apply List.Forall_cons; [by right|apply List.Forall_nil].
Qed.

Lemma EnsureDead_layer s w : layer_run w (EnsureDead s w).2.
Proof.
  unfold EnsureDead, EnsureDead_with.
  match goal with |- context [ensureDead ?c ?id ?desc ?ops ?msg w] =>
    pose proof (ensureDead_layer c id desc services id
                  (AssertD [("unitcount", BInt 0); ("relationcount", BInt 0)]) msg w) as Hk;
    destruct (ensureDead c id desc ops msg w) as [[e|] w1]
  end; done.
Qed.

Lemma setExposed_layer exposed s w : layer_run w (setExposed exposed s w).2.
Proof.
  unfold setExposed.
  match goal with |- context [Run ?ops w] =>
    assert (Hk : layer_run w (Run ops w).2);
    [|by destruct (Run ops w) as [[e|] w1]]
  end.
  apply Run_layer.
  - apply List.Forall_cons; [apply set_exposed_op_guarded|apply List.Forall_nil].
  - apply List.Forall_cons; [by right|apply List.Forall_nil].
Qed.

Lemma SetCharm_layer ch force s w : layer_run w (SetCharm ch force s w).2.
Proof.
  unfold SetCharm.
  match goal with |- context [Run ?ops w] =>
    assert (Hk : layer_run w (Run ops w).2);
    [|by destruct (Run ops w) as [[e|] w1]]
  end.
  apply Run_layer.
  - apply List.Forall_cons; [apply set_charm_op_guarded|apply List.Forall_nil].
  - apply List.Forall_cons; [by right|apply List.Forall_nil].
Qed.

(** The accesses of addUnitOps, and the operations it returns. *)
Lemma addUnitOps_layer principalName strict s w :
  layer_run w (addUnitOps principalName strict s w).2 /\
  match (addUnitOps principalName strict s w).1 with
  | inl (_, ops) => Forall op_guarded ops /\ Forall op_keeps ops
  | inr _ => True
  end.
Proof.
  unfold addUnitOps.
  destruct (Service_Charm s w) as [[ch f]|e]; [|split; [apply layer_run_refl|done]].
  destruct (_ && _); [split; [apply layer_run_refl|done]|].
  destruct (_ && _); [split; [apply layer_run_refl|done]|].
  pose proof (newUnitName_layer s w) as Hk.
  destruct (newUnitName s w) as [[name|e] w1]; simpl in *; [|done].
  split; [done|].
  destruct (bool_decide (principalName ≠ "")); simpl; split;
    repeat (apply List.Forall_cons;
            [first [apply insert_op_guarded | apply inc_unitcount_op_guarded
                   | apply addToSet_op_guarded | by left | by right]|]);
    apply List.Forall_nil.
Qed.

Lemma AddUnit_layer s w : layer_run w (AddUnit IsUnitName s w).2.
Proof.
  unfold AddUnit. destruct (addUnitOps_layer "" false s w) as [Hk Hg].
  destruct (addUnitOps "" false s w) as [[[name ops]|e] w1]; simpl in *; [|done].
  destruct Hg as [Hg Hkeep].
  pose proof (Run_layer ops w1 Hg Hkeep) as Hrun.
  assert (Hw2 : layer_run w (Run ops w1).2) by (by eapply layer_run_trans).
  destruct (Run ops w1) as [[e|] w2]; simpl in *.
  - destruct e; try done.
    pose proof (getAlive_layer services (serviceDoc.Name s) w2) as Hga.
    destruct (getAlive services (serviceDoc.Name s) w2) as [[alive [e|]] w3]; simpl in *.
    + by eapply layer_run_trans.
    + destruct (negb alive); by eapply layer_run_trans.
  - pose proof (Service_Unit_layer IsUnitName s name w2) as Hu.
    destruct (Service_Unit IsUnitName s name w2) as [[unit|e] w3]; simpl in *;
      by eapply layer_run_trans.
Qed.

Lemma AddUnitSubordinateTo_layer principal s w :
  layer_run w (AddUnitSubordinateTo IsUnitName principal s w).2.
Proof.
  unfold AddUnitSubordinateTo.
  destruct (Service_Charm s w) as [[ch f]|e]; [|apply layer_run_refl].
  destruct (negb (charm.Subordinate _)); [apply layer_run_refl|].
  destruct (negb (IsPrincipal _)); [apply layer_run_refl|].
  destruct (addUnitOps_layer (unitDoc.Name principal) false s w) as [Hk Hg].
  destruct (addUnitOps (unitDoc.Name principal) false s w) as [[[name ops]|e] w1];
    simpl in *; [|done].
  destruct Hg as [Hg Hkeep].
  pose proof (Run_layer ops w1 Hg Hkeep) as Hrun.
  assert (Hw2 : layer_run w (Run ops w1).2) by (by eapply layer_run_trans).
  destruct (Run ops w1) as [[e|] w2]; simpl in *.
  - destruct e; try done.
    pose proof (getAlive_layer services (serviceDoc.Name s) w2) as Hga.
    destruct (getAlive services (serviceDoc.Name s) w2) as [[alive [e|]] w3]; simpl in *.
    + by eapply layer_run_trans.
    + assert (Hw3 : layer_run w w3) by (by eapply layer_run_trans).
      destruct (negb alive); [done|].
      pose proof (getAlive_layer units (unitDoc.Name principal) w3) as Hgu.
      destruct (getAlive units (unitDoc.Name principal) w3) as [[alive' [e|]] w4];
        simpl in *.
      * by eapply layer_run_trans.
      * destruct (negb alive'); by eapply layer_run_trans.
  - pose proof (Service_Unit_layer IsUnitName s name w2) as Hu.
    destruct (Service_Unit IsUnitName s name w2) as [[unit|e] w3]; simpl in *;
      by eapply layer_run_trans.
Qed.

Lemma set_machine_op_guarded id a m :
  op_guarded (mkOp units id a None (Some [("$set", BD [("machineid", BStr m)])]) false).
Proof. apply guarded_neutral; [done|]. intros u doc [= <-]. by destruct doc. Qed.

(** The unassignment writes as this layer does, and leaves the cached Life
    of the unit as it is. *)
Lemma Unit_UnassignFromMachine_layer u w :
  layer_run w (Unit_UnassignFromMachine u w).2 /\
  unitDoc.Life (Unit_UnassignFromMachine u w).1.2 = unitDoc.Life u.
Proof.
  unfold Unit_UnassignFromMachine.
  match goal with |- context [Run ?ops w] =>
    assert (Hk : layer_run w (Run ops w).2);
    [|by destruct (Run ops w) as [[e|] w1]]
  end.
  apply Run_layer.
  - apply List.Forall_cons; [apply set_machine_op_guarded|apply List.Forall_nil].
  - apply List.Forall_cons; [by left|apply List.Forall_nil].
Qed.

Lemma RemoveUnit_ops_keeps u s : Forall op_keeps (RemoveUnit_ops u s).
Proof.
  unfold RemoveUnit_ops. destruct (bool_decide _); simpl;
    repeat (apply List.Forall_cons; [first [by left | by right]|]);
    apply List.Forall_nil.
Qed.

Lemma RemoveUnit_run_layer u s w : layer_run w (RemoveUnit_run u s w).2.
Proof.
  unfold RemoveUnit_run.
  pose proof (Run_layer (RemoveUnit_ops u s) w (RemoveUnit_ops_guarded u s)
                (RemoveUnit_ops_keeps u s)) as Hrun.
  destruct (Run (RemoveUnit_ops u s) w) as [[e|] w1]; simpl in *; [|done].
  pose proof (FindId_Count_layer units (unitDoc.Name u) w1) as Hc.
  destruct (FindId_Count units (unitDoc.Name u) w1) as [[c|e'] w2]; simpl in *.
  - destruct (bool_decide (0 < c)); by eapply layer_run_trans.
  - by eapply layer_run_trans.
Qed.

Lemma RemoveUnit_layer u s w :
  layer_run w (RemoveUnit Unit_UnassignFromMachine u s w).2 /\
  unitDoc.Life (RemoveUnit Unit_UnassignFromMachine u s w).1.2 = unitDoc.Life u.
Proof.
  unfold RemoveUnit.
  destruct (bool_decide (unitDoc.Life u ≠ Dead)); [split; [apply layer_run_refl|done]|].
  destruct (bool_decide (unitDoc.Service u ≠ serviceDoc.Name s));
    [split; [apply layer_run_refl|done]|].
  assert (Hun : forall r,
             r = (if bool_decide (unitDoc.MachineId u ≠ "")
                  then Unit_UnassignFromMachine u w else (None, u, w)) ->
             layer_run w r.2 /\ unitDoc.Life r.1.2 = unitDoc.Life u).
  { intros r ->. destruct (bool_decide _).
    - apply Unit_UnassignFromMachine_layer.
    - split; [apply layer_run_refl|done]. }
  specialize (Hun _ eq_refl).
  destruct (if bool_decide (unitDoc.MachineId u ≠ "")
            then Unit_UnassignFromMachine u w else (None, u, w)) as [[err u1] w1].
  simpl in Hun. destruct Hun as [Hk Hl].
  destruct err as [e|]; simpl; [done|].
  pose proof (RemoveUnit_run_layer u1 s w1) as Hr.
  destruct (RemoveUnit_run u1 s w1) as [err w2]; simpl in *.
  split; [by eapply layer_run_trans|done].
Qed.

Lemma perform_layer o s w :
  layer_run w (perform IsUnitName Unit_UnassignFromMachine o s w).2.
Proof.
  destruct o; simpl.
  - pose proof (Refresh_layer s w) as H. by destruct (Refresh s w) as [[r s1] w1].
  - pose proof (EnsureDying_layer fuel s w) as H.
    by destruct (EnsureDying fuel s w) as [[r s1] w1].
  - pose proof (EnsureDead_layer s w) as H. by destruct (EnsureDead s w) as [[r s1] w1].
  - pose proof (setExposed_layer true s w) as H. unfold SetExposed.
    by destruct (setExposed true s w) as [[r s1] w1].
  - pose proof (setExposed_layer false s w) as H. unfold ClearExposed.
    by destruct (setExposed false s w) as [[r s1] w1].
  - pose proof (SetCharm_layer ch force s w) as H.
    by destruct (SetCharm ch force s w) as [[r s1] w1].
  - apply AddUnit_layer.
  - apply AddUnitSubordinateTo_layer.
  - apply RemoveUnit_layer.
Qed.

(** *** Among writers of this layer *)

Lemma arrive_env w r w1 :
  arrive w = (r, w1) -> layer_env (script w) ->
  stays (store w) (store w1) /\ layer_env (script w1).
Proof.
  unfold arrive, layer_env. destruct (script w) as [|[change|msg] rest] eqn:Hsc.
  - intros [= <- <-] He. rewrite Hsc. split; [apply stays_refl|done].
  - intros [= <- <-] He. inversion He as [|? ? H1 H2]; subst. simpl.
    split; [apply layer_write_stays, H1|done].
  - intros [= <- <-] He. inversion He as [|? ? H1 H2]; subst. simpl.
    split; [apply stays_refl|done].
Qed.

Lemma layer_run_env w w' :
  layer_run w w' -> layer_env (script w) ->
  stays (store w) (store w') /\ layer_env (script w').
Proof.
  induction 1 as [w|w r w1 w2 ev w3 Ha Hw Hs _ _ _ IH]; intros He.
  - split; [apply stays_refl|done].
  - destruct (arrive_env w r w1 Ha He) as [S1 E1].
    rewrite <- Hs in E1. destruct (IH E1) as [S3 E3].
    split; [|done].
    eapply stays_trans; [exact S1|].
    eapply stays_trans; [by apply layer_write_stays|exact S3].
Qed.

Lemma cache_ok_stays s st st' : cache_ok s st -> stays st st' -> cache_ok s st'.
Proof.
  intros Hc [Hids Hlife] d' Hd'.
  specialize (Hids services (serviceDoc.Name s)).
  specialize (Hlife services (serviceDoc.Name s)).
  unfold getDoc in Hids, Hlife. rewrite Hd' in Hids, Hlife.
  destruct (st_services st !! serviceDoc.Name s) as [d|] eqn:Hd; simpl in *;
    [|by destruct Hids].
  destruct (Hc d Hd) as [Hn Hl]. split.
  - assert (Hi : serviceDoc.Name d' = serviceDoc.Name d) by (by apply Hids).
    congruence.
  - eapply Life_le_trans; [exact Hl|]. by apply (Hlife (ServiceDoc d) (ServiceDoc d')).
Qed.

Lemma cache_ok_same s s' st :
  serviceDoc.Name s' = serviceDoc.Name s -> serviceDoc.Life s' = serviceDoc.Life s ->
  cache_ok s st -> cache_ok s' st.
Proof. intros Hn Hl Hc d. rewrite Hn, Hl. apply Hc. Qed.

(** The cached document after an operation that leaves its name and its
    Life as they are. *)
Lemma cache_kept s s' w w' :
  layer_run w w' ->
  serviceDoc.Name s' = serviceDoc.Name s -> serviceDoc.Life s' = serviceDoc.Life s ->
  layer_env (script w) -> cache_ok s (store w) ->
  cache_ok s' (store w') /\ Life_le (serviceDoc.Life s) (serviceDoc.Life s').
Proof.
  intros Hrun Hn Hl He Hc. destruct (layer_run_env w w' Hrun He) as [Hs _].
  split; [|rewrite Hl; apply Life_le_refl].
  eapply cache_ok_same; [exact Hn|exact Hl|]. by eapply cache_ok_stays.
Qed.

Lemma Refresh_cache s w :
  layer_env (script w) -> cache_ok s (store w) ->
  cache_ok (Refresh s w).1.2 (store (Refresh s w).2) /\
  Life_le (serviceDoc.Life s) (serviceDoc.Life (Refresh s w).1.2).
Proof.
  intros He Hc. unfold Refresh, FindId_One.
  destruct (arrive w) as [[e|] w1] eqn:Ha;
    destruct (arrive_env w _ w1 Ha He) as [Hs _];
    pose proof (cache_ok_stays s _ _ Hc Hs) as Hc1.
  - destruct e; simpl; (split; [done|apply Life_le_refl]).
  - unfold getDoc.
    destruct (st_services (store w1) !! serviceDoc.Name s) as [d|] eqn:Hd; simpl;
      [|split; [done|apply Life_le_refl]].
    destruct (Hc1 d Hd) as [Hn Hl]. split; [|done].
    intros d0. rewrite Hn, Hd. intros [= <-]. split; [done|apply Life_le_refl].
Qed.

Lemma EnsureDying_cache fuel s w :
  layer_env (script w) -> cache_ok s (store w) ->
  cache_ok (EnsureDying fuel s w).1.2 (store (EnsureDying fuel s w).2) /\
  Life_le (serviceDoc.Life s) (serviceDoc.Life (EnsureDying fuel s w).1.2).
Proof.
  revert s w. induction fuel as [|fuel IH]; intros s w He Hc.
  - simpl. destruct (decide _); simpl; (split; [done|apply Life_le_refl]).
  - destruct (decide (serviceDoc.Life s = Alive)) as [Hlife|Hlife];
      [|rewrite EnsureDying_not_Alive by done; simpl; split; [done|apply Life_le_refl]].
    assert (Hrefresh : forall w0,
      layer_run w w0 ->
      cache_ok (match Refresh s w0 with
                | (Some err, s1, w2) => (Some (Some err), s1, w2)
                | (None, s1, w2) => EnsureDying fuel s1 w2
                end).1.2
               (store (match Refresh s w0 with
                       | (Some err, s1, w2) => (Some (Some err), s1, w2)
                       | (None, s1, w2) => EnsureDying fuel s1 w2
                       end).2) /\
      Life_le (serviceDoc.Life s)
        (serviceDoc.Life (match Refresh s w0 with
                          | (Some err, s1, w2) => (Some (Some err), s1, w2)
                          | (None, s1, w2) => EnsureDying fuel s1 w2
                          end).1.2)).
    { intros w0 Hrun0. destruct (layer_run_env w w0 Hrun0 He) as [Hs0 He0].
      pose proof (cache_ok_stays s _ _ Hc Hs0) as Hc0.
      destruct (Refresh_cache s w0 He0 Hc0) as [Hc2 Hl2].
      pose proof (Refresh_layer s w0) as Hrun2.
      destruct (layer_run_env w0 _ Hrun2 He0) as [_ He2].
      destruct (Refresh s w0) as [[[err|] s1] w2]; simpl in *; [done|].
      destruct (IH s1 w2 He2 Hc2) as [Hc3 Hl3].
      split; [done|by eapply Life_le_trans]. }
    simpl. rewrite decide_True by done.
    pose proof (Relations_layer s w) as Hr.
    destruct (Relations s w) as [[rels|err] w1]; simpl in Hr |- *.
    2:{ destruct (layer_run_env w w1 Hr He) as [Hs1 _].
        split; [by eapply cache_ok_stays|apply Life_le_refl]. }
    destruct (decide _) as [Hcnt|Hcnt]; [by apply Hrefresh|].
    destruct (EnsureDying_ops_guarded s rels) as [Hg _].
    pose proof (Run_layer (EnsureDying_ops s rels) w1 Hg (EnsureDying_ops_keeps s rels))
      as Hrun.
    destruct (Run (EnsureDying_ops s rels) w1) as [[err|] w2] eqn:HRun; simpl in Hrun.
    + assert (Hw2 : layer_run w w2) by (by eapply layer_run_trans).
      destruct err; try (by apply Hrefresh);
        simpl; destruct (layer_run_env w w2 Hw2 He) as [Hs2 _];
        (split; [by eapply cache_ok_stays|apply Life_le_refl]).
    + destruct (Run_commit _ _ _ HRun) as (w1' & Ha & Hh & Hst & Hsc).
      destruct (layer_run_env w w1 Hr He) as [Hs1 He1].
      destruct (arrive_env w1 _ w1' Ha He1) as [Hs1' He1'].
      assert (Hc1' : cache_ok s (store w1'))
        by (eapply cache_ok_stays; [|exact Hs1'];
            by eapply cache_ok_stays).
      assert (Hc2 : cache_ok (serviceDoc.set_Life Dying s) (store w2)).
      { intros d'. rewrite Hst.
        destruct (txn_apply_EnsureDying_ops (store w1') s rels) as (Hsv & _ & _).
        simpl. rewrite Hsv, lookup_alter. rewrite decide_True by done.
        destruct (st_services (store w1') !! serviceDoc.Name s) as [d|] eqn:Hd; [|done].
        simpl. intros [= <-]. simpl. split; [by apply (Hc1' d)|apply Life_le_refl]. }
      assert (He2 : layer_env (script w2)) by (by rewrite Hsc).
      destruct (IH _ w2 He2 Hc2) as [Hc3 Hl3]. split; [done|].
      rewrite Hlife. apply Life_le_Alive.
Qed.

Lemma EnsureDead_cache s w :
  layer_env (script w) -> cache_ok s (store w) ->
  cache_ok (EnsureDead s w).1.2 (store (EnsureDead s w).2) /\
  Life_le (serviceDoc.Life s) (serviceDoc.Life (EnsureDead s w).1.2).
Proof.
  intros He Hc. unfold EnsureDead, EnsureDead_with, ensureDead. simpl.
  match goal with |- context [Run ?ops w] =>
    assert (Hrun : layer_run w (Run ops w).2);
    [|destruct (Run ops w) as [[e|] w1] eqn:HRun]
  end.
  - apply Run_layer.
    + apply List.Forall_cons; [apply assert_only_guarded|].
      apply List.Forall_cons; [apply set_dead_op_guarded|apply List.Forall_nil].
    + apply List.Forall_cons; [by right|].
      apply List.Forall_cons; [by right|apply List.Forall_nil].
  - simpl in Hrun. destruct (layer_run_env w w1 Hrun He) as [Hs _].
    pose proof (cache_ok_stays s _ _ Hc Hs) as Hc1.
    destruct e; simpl; (split; [done|apply Life_le_refl]).
  - simpl. split; [|apply Life_le_Dead].
    destruct (Run_commit _ _ _ HRun) as (w0 & Ha & _ & Hst & _).
    destruct (arrive_env w _ w0 Ha He) as [Hs0 _].
    pose proof (cache_ok_stays s _ _ Hc Hs0) as Hc0.
    intros d'. rewrite Hst. unfold txn_apply, op_apply, getDoc. simpl.
    destruct (st_services (store w0) !! serviceDoc.Name s) as [d|] eqn:Hd; simpl.
    + rewrite lookup_insert_eq. intros [= <-]. simpl.
      split; [by apply (Hc0 d)|apply Life_le_refl].
    + by rewrite Hd.
Qed.

Lemma perform_cache o s w :
  layer_env (script w) -> cache_ok s (store w) ->
  cache_ok (perform IsUnitName Unit_UnassignFromMachine o s w).1
           (store (perform IsUnitName Unit_UnassignFromMachine o s w).2) /\
  Life_le (serviceDoc.Life s)
          (serviceDoc.Life (perform IsUnitName Unit_UnassignFromMachine o s w).1).
Proof.
  intros He Hc. pose proof (perform_layer o s w) as Hrun. revert Hrun.
  destruct o; simpl.
  - intros _. pose proof (Refresh_cache s w He Hc) as H.
    by destruct (Refresh s w) as [[r s1] w1].
  - intros _. pose proof (EnsureDying_cache fuel s w He Hc) as H.
    by destruct (EnsureDying fuel s w) as [[r s1] w1].
  - intros _. pose proof (EnsureDead_cache s w He Hc) as H.
    by destruct (EnsureDead s w) as [[r s1] w1].
  - unfold SetExposed, setExposed.
    match goal with |- context [Run ?ops w] =>
      destruct (Run ops w) as [[e|] w1]
    end; cbn [fst snd]; intros Hrun; by apply (cache_kept s _ w _ Hrun).
  - unfold ClearExposed, setExposed.
    match goal with |- context [Run ?ops w] =>
      destruct (Run ops w) as [[e|] w1]
    end; cbn [fst snd]; intros Hrun; by apply (cache_kept s _ w _ Hrun).
  - unfold SetCharm.
    match goal with |- context [Run ?ops w] =>
      destruct (Run ops w) as [[e|] w1]
    end; cbn [fst snd]; intros Hrun; by apply (cache_kept s _ w _ Hrun).
  - intros Hrun; by apply (cache_kept s _ w _ Hrun).
  - intros Hrun; by apply (cache_kept s _ w _ Hrun).
  - intros Hrun; by apply (cache_kept s _ w _ Hrun).
Qed.

Lemma run_layer os s w :
  layer_run w (run IsUnitName Unit_UnassignFromMachine os s w).2.
Proof.
  revert s w. induction os as [|o os IH]; intros s w; simpl; [apply layer_run_refl|].
  pose proof (perform_layer o s w) as H.
  destruct (perform IsUnitName Unit_UnassignFromMachine o s w) as [s1 w1].
  eapply layer_run_trans; [exact H|apply IH].
Qed.

Lemma run_cache os s w :
  layer_env (script w) -> cache_ok s (store w) ->
  Life_le (serviceDoc.Life s)
          (serviceDoc.Life (run IsUnitName Unit_UnassignFromMachine os s w).1).
Proof.
  revert s w. induction os as [|o os IH]; intros s w He Hc; simpl;
    [apply Life_le_refl|].
  pose proof (perform_layer o s w) as Hrun.
  destruct (perform_cache o s w He Hc) as [Hc1 Hl1].
  destruct (perform IsUnitName Unit_UnassignFromMachine o s w) as [s1 w1].
  simpl in *. destruct (layer_run_env w w1 Hrun He) as [_ He1].
  eapply Life_le_trans; [exact Hl1|by apply IH].
Qed.

(** C4. Life moves forward only, as an invariant of the runs of the
    operations of the service (Refresh, EnsureDying, EnsureDead,
    SetExposed, ClearExposed, SetCharm, AddUnit, AddUnitSubordinateTo and
    RemoveUnit with the unassignment it waits for), one after the other in
    any number and any order, on any cached document, in any store and
    among any other writers. Every access of the run to the store, made
    after the other writers have had their turn and logged as one event,
    leaves the store as it is or makes a write in which no document of a
    service, of a unit or of a relation that is there before and after
    goes back along Alive, Dying, Dead (a document that is Dead is Dead
    after), and in which no document of a service or of a relation comes
    or goes. When the other writers write in the same way, and the service
    is cached as it is stored when the run starts, then at the end of the
    run the cached Life of the service is the one it was or a later one,
    and is Dead when it was Dead; and every document of a service or of a
    relation that was in the store is still there, with the Life it had or
    a later one, Dead when it was Dead. RemoveUnit leaves the cached Life
    of the unit it is given as it is. For an entity of any kind, a unit or
    a relation as well as a service, the accesses of the shared helper of
    EnsureDead, and a transaction of the operation that asserts the Life
    the entity has and sets that Life or a later one, are of the same
    kind. *)
Theorem Life_moves_forward (os : list operation) (s : Service) (w : World) :
  let s' := (run IsUnitName Unit_UnassignFromMachine os s w).1 in
  let w' := (run IsUnitName Unit_UnassignFromMachine os s w).2 in
  layer_run w w' /\
  (layer_env (script w) ->
   (forall c id doc,
       c <> units -> getDoc (store w) c id = Some doc ->
       exists doc',
         getDoc (store w') c id = Some doc' /\
         Life_le (doc_Life doc) (doc_Life doc') /\
         (doc_Life doc = Dead -> doc_Life doc' = Dead)) /\
   (st_services (store w) !! serviceDoc.Name s = Some s ->
    Life_le (serviceDoc.Life s) (serviceDoc.Life s') /\
    (serviceDoc.Life s = Dead -> serviceDoc.Life s' = Dead))) /\
  (forall u s0 w0,
      unitDoc.Life (RemoveUnit Unit_UnassignFromMachine u s0 w0).1.2 = unitDoc.Life u) /\
  (forall c id desc asserts msg w0,
      layer_run w0 (ensureDead c id desc (assert_ops asserts) msg w0).2) /\
  (forall c id l l' w0,
      Life_le l l' -> layer_run w0 (Run [advance_op c id l l'] w0).2).
Proof.
  intros s' w'. pose proof (run_layer os s w) as Hrun. fold w' in Hrun.
  split; [done|].
  split; [|split; [intros u s0 w0; apply RemoveUnit_layer|
                   split; [apply ensureDead_any_layer|apply advance_layer]]].
  intros He. destruct (layer_run_env w w' Hrun He) as [[Hids Hlife] _]. split.
  - intros c id doc Hc Hdoc. specialize (Hids c id Hc). rewrite Hdoc in Hids.
    destruct (getDoc (store w') c id) as [doc'|] eqn:Hdoc'; [|done].
    exists doc'. split; [done|].
    pose proof (Hlife c id doc doc' Hc Hdoc Hdoc') as Hle. split; [done|].
    intros Hdead. rewrite Hdead in Hle. by apply Life_le_Dead_inv.
  - intros Hfresh.
    assert (Hc : cache_ok s (store w)).
    { intros d. rewrite Hfresh. intros [= <-]. split; [done|apply Life_le_refl]. }
    pose proof (run_cache os s w He Hc) as Hle. fold s' in Hle. split; [done|].
    intros Hdead. rewrite Hdead in Hle. by apply Life_le_Dead_inv.
Qed.

End operations_forward.

(** ** Endpoints *)

Section endpoints_facts.

Import state.

Lemma collect_app range s eps role rels :
  collect range s eps role rels = eps ++ (endpoint_of s role <$> range rels).
Proof.
  unfold collect. generalize (range rels) as l. intros l. revert eps.
  induction l as [|nr l IH]; intros eps; simpl.
  - by rewrite app_nil_r.
  - rewrite IH, <- app_assoc. done.
Qed.

(** The endpoints of a service named [name] for the charm metadata [meta],
    written out field by field: service name, interface, relation name,
    role and scope. *)
Lemma Endpoints_entries range s w ch force :
  (forall m, range m ≡ₚ map_to_list m) ->
  Service_Charm s w = inl (ch, force) ->
  exists eps,
    Endpoints range s w = inl eps /\
    eps ≡ₚ ((fun nr => Endpoint.mk (serviceDoc.Name s) (charm.Interface nr.2) nr.1
                         RolePeer (charm.Scope nr.2))
              <$> map_to_list (charm.Peers (Charm.Meta ch)))
           ++ ((fun nr => Endpoint.mk (serviceDoc.Name s) (charm.Interface nr.2) nr.1
                            RoleProvider (charm.Scope nr.2))
                 <$> map_to_list (charm.Provides (Charm.Meta ch)))
           ++ ((fun nr => Endpoint.mk (serviceDoc.Name s) (charm.Interface nr.2) nr.1
                            RoleRequirer (charm.Scope nr.2))
                 <$> map_to_list (charm.Requires (Charm.Meta ch)))
           ++ [Endpoint.mk (serviceDoc.Name s) "juju-info" "juju-info"
                 RoleProvider ScopeGlobal].
Proof.
  intros Hrange Hch. unfold Endpoints. rewrite Hch. eexists. split; [reflexivity|].
  rewrite !collect_app. simpl.
  assert (Hinfo : range {[ "juju-info" := charm.mkRelation "juju-info" ScopeGlobal ]}
                  = [("juju-info", charm.mkRelation "juju-info" ScopeGlobal)]).
  { apply Permutation_singleton_r. rewrite Hrange.
    by rewrite map_to_list_singleton. }
  rewrite Hinfo, !Hrange. simpl. rewrite <- !app_assoc. done.
Qed.

Variable range : gmap string charm.Relation -> list (string * charm.Relation).

(** [range] visits every entry of the map once, in some order. *)
Hypothesis range_entries : forall m, range m ≡ₚ map_to_list m.

(** C8. For a service whose charm is resolved, Endpoints returns, in some
    order, exactly one endpoint for every entry of the peers of the charm,
    one for every entry of its provides and one for every entry of its
    requires, each with the name of the service, the name of the entry as
    relation name, the interface and the scope of the entry, and the role
    of a peer, of a provider and of a requirer respectively, and one more
    endpoint: juju-info, of interface juju-info, provided with global
    scope. No endpoint is read from the store: in any world with the same
    charms, whatever its store, its script and the order of its ranges,
    Endpoints returns the same endpoints. *)
Theorem Endpoints_of_charm (s : Service) (w : World) (ch : Charm.t) (force : bool) :
  Service_Charm s w = inl (ch, force) ->
  exists eps,
    Endpoints range s w = inl eps /\
    eps ≡ₚ ((fun nr => Endpoint.mk (serviceDoc.Name s) (charm.Interface nr.2) nr.1
                         RolePeer (charm.Scope nr.2))
              <$> map_to_list (charm.Peers (Charm.Meta ch)))
           ++ ((fun nr => Endpoint.mk (serviceDoc.Name s) (charm.Interface nr.2) nr.1
                            RoleProvider (charm.Scope nr.2))
                 <$> map_to_list (charm.Provides (Charm.Meta ch)))
           ++ ((fun nr => Endpoint.mk (serviceDoc.Name s) (charm.Interface nr.2) nr.1
                            RoleRequirer (charm.Scope nr.2))
                 <$> map_to_list (charm.Requires (Charm.Meta ch)))
           ++ [Endpoint.mk (serviceDoc.Name s) "juju-info" "juju-info"
                 RoleProvider ScopeGlobal] /\
    length eps = (size (charm.Peers (Charm.Meta ch))
                  + size (charm.Provides (Charm.Meta ch))
                  + size (charm.Requires (Charm.Meta ch)) + 1)%nat /\
    (forall range' w',
        (forall m, range' m ≡ₚ map_to_list m) ->
        charms w' = charms w ->
        exists eps', Endpoints range' s w' = inl eps' /\ eps' ≡ₚ eps).
Proof.
  intros Hch.
  destruct (Endpoints_entries range s w ch force range_entries Hch)
    as (eps & Heps & Hperm).
  exists eps. split; [done|]. split; [done|]. split.
  - rewrite Hperm, !length_app, !length_fmap, !length_map_to_list. simpl. lia.
  - intros range' w' Hrange' Hw'.
    assert (Hch' : Service_Charm s w' = inl (ch, force)).
    { revert Hch. unfold Service_Charm, State_Charm. by rewrite Hw'. }
    destruct (Endpoints_entries range' s w' ch force Hrange' Hch')
      as (eps' & Heps' & Hperm').
    exists eps'. split; [done|]. by rewrite Hperm, Hperm'.
Qed.

End endpoints_facts.

(** ** The scenario of the specification, run *)

Section scenario_facts.

Import process state scenario.

Lemma store0_ok : store_ok store0.
Proof.
  unfold store_ok. repeat split; apply (bool_decide_unpack _); by vm_compute.
Defined.

Lemma ParseEnv_UnparseEnv_witness : ParseEnv (UnparseEnv env1) = Some env1.
Proof.
  apply (proj1 ParseEnv_UnparseEnv env1 (map_to_list env1)).
  - unfold range_order. reflexivity.
  - intros k v H. apply elem_of_map_to_list in H.
    vm_compute in H.
    repeat (apply elem_of_cons in H as [H|H];
            [injection H as -> ->; by vm_compute|]).
    by apply elem_of_nil in H.
Defined.

Lemma setExposed_alive_or_not_witness :
  arrive world0 = (None, world0) /\
  exists s' d' w',
    setExposed true wordpress world0 = (None, s', w') /\
    IsExposed wordpress = false /\ IsExposed s' = true /\
    st_services (store w') !! "wordpress" = Some d' /\
    serviceDoc.Exposed d' = true /\
    serviceDoc.TxnRevno d' = 1.
Proof.
  split; [reflexivity|].
  destruct (setExposed_alive_or_not true wordpress world0 world0 eq_refl)
    as (_ & _ & H & _).
  destruct (H wordpress eq_refl eq_refl)
    as (s' & d' & w' & Hrun & _ & _ & _ & Hs' & _ & Hd' & He & Hr & _).
  exists s', d', w'. split; [exact Hrun|]. split; [reflexivity|].
  split; [exact Hs'|]. split; [exact Hd'|]. split; [exact He|exact Hr].
Defined.

(** C7, as the specification has it, fails: SetExposed on wordpress, Alive
    with revision 0, is committed and sets the exposed flag, and the stored
    document has another field modified: its revision is 1. *)
Lemma setExposed_modifies_revno :
  exists s' w' d',
    SetExposed wordpress world0 = (None, s', w') /\
    st_services (store world0) !! "wordpress" = Some wordpress /\
    st_services (store w') !! "wordpress" = Some d' /\
    serviceDoc.Exposed d' = true /\
    serviceDoc.TxnRevno wordpress = 0 /\
    serviceDoc.TxnRevno d' = 1 /\
    serviceDoc.TxnRevno d' <> serviceDoc.TxnRevno wordpress.
Proof.
  eexists _, _, _. split; [reflexivity|]. split; [reflexivity|].
  split; [reflexivity|]. split; [reflexivity|]. split; [reflexivity|].
  split; [reflexivity|]. by vm_compute.
Qed.

Lemma EnsureDead_has_dependents_witness :
  (EnsureDead wordpress world0).1
  = (Some (Context "service" [OStr "wordpress"]
             (Errorf "service still has units and/or relations" [])), wordpress).
Proof.
  rewrite (EnsureDead_has_dependents wordpress world0 world0 wordpress).
  - reflexivity.
  - reflexivity.
  - reflexivity.
  - right. by vm_compute.
Defined.

Lemma addUnitOps_mismatch_witness :
  AddUnit any_name logging world0
  = (inr (Context "cannot add unit to service %q" [OStr "logging"]
            (Errorf "service is subordinate" [])), world0).
Proof.
  apply (addUnitOps_mismatch any_name logging world0 logging_charm false "" false).
  - reflexivity.
  - reflexivity.
  - reflexivity.
Defined.

Lemma RemoveUnit_checks_and_abort_witness :
  RemoveUnit no_machine live_unit wordpress world0
  = (Some (Context "cannot remove unit %q" [OStr "wordpress/1"]
             (Errorf "unit is not dead" [])), live_unit, world0) /\
  (RemoveUnit no_machine dead_unit wordpress world0).1 = (None, dead_unit).
Proof.
  split.
  - apply (RemoveUnit_checks_and_abort no_machine live_unit wordpress world0).
    by vm_compute.
  - destruct (RemoveUnit_checks_and_abort no_machine dead_unit wordpress world0)
      as (_ & _ & H).
    rewrite (H dead_unit world0 world0
               (record (EvRun (RemoveUnit_ops dead_unit wordpress) (Some ErrAborted))
                  world0)); reflexivity.
Defined.

Lemma newUnitName_old_sequence_witness :
  (newUnitName wordpress world0).1 = inl "wordpress/0".
Proof.
  rewrite (newUnitName_old_sequence wordpress world0 world0 wordpress);
    reflexivity.
Defined.

(** C3, as the specification has it, fails: the first name allocated for
    wordpress, whose unit sequence is 0, is wordpress/0, while the counter
    is 1 after the increment. *)
Lemma newUnitName_not_new_sequence :
  exists name w' d',
    newUnitName wordpress world0 = (inl name, w') /\
    st_services (store w') !! "wordpress" = Some d' /\
    serviceDoc.UnitSeq d' = 1 /\
    name = "wordpress/0" /\
    name <> serviceDoc.Name wordpress +:+ "/" +:+ Itoa (serviceDoc.UnitSeq d').
Proof.
  eexists _, _, _. split; [reflexivity|]. split; [reflexivity|].
  split; [reflexivity|]. split; [reflexivity|]. by vm_compute.
Qed.

Lemma EnsureDying_transaction_witness :
  exists w',
    EnsureDying 1 wordpress world0
    = (Some None, serviceDoc.set_Life Dying wordpress, w') /\
    relationDoc.Life <$> st_relations (store w') !! "wordpress:db mysql:server"
    = Some Dying.
Proof.
  destruct EnsureDying_transaction as (_ & _ & _ & H).
  destruct (H 0%nat wordpress world0) as (w' & Hrun & _ & _ & _).
  - reflexivity.
  - exact store0_ok.
  - reflexivity.
  - reflexivity.
  - reflexivity.
  - exists w'. split; [exact Hrun|].
    vm_compute in Hrun. injection Hrun as <-. reflexivity.
Defined.

Lemma other_AddUnit_layer st : layer_write st (other_AddUnit st).
Proof.
  apply txn_layer_env.
  - apply List.Forall_cons; [apply insert_op_guarded|].
    apply List.Forall_cons; [apply inc_unitcount_op_guarded|apply List.Forall_nil].
  - apply List.Forall_cons; [by left|].
    apply List.Forall_cons; [by right|apply List.Forall_nil].
Defined.

Lemma other_EnsureDying_layer st : layer_write st (other_EnsureDying st).
Proof.
  apply txn_layer_env; [apply EnsureDying_ops_guarded|apply EnsureDying_ops_keeps].
Defined.

Lemma other_EnsureDead_layer st : layer_write st (other_EnsureDead st).
Proof.
  apply txn_layer_env.
  - apply List.Forall_cons; [apply set_dead_op_guarded|apply List.Forall_nil].
  - apply List.Forall_cons; [by right|apply List.Forall_nil].
Defined.

Lemma Life_moves_forward_witness :
  (serviceDoc.Life wordpress_dead = Dead /\
   serviceDoc.Life (run any_name Unit_UnassignFromMachine ops3 wordpress_dead world3).1
   = Dead /\
   exists doc',
     getDoc (store (run any_name Unit_UnassignFromMachine ops3 wordpress_dead world3).2)
       services "wordpress" = Some doc' /\
     doc_Life doc' = Dead) /\
  (serviceDoc.Life wordpress_dying = Dying /\
   Life_le Dying
     (serviceDoc.Life
        (run any_name Unit_UnassignFromMachine ops3 wordpress_dying world4).1) /\
   serviceDoc.Life (run any_name Unit_UnassignFromMachine ops3 wordpress_dying world4).1
   <> Alive).
Proof.
  split.
  - destruct (Life_moves_forward any_name ops3 wordpress_dead world3) as (_ & H & _).
    destruct H as [Hdocs Hcache].
    { apply List.Forall_cons; [exact other_AddUnit_layer|].
      apply List.Forall_cons; [exact other_EnsureDying_layer|apply List.Forall_nil]. }
    split; [reflexivity|]. split.
    + apply (Hcache eq_refl). reflexivity.
    + destruct (Hdocs services "wordpress" (ServiceDoc wordpress_dead))
        as (doc' & H1 & _ & H3); [done|reflexivity|].
      exists doc'. split; [exact H1|]. apply H3. reflexivity.
  - destruct (Life_moves_forward any_name ops3 wordpress_dying world4) as (_ & H & _).
    destruct H as [_ Hcache].
    { apply List.Forall_cons; [exact other_AddUnit_layer|].
      apply List.Forall_cons; [exact other_EnsureDead_layer|apply List.Forall_nil]. }
    destruct (Hcache eq_refl) as [Hle _].
    split; [reflexivity|]. split; [exact Hle|].
    intros Ha. rewrite Ha in Hle. unfold Life_le in Hle. simpl in Hle. lia.
Defined.

Lemma Endpoints_of_charm_witness :
  exists eps,
    Endpoints map_to_list wordpress world0 = inl eps /\
    eps ≡ₚ [Endpoint.mk "wordpress" "http" "url" RoleProvider ScopeGlobal;
            Endpoint.mk "wordpress" "mysql" "db" RoleRequirer ScopeGlobal;
            Endpoint.mk "wordpress" "juju-info" "juju-info" RoleProvider ScopeGlobal] /\
    exists eps', Endpoints map_to_list wordpress world1 = inl eps' /\ eps' ≡ₚ eps.
Proof.
  destruct (Endpoints_of_charm map_to_list (fun m => reflexivity (map_to_list m))
              wordpress world0 wordpress_charm false eq_refl)
    as (eps & Heps & Hperm & _ & Hany).
  exists eps. split; [exact Heps|]. split.
  - rewrite Hperm. reflexivity.
  - apply (Hany map_to_list world1); [intros m; reflexivity|reflexivity].
Defined.

End scenario_facts.

(** ** More on ParseEnv and UnparseEnv *)

Section process_more.

Import process.

Lemma spaceRunes_nonempty : Forall (fun p => p <> []) spaceRunes.
Proof. apply (bool_decide_unpack _). by vm_compute. Qed.

Lemma rev_spaceRunes_nonempty : Forall (fun p => p <> []) (map reverse spaceRunes).
Proof. apply (bool_decide_unpack _). by vm_compute. Qed.

(** With as many rounds as the list is long, [trim_left] stops only where
    no pattern is left at the head. *)
Lemma trim_left_done pats fuel l :
  Forall (fun p => p <> []) pats -> (length l <= fuel)%nat ->
  strip_first pats (trim_left pats fuel l) = None.
Proof.
  intros Hne. revert l. induction fuel as [|fuel IH]; intros l Hlen; simpl.
  - destruct l; [|simpl in Hlen; lia].
    destruct (strip_first pats []) as [r|] eqn:E; [|done].
    apply strip_first_Some in E as (p & Hp & Hl).
    rewrite Forall_forall in Hne. specialize (Hne p Hp).
    by destruct p.
  - destruct (strip_first pats l) as [r|] eqn:E; [|done].
    apply IH. apply strip_first_Some in E as (p & Hp & ->).
    rewrite Forall_forall in Hne. specialize (Hne p Hp).
    rewrite length_app in Hlen. destruct p; [done|]. simpl in Hlen. lia.
Qed.

Lemma strip_prefix_app p a x r :
  strip_prefix p a = Some r -> strip_prefix p (a ++ x) = Some (r ++ x).
Proof.
  revert a. induction p as [|c p IH]; intros a; simpl.
  - by intros [= ->].
  - destruct a as [|d a]; simpl; [done|]. case_decide; [|done]. apply IH.
Qed.

Lemma strip_first_app_None pats a x :
  strip_first pats (a ++ x) = None -> strip_first pats a = None.
Proof.
  induction pats as [|p pats IH]; simpl; [done|].
  destruct (strip_prefix p a) as [r|] eqn:E.
  - by rewrite (strip_prefix_app _ _ x _ E).
  - destruct (strip_prefix p (a ++ x)); [done|]. apply IH.
Qed.

(** The trimmed string has no space at either end. *)
Lemma TrimSpace_trimmed s :
  strip_first spaceRunes (bytes (TrimSpace s)) = None /\
  strip_first (map reverse spaceRunes) (reverse (bytes (TrimSpace s))) = None.
Proof.
  unfold TrimSpace, TrimRightSpace, TrimLeftSpace. rewrite bytes_of_bytes.
  set (l1 := trim_left spaceRunes (length (bytes s)) (bytes s)).
  assert (H1 : strip_first spaceRunes l1 = None)
    by (apply trim_left_done; [apply spaceRunes_nonempty|done]).
  assert (H2 : strip_first (map reverse spaceRunes)
                 (trim_left (map reverse spaceRunes) (length l1) (reverse l1)) = None)
    by (apply trim_left_done; [apply rev_spaceRunes_nonempty|by rewrite length_reverse]).
  split; [|by rewrite reverse_involutive].
  destruct (trim_left_suffix (map reverse spaceRunes) (length l1) (reverse l1))
    as (pre & Hpre).
  apply (strip_first_app_None _ _ (reverse pre)).
  rewrite <- reverse_app, <- Hpre, reverse_involutive. done.
Qed.

Lemma leading_space_TrimSpace s : leading_space (TrimSpace s) = false.
Proof.
  unfold leading_space. rewrite (proj1 (TrimSpace_trimmed s)).
  apply bool_decide_eq_false. by intros [? ?].
Qed.

Lemma trailing_space_TrimSpace s : trailing_space (TrimSpace s) = false.
Proof.
  unfold trailing_space. rewrite (proj2 (TrimSpace_trimmed s)).
  apply bool_decide_eq_false. by intros [? ?].
Qed.

Lemma cut_eq_Some l a b :
  cut_eq l = Some (a, b) -> l = a ++ eq_sign :: b /\ eq_sign ∉ a.
Proof.
  revert a b. induction l as [|c l IH]; intros a b; [done|].
  change (cut_eq (c :: l))
    with (if decide (c = eq_sign) then Some ([], l)
          else match cut_eq l with
               | Some (a', b') => Some (c :: a', b')
               | None => None
               end).
  destruct (decide (c = eq_sign)) as [->|Hc].
  - intros [= <- <-]. split; [done|]. apply not_elem_of_nil.
  - destruct (cut_eq l) as [[a' b']|]; [|done]. intros [= <- <-].
    destruct (IH a' b' eq_refl) as [-> Hn]. split; [done|].
    intros [?|?]%elem_of_cons; [by subst|done].
Qed.

Lemma cut_eq_None_inv l : cut_eq l = None -> eq_sign ∉ l.
Proof.
  induction l as [|c l IH]; [intros _; apply not_elem_of_nil|].
  change (cut_eq (c :: l))
    with (if decide (c = eq_sign) then Some ([], l)
          else match cut_eq l with
               | Some (a', b') => Some (c :: a', b')
               | None => None
               end).
  destruct (decide (c = eq_sign)) as [->|Hc]; [done|].
  destruct (cut_eq l) as [[a' b']|]; [done|]. intros _.
  intros [?|?]%elem_of_cons; [by subst|by apply IH].
Qed.

(** What an entry does to the map: nothing, or the binding of a name
    without '=' and without a space at its head to a value without a space
    at its end. *)
Lemma ParseEnv_body_cases m e :
  (TrimSpace e = "" /\ ParseEnv_body m e = m) \/
  exists k v,
    ParseEnv_body m e = <[k := v]> m /\
    has_eq k = false /\ leading_space k = false /\ trailing_space v = false.
Proof.
  unfold ParseEnv_body. destruct (decide (TrimSpace e = "")) as [He|He]; [by left|].
  right. unfold SplitN_eq_2.
  destruct (TrimSpace_trimmed e) as [Hl Ht].
  destruct (cut_eq (bytes (TrimSpace e))) as [[a b]|] eqn:Hcut; simpl.
  - apply cut_eq_Some in Hcut as [Hab Ha]. rewrite Hab in Hl, Ht.
    exists (of_bytes a), (of_bytes b). split; [done|].
    unfold has_eq, leading_space, trailing_space. rewrite !bytes_of_bytes.
    split; [by apply bool_decide_eq_false|]. split.
    + apply bool_decide_eq_false. apply strip_first_app_None in Hl.
      rewrite Hl. by intros [? ?].
    + apply bool_decide_eq_false.
      rewrite reverse_app, reverse_cons, <- app_assoc in Ht.
      apply strip_first_app_None in Ht. rewrite Ht. by intros [? ?].
  - apply cut_eq_None_inv in Hcut. exists (TrimSpace e), "". split; [done|].
    split; [by apply bool_decide_eq_false|].
    split; [apply leading_space_TrimSpace|]. by vm_compute.
Qed.

Lemma foldl_ParseEnv_body_blank m raw :
  Forall (fun e => TrimSpace e = "") raw -> foldl ParseEnv_body m raw = m.
Proof.
  intros H. revert m. induction H as [|e raw He _ IH]; intros m; simpl; [done|].
  by rewrite ParseEnv_body_blank, IH.
Qed.

Lemma foldl_ParseEnv_body_non_empty m raw :
  m <> ∅ -> foldl ParseEnv_body m raw <> ∅.
Proof.
  revert m. induction raw as [|e raw IH]; intros m Hm; simpl; [done|].
  apply IH. destruct (ParseEnv_body_cases m e) as [[_ ->]|(k & v & -> & _)];
    [done|apply insert_non_empty].
Qed.

(** X1. ParseEnv returns nil exactly when every entry is blank once
    trimmed, and the map it returns otherwise is never empty. *)
Theorem ParseEnv_nil_iff_blank (raw : list string) :
  (ParseEnv raw = None <-> Forall (fun e => TrimSpace e = "") raw) /\
  ParseEnv raw <> Some ∅.
Proof.
  unfold ParseEnv. split.
  - split.
    + destruct (decide (size (foldl ParseEnv_body ∅ raw) = 0%nat)) as [Hs|Hs]; [|done].
      intros _. apply map_size_empty_inv in Hs.
      induction raw as [|e raw IH]; [done|]. simpl in Hs.
      destruct (ParseEnv_body_cases ∅ e) as [[He Hm]|(k & v & Hm & _)].
      * constructor; [done|]. apply IH. by rewrite Hm in Hs.
      * exfalso. rewrite Hm in Hs.
        by apply (foldl_ParseEnv_body_non_empty (<[k:=v]> ∅) raw (insert_non_empty _ _ _)).
    + intros H. rewrite foldl_ParseEnv_body_blank by done.
      by rewrite decide_True by apply map_size_empty.
  - destruct (decide (size (foldl ParseEnv_body ∅ raw) = 0%nat)) as [Hs|Hs]; [done|].
    intros [= H]. rewrite H in Hs. by rewrite map_size_empty in Hs.
Qed.

Lemma foldl_ParseEnv_body_shape m raw :
  map_Forall (fun k v => has_eq k = false /\ leading_space k = false
                         /\ trailing_space v = false) m ->
  map_Forall (fun k v => has_eq k = false /\ leading_space k = false
                         /\ trailing_space v = false) (foldl ParseEnv_body m raw).
Proof.
  revert m. induction raw as [|e raw IH]; intros m Hm; simpl; [done|].
  apply IH. destruct (ParseEnv_body_cases m e) as [[_ ->]|(k & v & -> & Hk)]; [done|].
  by apply map_Forall_insert_2.
Qed.

(** X2. In the map ParseEnv returns, no name has a '=' or starts with a
    white space, and no value ends with a white space. *)
Theorem ParseEnv_result_shape (raw : list string) (m : gmap string string)
    (k v : string) :
  ParseEnv raw = Some m -> m !! k = Some v ->
  has_eq k = false /\ leading_space k = false /\ trailing_space v = false.
Proof.
  unfold ParseEnv. destruct (decide _); [done|]. intros [= <-] Hk.
  by apply (foldl_ParseEnv_body_shape ∅ raw (map_Forall_empty _) k v).
Qed.

Lemma ParseEnv_body_entry m k v :
  has_eq k = false -> leading_space k = false -> trailing_space v = false ->
  ParseEnv_body m (k +:+ "=" +:+ v) = <[k := v]> m.
Proof.
  intros Heq Hl Hv. unfold ParseEnv_body.
  rewrite TrimSpace_entry by done.
  rewrite decide_False by (destruct k; discriminate).
  unfold SplitN_eq_2.
  assert (Hb : bytes (k +:+ "=" +:+ v) = bytes k ++ eq_sign :: bytes v)
    by (by rewrite !bytes_app).
  rewrite Hb, cut_eq_first; [|by apply bool_decide_eq_false in Heq].
  simpl. by rewrite !of_bytes_bytes.
Qed.

(** X3. A last entry [k=v], with a name without '=' and without a space at
    its head and a value without a space at its end, which may have further
    '=' in it, binds the name to the whole value, whatever the entries
    before it bound the name to, and leaves the other names as they were. *)
Theorem ParseEnv_last_entry_wins (raw : list string) (k v : string) :
  has_eq k = false -> leading_space k = false -> trailing_space v = false ->
  exists m,
    ParseEnv (raw ++ [k +:+ "=" +:+ v]) = Some m /\
    m !! k = Some v /\
    forall k', k' <> k -> m !! k' = ParseEnv raw ≫= (fun m0 => m0 !! k').
Proof.
  intros Heq Hl Hv. unfold ParseEnv. rewrite foldl_app. simpl.
  rewrite ParseEnv_body_entry by done.
  exists (<[k:=v]> (foldl ParseEnv_body ∅ raw)).
  split; [|split].
  - rewrite decide_False; [done|].
    rewrite map_size_empty_iff. apply insert_non_empty.
  - apply lookup_insert_eq.
  - intros k' Hk'. rewrite lookup_insert_ne by done.
    destruct (decide (size (foldl ParseEnv_body ∅ raw) = 0%nat)) as [Hs|Hs]; [|done].
    apply map_size_empty_inv in Hs. by rewrite Hs.
Qed.

Lemma foldl_ParseEnv_body_entries order m :
  Forall (fun kv => has_eq kv.1 = false /\ leading_space kv.1 = false
                    /\ trailing_space kv.2 = false) order ->
  foldl ParseEnv_body m (map unparse order) = list_to_map (reverse order) ∪ m.
Proof.
  intros H; revert m; induction H as [|[k v] order (H1 & H2 & H3) _ IH]; intros m; simpl.
  - by rewrite (left_id_L ∅ (∪)).
  - unfold unparse at 1. simpl. rewrite ParseEnv_body_entry by done. rewrite IH.
    rewrite reverse_cons, list_to_map_app. simpl.
    rewrite <- (assoc_L (∪)). f_equal.
    rewrite insert_empty. by rewrite <- insert_union_singleton_l.
Qed.

(** X4. A map returned by ParseEnv is given back by ParseEnv from what
    UnparseEnv makes of it, whatever the order in which the map is ranged
    over. *)
Theorem ParseEnv_reparse (raw : list string) (m : gmap string string)
    (order : list (string * string)) :
  ParseEnv raw = Some m -> range_order m order ->
  ParseEnv (UnparseEnv_in order) = Some m.
Proof.
  intros Hm Hord.
  assert (Hm' : m <> ∅ /\
                map_Forall (fun k v => has_eq k = false /\ leading_space k = false
                                       /\ trailing_space v = false) m).
  { unfold ParseEnv in Hm.
    destruct (decide (size (foldl ParseEnv_body ∅ raw) = 0%nat)) as [Hs|Hs]; [done|].
    injection Hm as <-. split.
    - intros He. rewrite He in Hs. by rewrite map_size_empty in Hs.
    - apply foldl_ParseEnv_body_shape, map_Forall_empty. }
  destruct Hm' as [Hne Hshape]. unfold ParseEnv.
  rewrite UnparseEnv_in_map, foldl_ParseEnv_body_entries.
  - rewrite (right_id_L ∅ (∪)).
    assert (Henv : list_to_map (reverse order) = m).
    { symmetry. apply list_to_map_flip. unfold range_order in Hord.
      by rewrite reverse_Permutation, Hord. }
    rewrite Henv. rewrite decide_False; [done|].
    by rewrite map_size_empty_iff.
  - apply Forall_forall. intros [k v] Hin. simpl. apply Hshape.
    apply elem_of_map_to_list. unfold range_order in Hord. by rewrite <- Hord.
Qed.

Lemma TrimSpace_idempotent s : TrimSpace (TrimSpace s) = TrimSpace s.
Proof.
  destruct (TrimSpace_trimmed s) as [Hl Ht].
  unfold TrimSpace at 1. unfold TrimLeftSpace.
  rewrite trim_left_None by done. unfold TrimRightSpace.
  rewrite trim_left_None by done. rewrite reverse_involutive.
  apply of_bytes_bytes.
Qed.

(** X5. ParseEnv trims its entries itself: entries trimmed beforehand give
    the same map. *)
Theorem ParseEnv_trimmed_entries (raw : list string) :
  ParseEnv (TrimSpace <$> raw) = ParseEnv raw.
Proof.
  unfold ParseEnv.
  assert (H : forall m, foldl ParseEnv_body m (TrimSpace <$> raw)
                        = foldl ParseEnv_body m raw); [|by rewrite H].
  induction raw as [|e raw IH]; intros m; simpl; [done|].
  rewrite IH. f_equal. unfold ParseEnv_body. by rewrite TrimSpace_idempotent.
Qed.

End process_more.

(** ** More on the reads of the service *)

Section service_reads.

Import state.

(** X6. Refresh writes nothing to the store. At a read that the driver
    does not fail, the cached document becomes the stored one when there is
    one; when there is none the call fails with the not-found error of the
    service and the cached document is kept. *)
Theorem Refresh_reads_store (s : Service) (w w1 : World) :
  arrive w = (None, w1) ->
  match st_services (store w1) !! serviceDoc.Name s with
  | Some d => Refresh s w = (None, d, record (EvRead services None) w1)
  | None =>
      Refresh s w
      = (Some (NotFoundError "service %q" [OStr (serviceDoc.Name s)]), s,
         record (EvRead services (Some ErrNotFound)) w1)
  end.
Proof.
  intros Harr. unfold Refresh, FindId_One. rewrite Harr. unfold getDoc.
  by destruct (st_services (store w1) !! serviceDoc.Name s).
Qed.

(** X7. Unit rejects a name that is not a unit name without reading the
    store; a unit it returns is the document stored under the name, and is
    a unit of the service. *)
Theorem Service_Unit_owned (IsUnitName : string -> bool) (s : Service)
    (name : string) (w : World) :
  (IsUnitName name = false ->
   Service_Unit IsUnitName s name w
   = (inr (Errorf "%q is not a valid unit name" [OStr name]), w)) /\
  (forall u w',
      Service_Unit IsUnitName s name w = (inl u, w') ->
      IsUnitName name = true /\
      st_units (store w') !! name = Some u /\
      unitDoc.Service u = serviceDoc.Name s).
Proof.
  unfold Service_Unit. split.
  - by intros ->.
  - intros u w'. destruct (IsUnitName name); simpl; [|done].
    destruct (arrive w) as [[e|] w1]; [done|].
    destruct (st_units (store w1) !! name) as [ud|] eqn:Hud; [|done].
    destruct (bool_decide (unitDoc.Service ud = serviceDoc.Name s)) eqn:Hs; [|done].
    intros [= <- <-]. apply bool_decide_eq_true in Hs. done.
Qed.

Lemma NoDup_map_values {A} (key : A -> string) (m : gmap string A) :
  map_Forall (fun id d => key d = id) m -> NoDup (map snd (map_to_list m)).
Proof.
  intros Hok. apply (NoDup_fmap_2_strong snd); [|apply NoDup_map_to_list].
  intros [k1 d1] [k2 d2] H1 H2 Heq. simpl in Heq. subst d2.
  apply elem_of_map_to_list in H1, H2.
  by rewrite <- (Hok _ _ H1), <- (Hok _ _ H2).
Qed.

(** X8. At a read that the driver does not fail, AllUnits returns the
    stored units whose service is the service, all of them, and each once
    when the units are stored under their names. *)
Theorem AllUnits_exact (s : Service) (w w1 : World) :
  arrive w = (None, w1) ->
  exists us,
    AllUnits s w = (inl us, record (EvRead units None) w1) /\
    (forall u, u ∈ us <->
               (exists id, st_units (store w1) !! id = Some u) /\
               unitDoc.Service u = serviceDoc.Name s) /\
    (store_ok (store w1) -> NoDup us).
Proof.
  intros Harr. unfold AllUnits. rewrite Harr. rewrite foldl_snoc. simpl.
  eexists. split; [reflexivity|]. split.
  - intros u. rewrite list_elem_of_filter, list_elem_of_fmap. split.
    + intros [Hs ([id u'] & -> & Hin)]. simpl in *.
      apply elem_of_map_to_list in Hin. split; [by exists id|done].
    + intros [[id Hid] Hs]. split; [done|]. exists (id, u). split; [done|].
      by apply elem_of_map_to_list.
  - intros (_ & Hok & _). apply NoDup_filter. by apply (NoDup_map_values unitDoc.Name).
Qed.

(** X9. At a read that the driver does not fail, Relations returns the
    stored relations that have an endpoint of the service, all of them, and
    each once when the relations are stored under their keys. *)
Theorem Relations_exact (s : Service) (w w1 : World) :
  arrive w = (None, w1) ->
  exists rels,
    Relations s w = (inl rels, record (EvRead relations None) w1) /\
    (forall r, r ∈ rels <->
               (exists id, st_relations (store w1) !! id = Some r) /\
               exists ep, ep ∈ relationDoc.Endpoints r /\
                          Endpoint.ServiceName ep = serviceDoc.Name s) /\
    (store_ok (store w1) -> NoDup rels).
Proof.
  intros Harr. unfold Relations. rewrite Harr. rewrite foldl_snoc. simpl.
  eexists. split; [reflexivity|].
  assert (Hin : forall r, in_relation (serviceDoc.Name s) r = true <->
                  exists ep, ep ∈ relationDoc.Endpoints r /\
                             Endpoint.ServiceName ep = serviceDoc.Name s).
  { intros r. unfold in_relation. rewrite existsb_exists. split.
    - intros (ep & Hep & Hn). exists ep. split; [by apply list_elem_of_In|].
      by apply bool_decide_eq_true in Hn.
    - intros (ep & Hep & Hn). exists ep. split; [by apply list_elem_of_In|].
      by apply bool_decide_eq_true. }
  split.
  - intros r. unfold relations_of.
    rewrite list_elem_of_filter, list_elem_of_fmap, Hin. split.
    + intros [Hs ([id r'] & -> & Hr)]. simpl in *.
      apply elem_of_map_to_list in Hr. split; [by exists id|done].
    + intros [[id Hid] Hs]. split; [done|]. exists (id, r). split; [done|].
      by apply elem_of_map_to_list.
  - intros (_ & _ & Hok). apply NoDup_filter.
    by apply (NoDup_map_values relationDoc.Key).
Qed.

(** X10. Two allocations of a unit name in a row, with no other writer in
    between, give two different names. *)
Theorem newUnitName_fresh (s : Service) (w w1 w2 : World) (n1 n2 : string) :
  script w = [] ->
  newUnitName s w = (inl n1, w1) ->
  newUnitName s w1 = (inl n2, w2) ->
  n1 <> n2.
Proof.
  intros Hsc H1 H2. unfold newUnitName, Apply in H1.
  assert (Harr : arrive w = (None, w)) by (unfold arrive; by rewrite Hsc).
  rewrite Harr in H1. unfold getDoc in H1.
  destruct (st_services (store w) !! serviceDoc.Name s) as [d|] eqn:Hd; [|done].
  simpl in H1. injection H1 as <- <-.
  unfold newUnitName, Apply, arrive in H2. simpl in H2. rewrite Hsc in H2.
  simpl in H2. rewrite lookup_insert_eq in H2. simpl in H2. injection H2 as <- _.
  intros Heq. apply (inj (String.app _)) in Heq. apply (inj (String.app _)) in Heq.
  unfold Itoa in Heq. apply (inj pretty) in Heq. lia.
Qed.

(** X11. A SetCharm whose transaction is committed, the service being in
    the store and Alive at that time, sets the charm URL and the force flag
    of the stored document and of the cached one and nothing else but the
    revision of the stored document; CharmURL then returns them, and Charm
    resolves to the new charm when the state knows it. *)
Theorem SetCharm_committed (ch : Charm.t) (force : bool) (s : Service)
    (w w1 : World) (d : serviceDoc.t) :
  arrive w = (None, w1) ->
  st_services (store w1) !! serviceDoc.Name s = Some d ->
  serviceDoc.Life d = Alive ->
  exists s' w',
    SetCharm ch force s w = (None, s', w') /\
    s' = serviceDoc.set_ForceCharm force
           (serviceDoc.set_CharmURL (Some (Charm.URL ch)) s) /\
    CharmURL s' = (Some (Charm.URL ch), force) /\
    store w'
    = mkStore
        (<[serviceDoc.Name s :=
             serviceDoc.set_TxnRevno (serviceDoc.TxnRevno d + 1)
               (serviceDoc.set_ForceCharm force
                  (serviceDoc.set_CharmURL (Some (Charm.URL ch)) d))]>
           (st_services (store w1)))
        (st_units (store w1)) (st_relations (store w1)) /\
    (charms w !! Charm.URL ch = Some ch -> Service_Charm s' w' = inl (ch, force)).
Proof.
  intros Harr Hd Hlife. unfold SetCharm, Run. rewrite Harr.
  unfold txn_holds, txn_apply, op_holds, op_apply, getDoc. simpl.
  rewrite Hd. simpl. rewrite bool_decide_eq_true_2 by done. simpl.
  eexists _, _. split; [reflexivity|]. split; [done|]. split; [done|].
  split; [done|]. intros Hch. unfold Service_Charm, State_Charm. simpl.
  assert (Hc : charms w1 = charms w).
  { unfold arrive in Harr. destruct (script w) as [|[?|?] ?]; by simplify_eq. }
  by rewrite Hc, Hch.
Qed.

End service_reads.

(** ** Adding and removing units *)

Section units_facts.

Import state.

Lemma arrive_alone w : script w = [] -> arrive w = (None, w).
Proof. intros H. unfold arrive. by rewrite H. Qed.

Lemma Run_alone ops w :
  script w = [] ->
  Run ops w
  = if txn_holds (store w) ops
    then (None, record (EvRun ops None) (set_store (txn_apply (store w) ops) w))
    else (Some ErrAborted, record (EvRun ops (Some ErrAborted)) w).
Proof. intros H. unfold Run. by rewrite (arrive_alone w H). Qed.

Lemma newUnitName_alone s w d :
  script w = [] ->
  st_services (store w) !! serviceDoc.Name s = Some d ->
  newUnitName s w
  = (inl (serviceDoc.Name s +:+ "/" +:+ Itoa (serviceDoc.UnitSeq d)),
     record
       (EvApply services (serviceDoc.Name s)
          (mkChange [("$inc", BD [("unitseq", BInt 1)])] false false false) None)
       (set_store
          (mkStore
             (<[serviceDoc.Name s := serviceDoc.set_UnitSeq (serviceDoc.UnitSeq d + 1) d]>
                (st_services (store w)))
             (st_units (store w)) (st_relations (store w))) w)).
Proof.
  intros Hsc Hd. unfold newUnitName, Apply. rewrite (arrive_alone w Hsc).
  unfold getDoc. by rewrite Hd.
Qed.

Lemma Service_Unit_alone IsUnitName s name w ud :
  script w = [] ->
  IsUnitName name = true ->
  st_units (store w) !! name = Some ud ->
  unitDoc.Service ud = serviceDoc.Name s ->
  Service_Unit IsUnitName s name w = (inl ud, record (EvRead units None) w).
Proof.
  intros Hsc Hn Hud Hs. unfold Service_Unit. rewrite Hn. simpl.
  rewrite (arrive_alone w Hsc), Hud. by rewrite bool_decide_eq_true_2.
Qed.

(** The operations AddUnit submits for a principal unit. *)
Lemma addUnitOps_alone s w ch force d :
  script w = [] ->
  Service_Charm s w = inl (ch, force) ->
  charm.Subordinate (Charm.Meta ch) = false ->
  st_services (store w) !! serviceDoc.Name s = Some d ->
  let name := serviceDoc.Name s +:+ "/" +:+ Itoa (serviceDoc.UnitSeq d) in
  addUnitOps "" false s w
  = (inl (name,
          [mkOp units name DocMissing
             (Some (UnitDoc (unitDoc.mk name (serviceDoc.Name s) "" [] "" Alive
                               UnitPending))) None false;
           mkOp services (serviceDoc.Name s) (AssertD isAlive) None
             (Some [("$inc", BD [("unitcount", BInt 1)])]) false]),
     (newUnitName s w).2).
Proof.
  intros Hsc Hch Hsub Hd name. unfold addUnitOps. rewrite Hch, Hsub. simpl.
  by rewrite (newUnitName_alone s w d Hsc Hd).
Qed.

(** X12. Run alone for a service that is in the store and Alive, whose
    charm is not a subordinate charm, AddUnit succeeds when the name made of
    the unit sequence is a unit name that no stored unit has: it returns
    the unit of that name, of the service, Alive, pending, without
    principal, subordinates or machine; that unit is in the store, and the
    unit sequence and the unit count of the stored service have grown by
    one, in an Apply and a transaction that change nothing else but the
    revision of the service. *)
Theorem AddUnit_adds (IsUnitName : string -> bool) (s : Service) (w : World)
    (ch : Charm.t) (force : bool) (d : serviceDoc.t) :
  script w = [] ->
  Service_Charm s w = inl (ch, force) ->
  charm.Subordinate (Charm.Meta ch) = false ->
  st_services (store w) !! serviceDoc.Name s = Some d ->
  serviceDoc.Life d = Alive ->
  let name := serviceDoc.Name s +:+ "/" +:+ Itoa (serviceDoc.UnitSeq d) in
  let udoc := unitDoc.mk name (serviceDoc.Name s) "" [] "" Alive UnitPending in
  IsUnitName name = true ->
  st_units (store w) !! name = None ->
  exists w',
    AddUnit IsUnitName s w = (inl udoc, w') /\
    store w'
    = mkStore
        (<[serviceDoc.Name s :=
             serviceDoc.set_TxnRevno (serviceDoc.TxnRevno d + 1)
               (serviceDoc.set_UnitCount (serviceDoc.UnitCount d + 1)
                  (serviceDoc.set_UnitSeq (serviceDoc.UnitSeq d + 1) d))]>
           (st_services (store w)))
        (<[name := udoc]> (st_units (store w)))
        (st_relations (store w)).
Proof.
  intros Hsc Hch Hsub Hd Hlife name udoc Hname Hfree.
  unfold AddUnit. rewrite (addUnitOps_alone s w ch force d) by done.
  rewrite (newUnitName_alone s w d) by done. fold name. fold udoc.
  cbn [snd]. rewrite Run_alone by done.
  assert (Hholds : forall ev st0,
    st0 = mkStore
            (<[serviceDoc.Name s :=
                 serviceDoc.set_UnitSeq (serviceDoc.UnitSeq d + 1) d]>
               (st_services (store w)))
            (st_units (store w)) (st_relations (store w)) ->
    txn_holds (store (record ev (set_store st0 w)))
      [mkOp units name DocMissing (Some (UnitDoc udoc)) None false;
       mkOp services (serviceDoc.Name s) (AssertD isAlive) None
         (Some [("$inc", BD [("unitcount", BInt 1)])]) false] = true /\
    txn_apply (store (record ev (set_store st0 w)))
      [mkOp units name DocMissing (Some (UnitDoc udoc)) None false;
       mkOp services (serviceDoc.Name s) (AssertD isAlive) None
         (Some [("$inc", BD [("unitcount", BInt 1)])]) false]
    = mkStore
        (<[serviceDoc.Name s :=
             serviceDoc.set_TxnRevno (serviceDoc.TxnRevno d + 1)
               (serviceDoc.set_UnitCount (serviceDoc.UnitCount d + 1)
                  (serviceDoc.set_UnitSeq (serviceDoc.UnitSeq d + 1) d))]>
           (st_services (store w)))
        (<[name := udoc]> (st_units (store w)))
        (st_relations (store w))).
  { intros ev st0 ->. clearbody udoc name.
    unfold txn_holds, txn_apply, op_holds, op_apply, getDoc.
    simpl. rewrite Hfree, lookup_insert_eq. simpl.
    rewrite lookup_insert_eq. simpl.
    rewrite bool_decide_eq_true_2 by done. split; [done|].
    by rewrite insert_insert_eq. }
  match goal with |- context [txn_holds (store (record ?ev (set_store ?st0 w))) ?ops] =>
    destruct (Hholds ev st0 eq_refl) as [Hh Ha]; rewrite Hh, Ha
  end.
  erewrite (Service_Unit_alone IsUnitName s name _ udoc); [|done|done| |done].
  - eexists. split; [reflexivity|]. done.
  - cbn -[name udoc]. apply lookup_insert_eq.
Qed.

Lemma getAlive_alone c id w :
  script w = [] ->
  getAlive c id w
  = ((match getDoc (store w) c id with
      | Some doc => holds doc isAlive
      | None => false
      end, None), record (EvRead c None) w).
Proof. intros H. unfold getAlive. by rewrite (arrive_alone w H). Qed.

(** AddUnit, alone, for a stored service that is not Alive. *)
Lemma AddUnit_not_alive_run IsUnitName s w ch force d :
  script w = [] ->
  Service_Charm s w = inl (ch, force) ->
  charm.Subordinate (Charm.Meta ch) = false ->
  st_services (store w) !! serviceDoc.Name s = Some d ->
  serviceDoc.Life d <> Alive ->
  exists w',
    AddUnit IsUnitName s w
    = (inr (Context "cannot add unit to service %q" [OStr (serviceDoc.Name s)]
              (Errorf "service is not alive" [])), w') /\
    store w'
    = mkStore
        (<[serviceDoc.Name s := serviceDoc.set_UnitSeq (serviceDoc.UnitSeq d + 1) d]>
           (st_services (store w)))
        (st_units (store w)) (st_relations (store w)).
Proof.
  intros Hsc Hch Hsub Hd Hlife.
  unfold AddUnit. rewrite (addUnitOps_alone s w ch force d) by done.
  rewrite (newUnitName_alone s w d) by done. cbn [snd].
  set (name := serviceDoc.Name s +:+ "/" +:+ Itoa (serviceDoc.UnitSeq d)).
  set (udoc := unitDoc.mk name (serviceDoc.Name s) "" [] "" Alive UnitPending).
  rewrite Run_alone by done.
  match goal with |- context [txn_holds ?st ?ops] =>
    assert (Hh : txn_holds st ops = false)
  end.
  { clearbody udoc name. unfold txn_holds, op_holds, getDoc. simpl.
    rewrite lookup_insert_eq. simpl.
    rewrite bool_decide_eq_false_2 by done.
    by destruct (st_units (store w) !! name). }
  rewrite Hh. rewrite getAlive_alone by done.
  unfold getDoc. simpl. rewrite lookup_insert_eq. simpl.
  rewrite bool_decide_eq_false_2 by done. simpl.
  eexists. split; [reflexivity|]. done.
Qed.

(** X13. Run alone for a stored service that is not Alive, whose charm is
    not a subordinate charm, AddUnit fails with the error that the service
    is not alive; no unit is added and the unit count is as it was, but the
    unit sequence of the service has been increased: the name is used up. *)
Theorem AddUnit_not_alive (IsUnitName : string -> bool) (s : Service) (w : World)
    (ch : Charm.t) (force : bool) (d : serviceDoc.t) :
  script w = [] ->
  Service_Charm s w = inl (ch, force) ->
  charm.Subordinate (Charm.Meta ch) = false ->
  st_services (store w) !! serviceDoc.Name s = Some d ->
  serviceDoc.Life d <> Alive ->
  exists w',
    AddUnit IsUnitName s w
    = (inr (Context "cannot add unit to service %q" [OStr (serviceDoc.Name s)]
              (Errorf "service is not alive" [])), w') /\
    st_units (store w') = st_units (store w) /\
    st_relations (store w') = st_relations (store w) /\
    st_services (store w')
    = <[serviceDoc.Name s := serviceDoc.set_UnitSeq (serviceDoc.UnitSeq d + 1) d]>
        (st_services (store w)).
Proof.
  intros Hsc Hch Hsub Hd Hlife.
  destruct (AddUnit_not_alive_run IsUnitName s w ch force d) as (w' & Hrun & Hst);
    try done.
  exists w'. rewrite Hst. done.
Qed.

(** X14. Run alone, RemoveUnit of a unit without machine and without
    principal, Dead in the cache and in the store, of a service whose
    stored unit count is positive, succeeds: the document of the unit is
    removed, the unit count of the service is one less, and nothing else
    changes but the revision of the service. *)
Theorem RemoveUnit_removes
    (UnassignFromMachine : Unit -> World -> option error * Unit * World)
    (u : Unit) (s : Service) (w : World) (ud : unitDoc.t) (d : serviceDoc.t) :
  script w = [] ->
  unitDoc.Life u = Dead ->
  unitDoc.Service u = serviceDoc.Name s ->
  unitDoc.MachineId u = "" ->
  unitDoc.Principal u = "" ->
  st_units (store w) !! unitDoc.Name u = Some ud ->
  unitDoc.Life ud = Dead ->
  st_services (store w) !! serviceDoc.Name s = Some d ->
  0 < serviceDoc.UnitCount d ->
  exists w',
    RemoveUnit UnassignFromMachine u s w = (None, u, w') /\
    store w'
    = mkStore
        (<[serviceDoc.Name s :=
             serviceDoc.set_TxnRevno (serviceDoc.TxnRevno d + 1)
               (serviceDoc.set_UnitCount (serviceDoc.UnitCount d - 1) d)]>
           (st_services (store w)))
        (delete (unitDoc.Name u) (st_units (store w)))
        (st_relations (store w)).
Proof.
  intros Hsc Hlife Hsvc Hm Hp Hud Hudl Hd Hcount.
  unfold RemoveUnit.
  rewrite bool_decide_eq_false_2 by (by intros []).
  rewrite bool_decide_eq_false_2 by (by intros []).
  rewrite bool_decide_eq_false_2 by (by intros []).
  unfold RemoveUnit_run, RemoveUnit_ops.
  rewrite bool_decide_eq_false_2 by (by intros []).
  rewrite Run_alone by done.
  match goal with |- context [txn_holds ?st ?ops] =>
    assert (Hh : txn_holds st ops = true /\
                 txn_apply st ops
                 = mkStore
                     (<[serviceDoc.Name s :=
                          serviceDoc.set_TxnRevno (serviceDoc.TxnRevno d + 1)
                            (serviceDoc.set_UnitCount (serviceDoc.UnitCount d - 1) d)]>
                        (st_services (store w)))
                     (delete (unitDoc.Name u) (st_units (store w)))
                     (st_relations (store w)))
  end.
  { unfold txn_holds, txn_apply, op_holds, op_apply, getDoc. simpl.
    rewrite Hud, Hd. simpl.
    rewrite !bool_decide_eq_true_2 by done. split; [done|]. done. }
  destruct Hh as [Hh Ha]. rewrite Hh, Ha. simpl.
  eexists. split; [reflexivity|]. done.
Qed.

End units_facts.

(** ** EnsureDying with a cache that is behind *)

Section EnsureDying_more.

Import state.

Lemma Relations_alone s w :
  script w = [] ->
  Relations s w
  = (inl (relations_of (serviceDoc.Name s) (store w)),
     record (EvRead relations None) w).
Proof.
  intros H. unfold Relations. rewrite (arrive_alone w H). by rewrite foldl_snoc.
Qed.

Lemma Refresh_alone s w :
  script w = [] ->
  Refresh s w
  = match st_services (store w) !! serviceDoc.Name s with
    | Some d => (None, d, record (EvRead services None) w)
    | None =>
        (Some (NotFoundError "service %q" [OStr (serviceDoc.Name s)]), s,
         record (EvRead services (Some ErrNotFound)) w)
    end.
Proof.
  intros H. unfold Refresh, FindId_One. rewrite (arrive_alone w H). unfold getDoc.
  by destruct (st_services (store w) !! serviceDoc.Name s).
Qed.




(** X16. Run alone with a cached Life that is Alive for a service that is
    no longer Alive in the store, EnsureDying writes nothing: it returns
    success with the stored document as the cached one when the service is
    Dying or Dead, and the not-found error of the service when its
    document is gone. *)
Theorem EnsureDying_already_done (fuel : nat) (s : Service) (w : World) :
  script w = [] ->
  serviceDoc.Life s = Alive ->
  (forall d, st_services (store w) !! serviceDoc.Name s = Some d ->
             serviceDoc.Life d <> Alive) ->
  exists w',
    store w' = store w /\
    EnsureDying (S (S fuel)) s w
    = match st_services (store w) !! serviceDoc.Name s with
      | Some d => (Some None, d, w')
      | None =>
          (Some (Some (NotFoundError "service %q" [OStr (serviceDoc.Name s)])), s, w')
      end.
Proof.
  intros Hsc Hls Hgone.
  change (EnsureDying (S (S fuel)) s w)
    with (if decide (serviceDoc.Life s = Alive) then
            match Relations s w with
            | (inr err, w1) => (Some (Some err), s, w1)
            | (inl rels, w1) =>
                if decide (Z.of_nat (length rels) ≠ serviceDoc.RelationCount s) then
                  match Refresh s w1 with
                  | (Some err, s1, w2) => (Some (Some err), s1, w2)
                  | (None, s1, w2) => EnsureDying (S fuel) s1 w2
                  end
                else
                  match Run (EnsureDying_ops s rels) w1 with
                  | (Some ErrAborted, w2) =>
                      match Refresh s w2 with
                      | (Some err, s1, w3) => (Some (Some err), s1, w3)
                      | (None, s1, w3) => EnsureDying (S fuel) s1 w3
                      end
                  | (Some err, w2) => (Some (Some err), s, w2)
                  | (None, w2) => EnsureDying (S fuel) (serviceDoc.set_Life Dying s) w2
                  end
            end
          else (Some None, s, w)).
  rewrite decide_True by done. rewrite Relations_alone by done.
  destruct (decide (Z.of_nat (length (relations_of (serviceDoc.Name s) (store w)))
                    ≠ serviceDoc.RelationCount s)) as [Hne|Heq].
  - rewrite Refresh_alone by done. cbn [store record].
    destruct (st_services (store w) !! serviceDoc.Name s) as [d|] eqn:Hd.
    + rewrite EnsureDying_not_Alive by (by apply Hgone). eexists. split; [|done]. done.
    + eexists. split; [|done]. done.
  - rewrite Run_alone by done.
    assert (Hh : txn_holds (store (record (EvRead relations None) w))
                   (EnsureDying_ops s (relations_of (serviceDoc.Name s) (store w)))
                 = false).
    { apply not_true_is_false. intros Hh.
      apply txn_holds_EnsureDying_ops in Hh as [Hs _].
      apply op_holds_service_dying in Hs as (d' & Hd' & Hl' & _).
      cbn [store record] in Hd'. by apply (Hgone d'). }
    rewrite Hh. rewrite Refresh_alone by done. cbn [store record].
    destruct (st_services (store w) !! serviceDoc.Name s) as [d|] eqn:Hd.
    + rewrite EnsureDying_not_Alive by (by apply Hgone). eexists. split; [|done]. done.
    + eexists. split; [|done]. done.
Qed.


End EnsureDying_more.

(** ** The endpoint of a relation name *)

Section endpoint_facts.

Import state.

Variable range : gmap string charm.Relation -> list (string * charm.Relation).

(** [range] visits every entry of the map once, in some order. *)
Hypothesis range_entries : forall m, range m ≡ₚ map_to_list m.

Lemma elem_of_range (m : gmap string charm.Relation) name rel :
  (name, rel) ∈ range m <-> m !! name = Some rel.
Proof. rewrite range_entries. apply elem_of_map_to_list. Qed.

(** The endpoints of a service whose charm is [ch]. *)
Lemma elem_of_Endpoints s w ch force :
  Service_Charm s w = inl (ch, force) ->
  exists eps,
    Endpoints range s w = inl eps /\
    forall ep, ep ∈ eps <->
      exists name rel,
        (ep = endpoint_of s RolePeer (name, rel)
         /\ charm.Peers (Charm.Meta ch) !! name = Some rel) \/
        (ep = endpoint_of s RoleProvider (name, rel)
         /\ charm.Provides (Charm.Meta ch) !! name = Some rel) \/
        (ep = endpoint_of s RoleRequirer (name, rel)
         /\ charm.Requires (Charm.Meta ch) !! name = Some rel) \/
        (ep = endpoint_of s RoleProvider (name, rel)
         /\ name = "juju-info" /\ rel = charm.mkRelation "juju-info" ScopeGlobal).
Proof.
  intros Hch. unfold Endpoints. rewrite Hch. eexists. split; [reflexivity|].
  intros ep. rewrite !collect_app. simpl.
  rewrite !elem_of_app, !list_elem_of_fmap. split.
  - intros [[[([name rel] & -> & H)|([name rel] & -> & H)]|([name rel] & -> & H)]
           |([name rel] & -> & H)];
      apply elem_of_range in H; exists name, rel.
    + by left.
    + right. by left.
    + right. right. by left.
    + right. right. right. apply lookup_singleton_Some in H as [<- <-]. done.
  - intros (name & rel & [[-> H]|[[-> H]|[[-> H]|(-> & -> & ->)]]]).
    + left. left. left. exists (name, rel). split; [done|]. by apply elem_of_range.
    + left. left. right. exists (name, rel). split; [done|]. by apply elem_of_range.
    + left. right. exists (name, rel). split; [done|]. by apply elem_of_range.
    + right. eexists (_, _). split; [done|]. apply elem_of_range.
      apply lookup_singleton_eq.
Qed.

(** X18. For a service whose charm is resolved, Endpoint finds an endpoint
    exactly for the names of the peers, provides and requires of the charm
    and for juju-info; the endpoint it returns is one of Endpoints, of that
    relation name and of the service; for another name it fails with the
    error that the service has no such relation. *)
Theorem Service_Endpoint_found (s : Service) (relationName : string) (w : World)
    (ch : Charm.t) (force : bool) :
  Service_Charm s w = inl (ch, force) ->
  let known :=
    is_Some (charm.Peers (Charm.Meta ch) !! relationName) \/
    is_Some (charm.Provides (Charm.Meta ch) !! relationName) \/
    is_Some (charm.Requires (Charm.Meta ch) !! relationName) \/
    relationName = "juju-info" in
  (known ->
   exists ep eps,
     Service_Endpoint range s relationName w = inl ep /\
     Endpoints range s w = inl eps /\ ep ∈ eps /\
     Endpoint.RelationName ep = relationName /\
     Endpoint.ServiceName ep = serviceDoc.Name s) /\
  (~ known ->
   Service_Endpoint range s relationName w
   = inr (Errorf "service %q has no %q relation"
            [OStr (serviceDoc.Name s); OStr relationName])).
Proof.
  intros Hch known.
  destruct (elem_of_Endpoints s w ch force Hch) as (eps & Heps & Hin).
  unfold Service_Endpoint. rewrite Heps.
  destruct (find (fun ep => bool_decide (Endpoint.RelationName ep = relationName)) eps)
    as [ep|] eqn:Hfind.
  - apply find_some in Hfind as [Hep Hn]. apply bool_decide_eq_true in Hn.
    apply list_elem_of_In in Hep. split.
    + intros _. exists ep, eps. split; [done|]. split; [done|]. split; [done|].
      split; [done|].
      apply Hin in Hep as (name & rel & [[-> _]|[[-> _]|[[-> _]|(-> & _)]]]); done.
    + intros Hk. exfalso. apply Hk.
      apply Hin in Hep as (name & rel & [[-> H]|[[-> H]|[[-> H]|(-> & -> & ->)]]]);
        simpl in Hn; subst; unfold known; eauto 6.
  - split; [|done]. intros Hk. exfalso.
    assert (Hex : exists ep, ep ∈ eps /\ Endpoint.RelationName ep = relationName).
    { destruct Hk as [[rel H]|[[rel H]|[[rel H]| -> ]]].
      - exists (endpoint_of s RolePeer (relationName, rel)). split; [|done].
        apply Hin. exists relationName, rel. by left.
      - exists (endpoint_of s RoleProvider (relationName, rel)). split; [|done].
        apply Hin. exists relationName, rel. right. by left.
      - exists (endpoint_of s RoleRequirer (relationName, rel)). split; [|done].
        apply Hin. exists relationName, rel. right. right. by left.
      - exists (endpoint_of s RoleProvider
                  ("juju-info", charm.mkRelation "juju-info" ScopeGlobal)).
        split; [|done]. apply Hin. eexists _, _. right. right. right. done. }
    destruct Hex as (ep & Hep & Hn).
    apply list_elem_of_In in Hep.
    pose proof (find_none _ _ Hfind ep Hep) as Hf. simpl in Hf.
    by apply bool_decide_eq_false in Hf.
Qed.

End endpoint_facts.

(** ** The unit count of a service *)

Section unit_count_facts.

Import state.

Lemma units_of_insert name st sv re id ud :
  st_units st !! id = None ->
  length (units_of name (mkStore sv (<[id := ud]> (st_units st)) re))
  = ((if decide (unitDoc.Service ud = name) then 1 else 0)
     + length (units_of name st))%nat.
Proof.
  intros Hid. unfold units_of. simpl.
  rewrite (map_to_list_insert _ _ _ Hid). simpl.
  destruct (decide (unitDoc.Service ud = name)) as [H|H].
  - by rewrite filter_cons_True.
  - by rewrite filter_cons_False.
Qed.

Lemma units_of_delete name st sv re id ud :
  st_units st !! id = Some ud ->
  length (units_of name st)
  = ((if decide (unitDoc.Service ud = name) then 1 else 0)
     + length (units_of name (mkStore sv (delete id (st_units st)) re)))%nat.
Proof.
  intros Hid. unfold units_of. simpl.
  rewrite <- (map_to_list_delete _ _ _ Hid). simpl.
  destruct (decide (unitDoc.Service ud = name)) as [H|H].
  - by rewrite filter_cons_True.
  - by rewrite filter_cons_False.
Qed.

Lemma Service_Unit_store IsUnitName s name w :
  script w = [] -> store (Service_Unit IsUnitName s name w).2 = store w.
Proof.
  intros Hsc. unfold Service_Unit. destruct (negb (IsUnitName name)); [done|].
  rewrite (arrive_alone w Hsc).
  destruct (st_units (store w) !! name) as [ud|]; [|done].
  by destruct (bool_decide _).
Qed.

(** What AddUnit, alone, can have done to the store: nothing; or the
    increment of the unit sequence only; or that and, together, the
    insertion of the unit and the increment of the unit count. *)
Lemma AddUnit_outcomes IsUnitName s w :
  script w = [] ->
  store (AddUnit IsUnitName s w).2 = store w \/
  exists d,
    st_services (store w) !! serviceDoc.Name s = Some d /\
    (store (AddUnit IsUnitName s w).2
     = mkStore
         (<[serviceDoc.Name s := serviceDoc.set_UnitSeq (serviceDoc.UnitSeq d + 1) d]>
            (st_services (store w)))
         (st_units (store w)) (st_relations (store w)) \/
     (st_units (store w) !! (serviceDoc.Name s +:+ "/" +:+ Itoa (serviceDoc.UnitSeq d))
      = None /\
      store (AddUnit IsUnitName s w).2
      = mkStore
          (<[serviceDoc.Name s :=
               serviceDoc.set_TxnRevno (serviceDoc.TxnRevno d + 1)
                 (serviceDoc.set_UnitCount (serviceDoc.UnitCount d + 1)
                    (serviceDoc.set_UnitSeq (serviceDoc.UnitSeq d + 1) d))]>
             (st_services (store w)))
          (<[serviceDoc.Name s +:+ "/" +:+ Itoa (serviceDoc.UnitSeq d) :=
               unitDoc.mk (serviceDoc.Name s +:+ "/" +:+ Itoa (serviceDoc.UnitSeq d))
                 (serviceDoc.Name s) "" [] "" Alive UnitPending]>
             (st_units (store w)))
          (st_relations (store w)))).
Proof.
  intros Hsc.
  destruct (Service_Charm s w) as [[ch force]|e] eqn:Hch;
    [|left; unfold AddUnit, addUnitOps; by rewrite Hch].
  destruct (charm.Subordinate (Charm.Meta ch)) eqn:Hsub;
    [left; unfold AddUnit, addUnitOps; by rewrite Hch, Hsub|].
  destruct (st_services (store w) !! serviceDoc.Name s) as [d|] eqn:Hd.
  2:{ left. unfold AddUnit, addUnitOps. rewrite Hch, Hsub. simpl.
      unfold newUnitName, Apply. rewrite (arrive_alone w Hsc). unfold getDoc.
      by rewrite Hd. }
  right. exists d. split; [done|].
  unfold AddUnit. rewrite (addUnitOps_alone s w ch force d) by done.
  rewrite (newUnitName_alone s w d) by done. cbn [snd].
  set (name := serviceDoc.Name s +:+ "/" +:+ Itoa (serviceDoc.UnitSeq d)).
  set (udoc := unitDoc.mk name (serviceDoc.Name s) "" [] "" Alive UnitPending).
  rewrite Run_alone by done.
  match goal with |- context [txn_holds ?st ?ops] =>
    destruct (txn_holds st ops) eqn:Hh
  end.
  - right.
    assert (Hfree : st_units (store w) !! name = None /\ serviceDoc.Life d = Alive).
    { clearbody udoc name. revert Hh.
      unfold txn_holds, op_holds, getDoc. simpl. rewrite lookup_insert_eq. simpl.
      destruct (st_units (store w) !! name); simpl; [done|].
      rewrite !andb_true_r, bool_decide_eq_true. done. }
    destruct Hfree as [Hfree Hlife]. split; [done|].
    match goal with |- context [Service_Unit IsUnitName s name ?w0] =>
      pose proof (Service_Unit_store IsUnitName s name w0 Hsc) as Hsu;
      destruct (Service_Unit IsUnitName s name w0) as [[unit|e] w3]
    end; cbn [snd] in *; rewrite Hsu; clearbody udoc name;
      unfold txn_apply, op_apply, getDoc; simpl;
      rewrite Hfree; simpl; rewrite lookup_insert_eq; simpl;
      by rewrite insert_insert_eq.
  - left. rewrite getAlive_alone by done.
    match goal with |- context [match ?x with Some _ => _ | None => false end] =>
      destruct x
    end; [destruct (negb _)|]; done.
Qed.

(** X19. AddUnit, run alone, keeps the unit count of every stored service
    equal to the number of its stored units, whatever its outcome: the
    unit is inserted and the count incremented together, or neither is. *)
Theorem AddUnit_keeps_unit_count (IsUnitName : string -> bool) (s : Service)
    (w : World) :
  script w = [] ->
  unit_count_ok (store w) ->
  unit_count_ok (store (AddUnit IsUnitName s w).2).
Proof.
  intros Hsc Hok.
  destruct (AddUnit_outcomes IsUnitName s w Hsc) as [->|(d & Hd & [->|[Hfree ->]])];
    [done| |].
  - intros name d' Hd'. simpl in Hd'.
    change (units_of name _) with (units_of name (store w)).
    destruct (decide (serviceDoc.Name s = name)) as [<-|Hne].
    + rewrite lookup_insert_eq in Hd'. injection Hd' as <-. simpl. by apply Hok.
    + rewrite lookup_insert_ne in Hd' by done. by apply Hok.
  - intros name d' Hd'. simpl in Hd'.
    rewrite (units_of_insert name (store w)) by done. simpl.
    destruct (decide (serviceDoc.Name s = name)) as [<-|Hne].
    + rewrite lookup_insert_eq in Hd'. injection Hd' as <-. simpl.
      rewrite (Hok _ _ Hd). lia.
    + rewrite lookup_insert_ne in Hd' by done. simpl. by apply Hok.
Qed.

Lemma FindId_Count_store c id w :
  script w = [] -> store (FindId_Count c id w).2 = store w.
Proof. intros Hsc. unfold FindId_Count. by rewrite (arrive_alone w Hsc). Qed.

(** X20. RemoveUnit of a unit without machine and without principal, run
    alone, keeps the unit count of every stored service equal to the number
    of its stored units, whatever its outcome, provided the stored document
    of the unit, if any, names the same service as the cached one: the
    document is removed and the count decremented together, or neither. *)
Theorem RemoveUnit_keeps_unit_count
    (UnassignFromMachine : Unit -> World -> option error * Unit * World)
    (u : Unit) (s : Service) (w : World) :
  script w = [] ->
  unitDoc.MachineId u = "" ->
  unitDoc.Principal u = "" ->
  (forall ud, st_units (store w) !! unitDoc.Name u = Some ud ->
              unitDoc.Service ud = unitDoc.Service u) ->
  unit_count_ok (store w) ->
  unit_count_ok (store (RemoveUnit UnassignFromMachine u s w).2).
Proof.
  intros Hsc Hm Hp Hsame Hok. unfold RemoveUnit.
  destruct (bool_decide (unitDoc.Life u ≠ Dead)); [done|].
  destruct (bool_decide (unitDoc.Service u ≠ serviceDoc.Name s)) eqn:Hsvc; [done|].
  apply bool_decide_eq_false in Hsvc. apply dec_stable in Hsvc.
  rewrite bool_decide_eq_false_2 by (by intros []).
  unfold RemoveUnit_run, RemoveUnit_ops.
  rewrite bool_decide_eq_false_2 by (by intros []).
  rewrite Run_alone by done.
  match goal with |- context [txn_holds ?st ?ops] =>
    destruct (txn_holds st ops) eqn:Hh
  end.
  - cbn [snd store record set_store].
    revert Hh. unfold txn_holds, txn_apply, op_holds, op_apply, getDoc. simpl.
    destruct (st_units (store w) !! unitDoc.Name u) as [ud|] eqn:Hud; [|done].
    destruct (st_services (store w) !! serviceDoc.Name s) as [d|] eqn:Hd;
      [|by rewrite andb_false_r].
    simpl. rewrite !andb_true_r. intros Hh.
    apply andb_true_iff in Hh as [_ Hcount].
    intros name d' Hd'. simpl in Hd'.
    pose proof (units_of_delete name (store w)
                  (<[serviceDoc.Name s :=
                       serviceDoc.set_TxnRevno (serviceDoc.TxnRevno d + 1)
                         (serviceDoc.set_UnitCount (serviceDoc.UnitCount d + -1) d)]>
                     (st_services (store w)))
                  (st_relations (store w)) _ _ Hud) as Hlen.
    rewrite (Hsame _ eq_refl), Hsvc in Hlen.
    destruct (decide (serviceDoc.Name s = name)) as [<-|Hne].
    + rewrite lookup_insert_eq in Hd'. injection Hd' as <-. simpl.
      pose proof (Hok _ _ Hd) as Hc. rewrite Hlen in Hc. lia.
    + rewrite lookup_insert_ne in Hd' by done.
      rewrite (Hok _ _ Hd'), Hlen. done.
  - match goal with |- context [FindId_Count ?c ?id ?w0] =>
      pose proof (FindId_Count_store c id w0 Hsc) as Hst;
      destruct (FindId_Count c id w0) as [[n|e] w2]
    end; cbn [snd] in *; [destruct (bool_decide _)|]; cbn [snd]; by rewrite Hst.
Qed.

End unit_count_facts.

(** ** The properties above in the scenario *)

Section scenario_more.

Import state scenario process.

Lemma store1_ok : store_ok store1.
Proof.
  unfold store_ok. repeat split; apply (bool_decide_unpack _); by vm_compute.
Defined.

Lemma store0_unit_count_ok : unit_count_ok store0.
Proof.
  change (map_Forall
            (fun name d => serviceDoc.UnitCount d = Z.of_nat (length (units_of name store0)))
            (st_services store0)).
  apply (bool_decide_unpack _). by vm_compute.
Defined.

Lemma store1_unit_count_ok : unit_count_ok store1.
Proof.
  change (map_Forall
            (fun name d => serviceDoc.UnitCount d = Z.of_nat (length (units_of name store1)))
            (st_services store1)).
  apply (bool_decide_unpack _). by vm_compute.
Defined.

Lemma ParseEnv_result_shape_witness :
  has_eq "A" = false /\ leading_space "A" = false /\ trailing_space "1" = false.
Proof.
  apply (ParseEnv_result_shape raw2 env2 "A" "1").
  - by vm_compute.
  - reflexivity.
Defined.

Lemma ParseEnv_last_entry_wins_witness :
  exists m,
    ParseEnv (["A=1"] ++ ["A" +:+ "=" +:+ "x=y"]) = Some m /\
    m !! "A" = Some "x=y" /\
    forall k', k' <> "A" -> m !! k' = ParseEnv ["A=1"] ≫= (fun m0 => m0 !! k').
Proof.
  apply (ParseEnv_last_entry_wins ["A=1"] "A" "x=y"); by vm_compute.
Defined.

Lemma ParseEnv_reparse_witness :
  ParseEnv (UnparseEnv_in (map_to_list env2)) = Some env2.
Proof.
  apply (ParseEnv_reparse raw2 env2 (map_to_list env2)).
  - by vm_compute.
  - unfold range_order. reflexivity.
Defined.

Lemma Refresh_reads_store_witness :
  Refresh wordpress_stale world0
  = (None, wordpress, record (EvRead services None) world0).
Proof.
  exact (Refresh_reads_store wordpress_stale world0 world0 eq_refl).
Defined.

Lemma Service_Unit_owned_witness :
  st_units (store (Service_Unit any_name wordpress1 "wordpress/0" world1).2)
    !! "wordpress/0" = Some dead_unit /\
  unitDoc.Service dead_unit = serviceDoc.Name wordpress1.
Proof.
  destruct (Service_Unit_owned any_name wordpress1 "wordpress/0" world1) as [_ H].
  destruct (H dead_unit (Service_Unit any_name wordpress1 "wordpress/0" world1).2 eq_refl)
    as (_ & H1 & H2).
  split; assumption.
Defined.

Lemma AllUnits_exact_witness :
  exists us,
    AllUnits wordpress1 world1 = (inl us, record (EvRead units None) world1) /\
    dead_unit ∈ us /\ NoDup us.
Proof.
  destruct (AllUnits_exact wordpress1 world1 world1 eq_refl) as (us & H1 & H2 & H3).
  exists us. split; [exact H1|]. split.
  - apply H2. split; [by exists "wordpress/0"|reflexivity].
  - apply H3. exact store1_ok.
Defined.

Lemma Relations_exact_witness :
  exists rels,
    Relations wordpress world0 = (inl rels, record (EvRead relations None) world0) /\
    db ∈ rels /\ NoDup rels.
Proof.
  destruct (Relations_exact wordpress world0 world0 eq_refl) as (rels & H1 & H2 & H3).
  exists rels. split; [exact H1|]. split.
  - apply H2. split; [by exists "wordpress:db mysql:server"|].
    eexists. split; [apply list_elem_of_here|reflexivity].
  - apply H3. exact store0_ok.
Defined.

Lemma newUnitName_fresh_witness :
  exists n1 w1 n2 w2,
    newUnitName wordpress world0 = (inl n1, w1) /\
    newUnitName wordpress w1 = (inl n2, w2) /\
    n1 <> n2.
Proof.
  eexists _, _, _, _. split; [reflexivity|]. split; [reflexivity|].
  apply (newUnitName_fresh wordpress world0 _ _ _ _ eq_refl eq_refl eq_refl).
Defined.

Lemma SetCharm_committed_witness :
  exists s' w',
    SetCharm logging_charm true wordpress world0 = (None, s', w') /\
    CharmURL s' = (Some "cs:logging", true) /\
    Service_Charm s' w' = inl (logging_charm, true).
Proof.
  destruct (SetCharm_committed logging_charm true wordpress world0 world0 wordpress
              eq_refl eq_refl eq_refl) as (s' & w' & H1 & _ & H3 & _ & H5).
  exists s', w'. split; [exact H1|]. split; [exact H3|]. apply H5. reflexivity.
Defined.

Lemma AddUnit_adds_witness :
  exists w',
    AddUnit any_name wordpress world0
    = (inl (unitDoc.mk "wordpress/0" "wordpress" "" [] "" Alive UnitPending), w') /\
    serviceDoc.UnitCount <$> st_services (store w') !! "wordpress" = Some 1.
Proof.
  destruct (AddUnit_adds any_name wordpress world0 wordpress_charm false wordpress
              eq_refl eq_refl eq_refl eq_refl eq_refl eq_refl eq_refl)
    as (w' & H1 & H2).
  exists w'. split; [exact H1|]. rewrite H2. reflexivity.
Defined.

Lemma AddUnit_not_alive_witness :
  exists w',
    AddUnit any_name wordpress_dying world2
    = (inr (Context "cannot add unit to service %q" [OStr "wordpress"]
              (Errorf "service is not alive" [])), w') /\
    st_units (store w') = ∅ /\
    serviceDoc.UnitSeq <$> st_services (store w') !! "wordpress" = Some 1.
Proof.
  destruct (AddUnit_not_alive any_name wordpress_dying world2 wordpress_charm false
              wordpress_dying eq_refl eq_refl eq_refl eq_refl)
    as (w' & H1 & H2 & _ & H4); [discriminate|].
  exists w'. split; [exact H1|]. split; [exact H2|]. rewrite H4. reflexivity.
Defined.

Lemma RemoveUnit_removes_witness :
  exists w',
    RemoveUnit no_machine dead_unit wordpress1 world1 = (None, dead_unit, w') /\
    st_units (store w') !! "wordpress/0" = None /\
    serviceDoc.UnitCount <$> st_services (store w') !! "wordpress" = Some 0.
Proof.
  destruct (RemoveUnit_removes no_machine dead_unit wordpress1 world1 dead_unit
              wordpress1 eq_refl eq_refl eq_refl eq_refl eq_refl eq_refl eq_refl
              eq_refl eq_refl) as (w' & H1 & H2).
  exists w'. split; [exact H1|]. rewrite H2. split; reflexivity.
Defined.


Lemma EnsureDying_already_done_witness :
  exists w',
    store w' = store world2 /\
    EnsureDying 2 wordpress world2 = (Some None, wordpress_dying, w').
Proof.
  destruct (EnsureDying_already_done 0 wordpress world2 eq_refl eq_refl)
    as (w' & H1 & H2).
  - intros d H. vm_compute in H. injection H as <-. discriminate.
  - exists w'. split; [exact H1|exact H2].
Defined.


Lemma Service_Endpoint_found_witness :
  (exists ep,
      Service_Endpoint map_to_list wordpress "db" world0 = inl ep /\
      Endpoint.RelationName ep = "db" /\ Endpoint.ServiceName ep = "wordpress") /\
  Service_Endpoint map_to_list wordpress "cache" world0
  = inr (Errorf "service %q has no %q relation" [OStr "wordpress"; OStr "cache"]).
Proof.
  split.
  - pose proof (Service_Endpoint_found map_to_list (fun m => reflexivity (map_to_list m))
                  wordpress "db" world0 wordpress_charm false eq_refl) as H.
    cbv zeta in H. destruct H as [H _].
    destruct H as (ep & eps & H1 & _ & _ & H4 & H5).
    + right; right; left. eexists. reflexivity.
    + exists ep. split; [exact H1|]. split; [exact H4|exact H5].
  - pose proof (Service_Endpoint_found map_to_list (fun m => reflexivity (map_to_list m))
                  wordpress "cache" world0 wordpress_charm false eq_refl) as H.
    cbv zeta in H. destruct H as [_ H]. apply H.
    intros [[x Hx]|[[x Hx]|[[x Hx]|Hx]]]; by vm_compute in Hx.
Defined.

Lemma AddUnit_keeps_unit_count_witness :
  unit_count_ok (store (AddUnit any_name wordpress world0).2).
Proof.
  apply (AddUnit_keeps_unit_count any_name wordpress world0).
  - reflexivity.
  - exact store0_unit_count_ok.
Defined.

Lemma RemoveUnit_keeps_unit_count_witness :
  unit_count_ok (store (RemoveUnit no_machine dead_unit wordpress1 world1).2).
Proof.
  apply (RemoveUnit_keeps_unit_count no_machine dead_unit wordpress1 world1).
  - reflexivity.
  - reflexivity.
  - reflexivity.
  - intros ud H. vm_compute in H. injection H as <-. reflexivity.
  - exact store1_unit_count_ok.
Defined.

End scenario_more.
